(** * pyglottolog.languoids: the Languoid entity, its identifier pattern,
      the flat-file (LFF) parser and the directory-tree reader.

    A shallow embedding of [src/pyglottolog/languoids.py].

    - Python text is [string] (code points below 256), a value that may be
      [None] is an [option], a raised exception is the left summand of
      [result].
    - The descriptor document (clldutils' [INI]) is a finite map from
      (section, key) to text; a descriptor file holds such a document.
    - A path (clldutils' [Path], i.e. pathlib) is the list of its
      components; the file system is a tree of directories whose entries
      are kept in listing order.
    - The [nodes] dictionary of [Languoid.from_ini] is a finite map that
      lives in an explicit store: the default value of the parameter is
      one object, created when the function is defined and handed to
      every call that omits the argument.
    - [TREE], the result of [languoids_path('tree')] in pyglottolog.util,
      is a parameter.

    Part I holds the embedding, Part II the definitions that the
    statements use (the specification's wording of shapes and validity,
    sample trees), Part III the properties. *)

From Stdlib Require Import String Ascii List Bool Arith NArith ZArith Lia DecimalString DecimalZ.
From stdpp Require Import base option list gmap strings.

Local Open Scope string_scope.
Local Open Scope list_scope.

(* ===================================================================== *)
(** * Part I: definitions                                                 *)
(* ===================================================================== *)

(** ** Python text primitives *)

Module Py.

(** Exceptions raised by the modelled code. *)
Inductive exn :=
| AssertionError
| ValueError
| TypeError
| AttributeError
| OSError.

Definition result (A : Type) : Type := exn + A.
Definition Ok {A} (a : A) : result A := inr a.
Definition Raise {A} (e : exn) : result A := inl e.

Definition bind {A B} (m : result A) (k : A -> result B) : result B :=
  match m with
  | inl e => inl e
  | inr a => k a
  end.

Definition raises {A} (m : result A) : bool :=
  match m with inl _ => true | inr _ => false end.

(** [s[:-1]] *)
Fixpoint drop_last (s : string) : string :=
  match s with
  | EmptyString => EmptyString
  | String c EmptyString => EmptyString
  | String c t => String c (drop_last t)
  end.

(** [s.endswith(suffix)] for a one-character suffix. *)
Fixpoint endswith_char (s : string) (c : ascii) : bool :=
  match s with
  | EmptyString => false
  | String a EmptyString => Ascii.eqb a c
  | String _ t => endswith_char t c
  end.

(** [str.isspace] on one code point below 256: TAB..CR, FS..US, SPACE,
    NEL (0x85) and NBSP (0xA0). *)
Definition isspace (c : ascii) : bool :=
  let n := N_of_ascii c in
  ((9 <=? n) && (n <=? 13) || (28 <=? n) && (n <=? 32)
   || (n =? 133) || (n =? 160))%N.

Fixpoint lstrip (s : string) : string :=
  match s with
  | EmptyString => EmptyString
  | String c t => if isspace c then lstrip t else s
  end.

(** Right strip: a character is kept when it is not a space or when
    something is kept after it. *)
Fixpoint rstrip (s : string) : string :=
  match s with
  | EmptyString => EmptyString
  | String c t =>
      match rstrip t with
      | EmptyString => if isspace c then EmptyString else String c EmptyString
      | t' => String c t'
      end
  end.

(** [s.strip()] *)
Definition strip (s : string) : string := rstrip (lstrip s).

Definition cons_head (c : ascii) (l : list string) : list string :=
  match l with
  | [] => [String c EmptyString]
  | h :: r => String c h :: r
  end.

(** [s.split(sep)] and [s.split(sep, maxsplit)] for a non-empty [sep]:
    leftmost non-overlapping occurrences, scanning left to right.  [skip]
    counts the characters of a separator just found that are still to be
    passed over; [limit] is the number of splits still allowed. *)
Fixpoint split_go (sep : string) (limit : option nat) (skip : nat)
    (s : string) : list string :=
  match s with
  | EmptyString => [EmptyString]
  | String c t =>
      match skip with
      | S k => split_go sep limit k t
      | O =>
          match limit with
          | Some O => [s]
          | _ =>
              if String.prefix sep s
              then EmptyString
                     :: split_go sep (Nat.pred <$> limit) (String.length sep - 1) t
              else cons_head c (split_go sep limit 0 t)
          end
      end
  end.

Definition split (sep : string) (s : string) : list string :=
  split_go sep None 0 s.

Definition split_max (sep : string) (maxsplit : nat) (s : string) : list string :=
  split_go sep (Some maxsplit) 0 s.

(** Tuple unpacking [a, b = parts]: exactly two items, else ValueError. *)
Definition unpack2 (parts : list string) : result (string * string) :=
  match parts with
  | [a; b] => Ok (a, b)
  | _ => Raise ValueError
  end.

(** ['%s' % v] where [v] is text or [None]. *)
Definition fmt_s (v : option string) : string :=
  match v with
  | Some s => s
  | None => "None"
  end.

(** [sep.join(parts)] *)
Fixpoint join (sep : string) (parts : list string) : string :=
  match parts with
  | [] => EmptyString
  | [p] => p
  | p :: rest => p +:+ sep +:+ join sep rest
  end.

End Py.

(** ** A backtracking matcher for the fragment of [re] that [ID_REGEX] uses *)

Module Re.

Inductive re :=
| Eps
| Chr (c : ascii)
| Cls (ranges : list (ascii * ascii))
| Seq (r1 r2 : re)
| Alt (r1 r2 : re)
| Rep (n : nat) (r : re)
| Plus (r : re)
| Opt (r : re)
| Eol.

Definition in_range (c : ascii) (r : ascii * ascii) : bool :=
  (N_of_ascii (fst r) <=? N_of_ascii c)%N && (N_of_ascii c <=? N_of_ascii (snd r))%N.

Definition in_class (ranges : list (ascii * ascii)) (c : ascii) : bool :=
  existsb (in_range c) ranges.

(** [r{n}] *)
Fixpoint rep_loop (step : string -> list string) (n : nat) (s : string)
    : list string :=
  match n with
  | O => [s]
  | S k => flat_map (rep_loop step k) (step s)
  end.

(** Greedy [r+]: after one iteration, more iterations are tried before
    stopping.  Every iteration of a body that matches consumes text, so the
    length of the subject bounds the number of iterations. *)
Fixpoint plus_loop (step : string -> list string) (fuel : nat) (s : string)
    : list string :=
  match fuel with
  | O => []
  | S k => flat_map (fun t => plus_loop step k t ++ [t]) (step s)
  end.

(** [run r s] lists, in the order the backtracking engine tries them, the
    remainders of [s] after each way of matching [r] at the start of [s]. *)
Fixpoint run (r : re) (s : string) : list string :=
  match r with
  | Eps => [s]
  | Chr c =>
      match s with
      | String a t => if Ascii.eqb a c then [t] else []
      | EmptyString => []
      end
  | Cls ranges =>
      match s with
      | String a t => if in_class ranges a then [t] else []
      | EmptyString => []
      end
  | Seq r1 r2 => flat_map (run r2) (run r1 s)
  | Alt r1 r2 => run r1 s ++ run r2 s
  | Rep n r1 => rep_loop (run r1) n s
  | Plus r1 => plus_loop (run r1) (String.length s) s
  | Opt r1 => run r1 s ++ [s]
  | Eol =>
      (* [$] without MULTILINE: at the end of the text, or just before a
         newline that is the last character of the text. *)
      match s with
      | EmptyString => [s]
      | String "010"%char EmptyString => [s]
      | _ => []
      end
  end.

(** [pattern.match(s)] is truthy when some way of matching exists; the
    match is anchored at the start only. *)
Definition matches (r : re) (s : string) : bool :=
  match run r s with
  | [] => false
  | _ :: _ => true
  end.

Fixpoint lit (s : string) : re :=
  match s with
  | EmptyString => Eps
  | String c t => Seq (Chr c) (lit t)
  end.

End Re.

(** ** Identifier pattern and levels *)

Import Py.

Definition lower : ascii * ascii := ("a"%char, "z"%char).
Definition upper : ascii * ascii := ("A"%char, "Z"%char).
Definition digit : ascii * ascii := ("0"%char, "9"%char).
Definition hyphen : ascii * ascii := ("-"%char, "-"%char).

(** [ID_REGEX = '([a-z0-9]{4}[0-9]{4}|NOCODE(_[A-Za-z0-9\-]+)?)'] *)
Definition ID_REGEX : Re.re :=
  Re.Alt
    (Re.Seq (Re.Rep 4 (Re.Cls [lower; digit])) (Re.Rep 4 (Re.Cls [digit])))
    (Re.Seq (Re.lit "NOCODE")
       (Re.Opt (Re.Seq (Re.Chr "_") (Re.Plus (Re.Cls [upper; lower; digit; hyphen]))))).

(** [id_pattern = re.compile(ID_REGEX + '$')] *)
Definition id_pattern : Re.re := Re.Seq ID_REGEX Re.Eol.

(** [Languoid.id_pattern.match(id)] as a truth value. *)
Definition id_pattern_match (id : string) : bool := Re.matches id_pattern id.

Inductive Level := family | language | dialect.

Definition Level_eqb (a b : Level) : bool :=
  match a, b with
  | family, family | language, language | dialect, dialect => true
  | _, _ => false
  end.

Definition Level_value (l : Level) : string :=
  match l with
  | family => "family"
  | language => "language"
  | dialect => "dialect"
  end.

Notation "'let*' x ':=' m 'in' k" := (Py.bind m (fun x => k))
  (at level 10, x pattern, m at level 100, k at level 200, only parsing).

(** Values that reach the enum constructor [Level(...)]: [None], text, or
    a member of the enum. *)
Inductive pylevel :=
| PNone
| PStr (s : string)
| PLevel (l : Level).

(** [Level(v)]: a member is returned as it is, text is looked up by value,
    anything else raises ValueError. *)
Definition Level_call (v : pylevel) : result Level :=
  match v with
  | PLevel l => Ok l
  | PStr s =>
      if String.eqb s "family" then Ok family
      else if String.eqb s "language" then Ok language
      else if String.eqb s "dialect" then Ok dialect
      else Raise ValueError
  | PNone => Raise ValueError
  end.

(** ** Paths

    A path is its list of components, innermost first: the name is the
    head, the parent is the tail, and the empty list is the anchor (the
    root, or [.] for a relative path), whose name is the empty text. *)

Abbreviation Path := (list string).

(** [p.name] *)
Definition path_name (p : Path) : string :=
  match p with
  | [] => EmptyString
  | n :: _ => n
  end.

(** [p.parent] *)
Definition path_parent (p : Path) : Path :=
  match p with
  | [] => []
  | _ :: up => up
  end.

(** [p.parents]: nearest first, the anchor last. *)
Fixpoint path_parents (p : Path) : list Path :=
  match p with
  | [] => []
  | _ :: up => up :: path_parents up
  end.

(** [p.joinpath( *names )] for names that are single components. *)
Definition joinpath (p : Path) (names : list string) : Path := rev names ++ p.

(** The directory names of a path, outermost first. *)
Definition path_parts (p : Path) : list string := rev p.

(** The part of [s] from its last dot on, if it has a dot. *)
Fixpoint from_last_dot (s : string) : option string :=
  match s with
  | EmptyString => None
  | String c t =>
      match from_last_dot t with
      | Some x => Some x
      | None => if Ascii.eqb c "."%char then Some s else None
      end
  end.

(** [p.suffix]: [name[i:]] for [i = name.rfind('.')] when
    [0 < i < len(name) - 1], else the empty text. *)
Definition path_suffix (p : Path) : string :=
  match path_name p with
  | EmptyString => EmptyString
  | String _ t =>
      match from_last_dot t with
      | Some suf => if String.eqb suf "." then EmptyString else suf
      | None => EmptyString
      end
  end.

(** ** The descriptor document

    The store behind clldutils' [INI(interpolation=None)]: text values
    under (section, key). *)

Abbreviation INI := (gmap (string * string) string).

(** [cfg.get(section, key, fallback=None)] *)
Definition ini_get (cfg : INI) (section key : string) : option string :=
  cfg !! (section, key).

(** [cfg.set(section, key, value)] for a text value. *)
Definition ini_set (cfg : INI) (section key value : string) : INI :=
  <[(section, key) := value]> cfg.

(** [cfg.read_dict(dict(core=dict(name=name, glottocode=id)))] on a new
    document. *)
Definition ini_core (name id : string) : INI :=
  ini_set (ini_set ∅ "core" "name" name) "core" "glottocode" id.

(** ** The file system *)

#[warnings="-register-all"]
Inductive fsnode :=
| FFile (content : INI)
| FDir (entries : list (string * fsnode)).

Fixpoint fs_entry (name : string) (entries : list (string * fsnode))
    : option fsnode :=
  match entries with
  | [] => None
  | (n, x) :: rest => if String.eqb n name then Some x else fs_entry name rest
  end.

Fixpoint fs_lookup (node : fsnode) (parts : list string) : option fsnode :=
  match parts with
  | [] => Some node
  | n :: rest =>
      match node with
      | FDir entries =>
          match fs_entry n entries with
          | Some child => fs_lookup child rest
          | None => None
          end
      | FFile _ => None
      end
  end.

Definition fs_at (fs : fsnode) (p : Path) : option fsnode :=
  fs_lookup fs (path_parts p).

(** [directory.iterdir()], in the order the system lists the entries. *)
Definition iterdir (fs : fsnode) (directory : Path) : result (list Path) :=
  match fs_at fs directory with
  | Some (FDir entries) => Ok (map (fun e => fst e :: directory) entries)
  | _ => Raise OSError
  end.

(** [p.is_file()] *)
Definition is_file (fs : fsnode) (p : Path) : bool :=
  match fs_at fs p with
  | Some (FFile _) => true
  | _ => false
  end.

(** [cfg = INI(); cfg.read(ini)]: a file that cannot be read leaves the
    document empty. *)
Definition ini_read (fs : fsnode) (ini : Path) : INI :=
  match fs_at fs ini with
  | Some (FFile content) => content
  | _ => ∅
  end.

Definition entry_is_dir (e : string * fsnode) : bool :=
  match snd e with
  | FDir _ => true
  | FFile _ => false
  end.

(** clldutils' [walk(p, mode='dirs')] over [os.walk]: top-down, every
    directory yields its sub-directories before they are entered. *)
Fixpoint walk_dirs (p : Path) (node : fsnode) {struct node} : list Path :=
  match node with
  | FFile _ => []
  | FDir entries =>
      map (fun e => fst e :: p) (List.filter entry_is_dir entries)
      ++ (fix below (es : list (string * fsnode)) : list Path :=
            match es with
            | [] => []
            | (n, child) :: rest => walk_dirs (n :: p) child ++ below rest
            end) entries
  end.

Definition walk_tree_dirs (fs : fsnode) (tree : Path) : list Path :=
  match fs_at fs tree with
  | Some node => walk_dirs tree node
  | None => []
  end.

(** ** The Languoid entity *)

(** A lineage entry as it is supplied: (name, id, level). *)
Abbreviation raw_triple := (option string * option string * pylevel)%type.

(** A lineage entry as it is stored: the level is a member of [Level]. *)
Abbreviation triple := (option string * string * Level)%type.

Record Languoid := {
  cfg : INI;
  lineage : list triple;
  dir : Path
}.

Definition section_core : string := "core".

(** [all(items)] *)
Definition all (items : list bool) : bool := forallb (fun b => b) items.

Fixpoint mapM {A B} (f : A -> result B) (l : list A) : result (list B) :=
  match l with
  | [] => Ok []
  | a :: rest =>
      let* b := f a in
      let* bs := mapM f rest in
      Ok (b :: bs)
  end.

(** [id_pattern.match(id)] on a value that may be [None]. *)
Definition id_pattern_match_value (id : option string) : result bool :=
  match id with
  | Some s => Ok (id_pattern_match s)
  | None => Raise TypeError
  end.

(** One item of the list under the assertion of [__init__]:
    [self.id_pattern.match(id) and Level(level)], as a truth value. *)
Definition lineage_item_check (t : raw_triple) : result bool :=
  let '(_, id, level) := t in
  let* m := id_pattern_match_value id in
  if m then (let* _ := Level_call level in Ok true) else Ok false.

(** One item of [[(name, id, Level(level)) for name, id, level in lineage]]. *)
Definition lineage_item_store (t : raw_triple) : result triple :=
  let '(name, id, level) := t in
  let* l := Level_call level in
  match id with
  | Some i => Ok (name, i, l)
  | None => Raise TypeError (* not reached: the assertion has run *)
  end.

Section Languoids.

(** [TREE = languoids_path('tree')] *)
Variable TREE : Path.

(** [Languoid.__init__(self, cfg, lineage=None, directory=None)] *)
Definition Languoid_init (cfg_ : INI) (lineage_ : option (list raw_triple))
    (directory : option Path) : result Languoid :=
  let lineage_ := default [] lineage_ in
  let* checks := mapM lineage_item_check lineage_ in
  if negb (all checks) then Raise AssertionError
  else
    let* stored := mapM lineage_item_store lineage_ in
    Ok {| cfg := cfg_;
          lineage := stored;
          dir := match directory with
                 | Some d => d
                 | None => joinpath TREE (map (fun t : triple => snd (fst t)) stored)
                 end |}.

(** [self._set(key, value)] *)
Definition Languoid_set (l : Languoid) (key value : string) : Languoid :=
  {| cfg := ini_set (cfg l) section_core key value;
     lineage := lineage l;
     dir := dir l |}.

(** [self._get(key)] *)
Definition Languoid_get (l : Languoid) (key : string) : option string :=
  ini_get (cfg l) section_core key.

(** The properties [name], [id] and [iso]. *)
Definition Languoid_name (l : Languoid) : option string := Languoid_get l "name".
Definition Languoid_id (l : Languoid) : option string := Languoid_get l "glottocode".
Definition Languoid_iso (l : Languoid) : option string := Languoid_get l "iso639-3".

(** [self._get('level', Level)]: an absent or empty value is returned as
    it is, anything else goes through [Level(...)]. *)
Definition Languoid_level (l : Languoid) : result pylevel :=
  match Languoid_get l "level" with
  | None => Ok PNone
  | Some EmptyString => Ok (PStr EmptyString)
  | Some s => let* lv := Level_call (PStr s) in Ok (PLevel lv)
  end.

(** The [level] setter: [self._set('level', Level(value).value)]. *)
Definition Languoid_set_level (l : Languoid) (value : pylevel) : result Languoid :=
  let* lv := Level_call value in
  Ok (Languoid_set l "level" (Level_value lv)).

(** The [iso] setter. *)
Definition Languoid_set_iso (l : Languoid) (value : string) : Languoid :=
  Languoid_set l "iso639-3" value.

(** The loop of [from_lff] over [enumerate(path.split('], '))]. *)
Fixpoint lff_lineage (level : Level) (i : nat) (comps : list string)
    : result (list raw_triple) :=
  match comps with
  | [] => Ok []
  | comp :: rest =>
      let comp := if endswith_char comp "]" then drop_last comp else comp in
      let* (name, id_) := unpack2 (split_max " [" 1 comp) in
      let _level :=
        if Level_eqb level dialect
        then (if Nat.eqb i 0 then language else dialect)
        else family in
      let* more := lff_lineage level (S i) rest in
      Ok ((Some name, Some id_, PLevel _level) :: more)
  end.

(** [Languoid.from_lff(path, name_and_codes, level)] *)
Definition from_lff (path : option string) (name_and_codes : string)
    (level : Level) : result Languoid :=
  let* (lname, codes) := unpack2 (split_max "[" 1 name_and_codes) in
  let lname := strip lname in
  let* (glottocode, isocode) := unpack2 (split "][" (drop_last codes)) in
  let* lineage_ :=
    match path with
    | None | Some EmptyString => Ok []
    | Some p => lff_lineage level 0 (split "], " p)
    end in
  let* res := Languoid_init (ini_core lname glottocode) (Some lineage_) None in
  let* res := Languoid_set_level res (PLevel level) in
  Ok (match isocode with
      | EmptyString => res
      | _ => Languoid_set_iso res isocode
      end).

(** [itertools.takewhile] *)
Fixpoint takewhile {A} (p : A -> bool) (l : list A) : list A :=
  match l with
  | [] => []
  | a :: rest => if p a then a :: takewhile p rest else []
  end.

Definition not_family (x : triple) : bool := negb (Level_eqb (snd x) family).

(** ['%s [%s]' % (name, id)] *)
Definition lff_label (x : triple) : string :=
  fmt_s (fst (fst x)) +:+ " [" +:+ snd (fst x) +:+ "]".

(** The local [lineage] of [lff_group], given the value of [self.level]. *)
Definition lff_group_entries (lv : pylevel) (l : Languoid) : list triple :=
  match lv with
  | PLevel dialect => rev (takewhile not_family (rev (lineage l)))
  | _ => lineage l
  end.

(** [Languoid.lff_group(self)] *)
Definition lff_group (l : Languoid) : result string :=
  let* lv := Languoid_level l in
  let lineage_ := lff_group_entries lv l in
  match lineage l with
  | [] => Ok (fmt_s (Languoid_name l) +:+ " [-isolate-]")
  | _ =>
      let res := join ", " (map lff_label lineage_) in
      Ok (match res with
          | EmptyString => "ERROR [-unclassified-]"
          | _ => res
          end)
  end.

(** ** Reading the tree *)

(** The [nodes] dictionary of [from_ini]: directory name (or descriptor
    id) to (name, id, level). *)
Abbreviation nodes_dict := (gmap (option string) raw_triple).

(** The dictionaries a call can be handed: the one object created when
    [def from_ini(cls, ini, nodes={})] was evaluated, which every call
    that omits [nodes] receives, and a dictionary owned by the caller. *)
Inductive nodes_ref := DefaultNodes | CallerNodes.

Record store := {
  default_nodes : nodes_dict;
  caller_nodes : nodes_dict
}.

Definition nodes_of (r : nodes_ref) (st : store) : nodes_dict :=
  match r with
  | DefaultNodes => default_nodes st
  | CallerNodes => caller_nodes st
  end.

Definition nodes_set (r : nodes_ref) (k : option string) (v : raw_triple)
    (st : store) : store :=
  match r with
  | DefaultNodes =>
      {| default_nodes := <[k := v]> (default_nodes st);
         caller_nodes := caller_nodes st |}
  | CallerNodes =>
      {| default_nodes := default_nodes st;
         caller_nodes := <[k := v]> (caller_nodes st) |}
  end.

(** The store of a fresh interpreter. *)
Definition store0 : store := {| default_nodes := ∅; caller_nodes := ∅ |}.

(** [(l.name, l.id, l.level)] *)
Definition Languoid_triple (l : Languoid) : result raw_triple :=
  let* lv := Languoid_level l in
  Ok (Languoid_name l, Languoid_id l, lv).

Variable fs : fsnode.

(** The body of [Languoid.from_dir(directory, **kw)], over the function
    that [cls.from_ini] denotes. *)
Definition from_dir_body
    (from_ini_ : Path -> nodes_ref -> store -> result (Languoid * store))
    (directory : Path) (nodes : nodes_ref) (st : store)
    : result (option Languoid * store) :=
  let* entries := iterdir fs directory in
  match List.find (is_file fs) entries with
  | Some p =>
      if String.eqb (path_suffix p) ".ini"
      then (let* (l, st') := from_ini_ p nodes st in Ok (Some l, st'))
      else Raise AssertionError
  | None => Ok (None, st)
  end.

(** The block [if id_ not in nodes: l = Languoid.from_dir(parent,
    nodes=nodes); nodes[id_] = (l.name, l.id, l.level)] of [from_ini], with
    [id_ = parent.name].  [from_ini_at p] stands for [cls.from_ini] on a
    descriptor that lies in [p]. *)
Definition resolve_parent
    (from_ini_at : Path -> Path -> nodes_ref -> store -> result (Languoid * store))
    (nodes : nodes_ref) (parent : Path) (st : store) : result store :=
  match nodes_of nodes st !! Some (path_name parent) with
  | Some _ => Ok st
  | None =>
      let* (l, st) := from_dir_body (from_ini_at parent) parent nodes st in
      match l with
      | None => Raise AttributeError
      | Some l =>
          let* t := Languoid_triple l in
          Ok (nodes_set nodes (Some (path_name parent)) t st)
      end
  end.

(** The loop [for parent in directory.parents] of [from_ini], started at
    the nearest parent: the parents of a path are its tail, the tail of
    that, and so on down to the anchor.  [dname] is [directory.name]. *)
Fixpoint lineage_walk
    (from_ini_at : Path -> Path -> nodes_ref -> store -> result (Languoid * store))
    (dname : string) (nodes : nodes_ref)
    (parent : Path) (lineage_ : list raw_triple) (st : store)
    {struct parent} : result (list raw_triple * store) :=
  let id_ := path_name parent in
  if String.eqb id_ dname then Raise AssertionError
  else if negb (id_pattern_match id_) then Ok (lineage_, st)
  else
    let* st := resolve_parent from_ini_at nodes parent st in
    match nodes_of nodes st !! Some id_ with
    | None => Raise AssertionError (* not reached *)
    | Some t =>
        match parent with
        | [] => Ok (lineage_ ++ [t], st)
        | _ :: up => lineage_walk from_ini_at dname nodes up (lineage_ ++ [t]) st
        end
    end.

(** [Languoid.from_ini(ini, nodes)] where [directory = ini.parent]; the
    recursion through [from_dir] goes to strict ancestors of [directory]. *)
Fixpoint from_ini_in (directory : Path) (ini : Path) (nodes : nodes_ref)
    (st : store) {struct directory} : result (Languoid * store) :=
  let cfg_ := ini_read fs ini in
  let* (lineage_, st) :=
    match directory with
    | [] => Ok ([], st)
    | dname :: up => lineage_walk from_ini_in dname nodes up [] st
    end in
  let* res := Languoid_init cfg_ (Some (rev lineage_)) (Some directory) in
  let* t := Languoid_triple res in
  Ok (res, nodes_set nodes (Languoid_id res) t st).

Definition from_ini (ini : Path) (nodes : nodes_ref) (st : store)
    : result (Languoid * store) :=
  from_ini_in (path_parent ini) ini nodes st.

Definition from_dir (directory : Path) (nodes : nodes_ref) (st : store)
    : result (option Languoid * store) :=
  from_dir_body from_ini directory nodes st.

(** The loop of the [ancestors] property over [self.dir.parents]; the
    calls [Languoid.from_dir(parent)] omit [nodes]. *)
Fixpoint ancestors_walk (parents : list Path) (res : list (option Languoid))
    (st : store) : result (list (option Languoid) * store) :=
  match parents with
  | [] => Ok (res, st)
  | parent :: rest =>
      if id_pattern_match (path_name parent)
      then
        let* (a, st) := from_dir parent DefaultNodes st in
        ancestors_walk rest (res ++ [a]) st
      else Ok (res, st)
  end.

(** The [ancestors] property. *)
Definition ancestors (l : Languoid) (st : store)
    : result (list (option Languoid) * store) :=
  let* (res, st) := ancestors_walk (path_parents (dir l)) [] st in
  Ok (rev res, st).

(** The [parent] property: [ancestors[-1] if ancestors else None]. *)
Definition parent (l : Languoid) (st : store)
    : result (option Languoid * store) :=
  let* (anc, st) := ancestors l st in
  Ok (match anc with
      | [] => None
      | _ => List.last anc None
      end, st).

(** The [family] property: [ancestors[0] if ancestors else None]. *)
Definition Languoid_family (l : Languoid) (st : store)
    : result (option Languoid * store) :=
  let* (anc, st) := ancestors l st in
  Ok (match anc with
      | [] => None
      | a :: _ => a
      end, st).

(** [find_languoid(tree, glottocode)] *)
Definition find_languoid (tree : Path) (glottocode : string) (st : store)
    : result (option Languoid * store) :=
  match List.find (fun fname => String.eqb (path_name fname) glottocode)
          (walk_tree_dirs fs tree) with
  | Some fname => from_dir fname DefaultNodes st
  | None => Ok (None, st)
  end.

End Languoids.

(* ===================================================================== *)
(** * Part II: definitions used by the statements and their proofs        *)
(* ===================================================================== *)

(** ** The identifier shape in the words of the specification *)

Definition newline : ascii := "010"%char.

Fixpoint string_forall (p : ascii -> bool) (s : string) : bool :=
  match s with
  | EmptyString => true
  | String c t => p c && string_forall p t
  end.

Definition lower_alnum : ascii -> bool := Re.in_class [lower; digit].
Definition is_digit : ascii -> bool := Re.in_class [digit].
Definition alnum_hyphen : ascii -> bool := Re.in_class [upper; lower; digit; hyphen].

(** Exactly 4 lowercase-alphanumeric characters followed by exactly 4
    digits. *)
Definition code_shape (s : string) : bool :=
  Nat.eqb (String.length s) 8
  && string_forall lower_alnum (substring 0 4 s)
  && string_forall is_digit (substring 4 4 s).

(** The literal NOCODE, optionally followed by an underscore and a
    non-empty suffix of alphanumeric characters and hyphens. *)
Definition nocode_shape (s : string) : bool :=
  String.eqb s "NOCODE"
  || String.eqb (substring 0 7 s) "NOCODE_"
     && Nat.ltb 7 (String.length s)
     && string_forall alnum_hyphen (substring 7 (String.length s - 7) s).

Definition spec_identifier (s : string) : bool := code_shape s || nocode_shape s.

(** ** Direct forms of the matcher on the shapes that occur in [ID_REGEX] *)

(** Where [$] matches. *)
Definition eol_ok (s : string) : bool :=
  match s with
  | EmptyString => true
  | String c EmptyString => Ascii.eqb c newline
  | _ => false
  end.

(** [n] characters of a class. *)
Fixpoint eat_class (n : nat) (ranges : list (ascii * ascii)) (s : string)
    : option string :=
  match n with
  | O => Some s
  | S k =>
      match s with
      | String c t => if Re.in_class ranges c then eat_class k ranges t else None
      | EmptyString => None
      end
  end.

(** A literal prefix. *)
Fixpoint eat_prefix (p s : string) : option string :=
  match p with
  | EmptyString => Some s
  | String c p' =>
      match s with
      | String a t => if Ascii.eqb a c then eat_prefix p' t else None
      | EmptyString => None
      end
  end.

(** One or more characters of a class, then [$]. *)
Fixpoint plus_then_eol (ranges : list (ascii * ascii)) (s : string) : bool :=
  match s with
  | EmptyString => false
  | String c t => Re.in_class ranges c && (plus_then_eol ranges t || eol_ok t)
  end.

Definition accepts (s : string) : bool :=
  match eat_class 4 [lower; digit] s with
  | Some t =>
      match eat_class 4 [digit] t with
      | Some u => eol_ok u
      | None => false
      end
  | None => false
  end
  || match eat_prefix "NOCODE" s with
     | Some t =>
         match t with
         | String c u =>
             Ascii.eqb c "_"%char
             && plus_then_eol [upper; lower; digit; hyphen] u
         | EmptyString => false
         end
         || eol_ok t
     | None => false
     end.

(** ** Validity of a supplied lineage entry, in the words of the specification *)

(** The level is one of the values of the enum. *)
Definition valid_level_value (v : pylevel) : bool :=
  match v with
  | PLevel _ => true
  | PStr s => existsb (String.eqb s) (map Level_value [family; language; dialect])
  | PNone => false
  end.

(** The id is accepted by the identifier pattern. *)
Definition valid_lineage_id (id : option string) : bool :=
  match id with
  | Some s => id_pattern_match s
  | None => false
  end.

Definition valid_lineage_entry (t : raw_triple) : bool :=
  valid_lineage_id (snd (fst t)) && valid_level_value (snd t).

(** The stored form of a valid entry. *)
Definition stored_entry (t : raw_triple) : triple :=
  (fst (fst t),
   default EmptyString (snd (fst t)),
   match Level_call (snd t) with inr l => l | inl _ => family end).

(** ** Levels of the lineage that [from_lff] builds from [n] segments *)

Definition lff_levels (level : Level) (n : nat) : list Level :=
  match level with
  | dialect =>
      match n with
      | O => []
      | S k => language :: repeat dialect k
      end
  | _ => repeat family n
  end.

(** The levels as the specification words them: for a dialect record the
    first segment is a language and the others are families. *)
Definition lff_levels_spec (level : Level) (n : nat) : list Level :=
  match level with
  | dialect =>
      match n with
      | O => []
      | S k => language :: repeat family k
      end
  | _ => repeat family n
  end.

(** ** Sample data *)

Definition sample_TREE : Path := ["tree"; "languoids"].

(** An entity with the given core fields. *)
Definition sample_languoid (name id level : string) (lineage_ : list triple)
    (dir_ : Path) : Languoid :=
  {| cfg := ini_set (ini_core name id) "core" "level" level;
     lineage := lineage_;
     dir := dir_ |}.

Definition family_parent_dialect : Languoid :=
  sample_languoid "Bar" "wxyz5678" "dialect"
    [(Some "A", "abcd1234", family)]
    ["wxyz5678"; "abcd1234"; "tree"; "languoids"].

Definition nested_dialect : Languoid :=
  sample_languoid "Baz" "wxyz5678" "dialect"
    [(Some "A", "abcd1234", family);
     (Some "B", "efgh5678", language);
     (Some "C", "ijkl9012", dialect)]
    ["wxyz5678"; "ijkl9012"; "efgh5678"; "abcd1234"; "tree"; "languoids"].

Definition isolate_language : Languoid :=
  sample_languoid "Basque" "basq1248" "language" []
    ["basq1248"; "tree"; "languoids"].

(** The level field can be read: it is absent, empty, or the text of a
    member of the enum. *)
Definition level_readable (l : Languoid) : bool :=
  match Languoid_get l "level" with
  | None | Some EmptyString => true
  | Some s => valid_level_value (PStr s)
  end.

(** A node without ancestors whose descriptor gives a level that is no
    member of the enum. *)
Definition unreadable_isolate : Languoid :=
  sample_languoid "Basque" "basq1248" "isolate" []
    ["basq1248"; "tree"; "languoids"].

(** The segments of a lineage prefix: none when the prefix is absent or
    empty, else the pieces between the separators. *)
Definition lff_segments (path : option string) : list string :=
  match path with
  | None | Some EmptyString => []
  | Some p => split "], " p
  end.

(** The level that the loop of [from_lff] gives to segment [i]. *)
Definition lff_level_at (level : Level) (i : nat) : Level :=
  if Level_eqb level dialect
  then (if Nat.eqb i 0 then language else dialect)
  else family.

(** The record of the specification's example for [from_lff]. *)
Definition flat_line_example (TREE : Path) : Languoid :=
  {| cfg := ini_set (ini_set (ini_core "Bar" "wxyz5678") "core" "level" "dialect")
              "core" "iso639-3" "xyz";
     lineage := [(Some "Proto-Foo", "abcd1234", language)];
     dir := joinpath TREE ["abcd1234"] |}.

(** The record parsed from the dialect line "Baz [wxyz5678][]" under the
    prefix "A [abcd1234], B [efgh5678], C [ijkl9012]". *)
Definition three_segment_dialect : Languoid :=
  {| cfg := ini_set (ini_core "Baz" "wxyz5678") "core" "level" "dialect";
     lineage := [(Some "A", "abcd1234", language);
                 (Some "B", "efgh5678", dialect);
                 (Some "C", "ijkl9012", dialect)];
     dir := joinpath sample_TREE ["abcd1234"; "efgh5678"; "ijkl9012"] |}.

(** ** Sample trees *)

(** A descriptor with the core fields name, glottocode and level. *)
Definition descriptor (name id level : string) : INI :=
  ini_set (ini_core name id) "core" "level" level.

(** A languoid directory: its descriptor file, then its sub-directories. *)
Definition languoid_dir (id name level : string)
    (children : list (string * fsnode)) : string * fsnode :=
  (id, FDir ((id +:+ ".ini", FFile (descriptor name id level)) :: children)).

(** The tree of the specification's example:
    root/abc1fam1/lang5678/xyz19999. *)
Definition spec_tree : fsnode :=
  FDir [("root", FDir
    [languoid_dir "abc1fam1" "Fam" "family"
       [languoid_dir "lang5678" "Lang" "language"
          [languoid_dir "xyz19999" "Xyz" "dialect" []]]])].

(** The same tree with a family directory whose name the identifier
    pattern accepts: root/abcd1234/lang5678/xyz19999. *)
Definition valid_tree : fsnode :=
  FDir [("root", FDir
    [languoid_dir "abcd1234" "Fam" "family"
       [languoid_dir "lang5678" "Lang" "language"
          [languoid_dir "xyz19999" "Xyz" "dialect" []]]])].

(** A tree with a directory that holds no file and a directory that
    holds two descriptor files. *)
Definition odd_tree : fsnode :=
  FDir [("root", FDir
    [("aaaa1111", FDir [("bbbb2222", FDir [])]);
     ("cccc3333", FDir [("cccc3333.ini", FFile (descriptor "First" "cccc3333" "family"));
                        ("copy.ini", FFile (descriptor "Second" "cccc3333" "family"))])])].

Definition not_a_file (fs : fsnode) (p : Path) : bool := negb (is_file fs p).

(** The three nodes of [valid_tree], as [from_dir] returns them. *)
Definition valid_tree_fam : Languoid :=
  {| cfg := descriptor "Fam" "abcd1234" "family";
     lineage := [];
     dir := ["abcd1234"; "root"] |}.

Definition valid_tree_lang : Languoid :=
  {| cfg := descriptor "Lang" "lang5678" "language";
     lineage := [(Some "Fam", "abcd1234", family)];
     dir := ["lang5678"; "abcd1234"; "root"] |}.

Definition valid_tree_xyz : Languoid :=
  {| cfg := descriptor "Xyz" "xyz19999" "dialect";
     lineage := [(Some "Fam", "abcd1234", family);
                 (Some "Lang", "lang5678", language)];
     dir := ["xyz19999"; "lang5678"; "abcd1234"; "root"] |}.

(** The result of a computation, without the store. *)
Definition value_of {A} (r : result (A * store)) : result A :=
  let* (a, _) := r in Ok a.

(** ** Which dictionary a call touches *)

Definition other (r : nodes_ref) : nodes_ref :=
  match r with
  | DefaultNodes => CallerNodes
  | CallerNodes => DefaultNodes
  end.

(** Two runs end alike as far as the dictionary [r] can tell: the same
    exception, or the same value and the same contents of [r]. *)
Definition same_outcome {A} (r : nodes_ref) (x y : result (A * store)) : Prop :=
  match x, y with
  | inl e, inl e' => e = e'
  | inr (a, s), inr (a', s') => a = a' /\ nodes_of r s = nodes_of r s'
  | _, _ => False
  end.

(** A run that returns has left the dictionary other than [r] as it was
    in [st]. *)
Definition keeps_other {A} (r : nodes_ref) (st : store)
    (x : result (A * store)) : Prop :=
  match x with
  | inl _ => True
  | inr (_, s) => nodes_of (other r) s = nodes_of (other r) st
  end.

(** A computation that reads and writes the dictionary [r] only. *)
Definition framed {A} (r : nodes_ref) (f : store -> result (A * store)) : Prop :=
  forall st st' : store,
    nodes_of r st = nodes_of r st' ->
    same_outcome r (f st) (f st') /\ keeps_other r st (f st).

(** Two trees in one file system that hold the same ids: the working tree
    and a rebuilt copy in which the family has been renamed. *)
Definition two_trees : fsnode :=
  FDir [("languoids", FDir [("tree", FDir
           [languoid_dir "abcd1234" "Old Name" "family"
              [languoid_dir "efgh5678" "Lang" "language" []]])]);
        ("build", FDir [("tree", FDir
           [languoid_dir "abcd1234" "New Name" "family"
              [languoid_dir "efgh5678" "Lang" "language" []]])])].

Definition working_descriptor : Path :=
  ["efgh5678.ini"; "efgh5678"; "abcd1234"; "tree"; "languoids"].

Definition rebuilt_descriptor : Path :=
  ["efgh5678.ini"; "efgh5678"; "abcd1234"; "tree"; "build"].

(** The store after [Languoid.from_ini(working_descriptor)] in a fresh
    interpreter. *)
Definition store_after_working : store :=
  match from_ini sample_TREE two_trees working_descriptor DefaultNodes store0 with
  | inr (_, st) => st
  | inl _ => store0
  end.

(** ** A well-formed chain of ancestor directories *)

(** The directories that the parent walk visits from [directory]: its
    parents, nearest first, as long as the identifier pattern accepts
    their names. *)
Definition walked_parents (directory : Path) : list Path :=
  takewhile (fun p => id_pattern_match (path_name p)) (path_parents directory).

(** The same walk, started at the nearest parent. *)
Fixpoint visited (parent : Path) : list Path :=
  match parent with
  | [] => []
  | n :: up => if id_pattern_match n then parent :: visited up else []
  end.

(** The parents on which [assert id_ != directory.name] runs: the visited
    ones and the one at which the walk stops. *)
Fixpoint asserted_from (parent : Path) : list Path :=
  match parent with
  | [] => [[]]
  | n :: up => if id_pattern_match n then parent :: asserted_from up else [parent]
  end.

Definition asserted_parents (directory : Path) : list Path :=
  match directory with
  | [] => []
  | _ :: up => asserted_from up
  end.

(** The descriptor that [from_dir] loads in a directory: the first file
    listed. *)
Definition dir_descriptor (fs : fsnode) (p : Path) : option Path :=
  match iterdir fs p with
  | inr entries => List.find (is_file fs) entries
  | inl _ => None
  end.

(** (name, id, level) as read from a descriptor document. *)
Definition cfg_triple (c : INI) : result raw_triple :=
  Languoid_triple {| cfg := c; lineage := []; dir := [] |}.

(** (name, id, level) of the node stored in a directory. *)
Definition dir_raw_triple (fs : fsnode) (p : Path) : raw_triple :=
  match dir_descriptor fs p with
  | Some f =>
      match cfg_triple (ini_read fs f) with
      | inr t => t
      | inl _ => (None, None, PNone)
      end
  | None => (None, None, PNone)
  end.

(** The lineage entry of the node stored in a directory. *)
Definition dir_entry (fs : fsnode) (p : Path) : triple :=
  stored_entry (dir_raw_triple fs p).

(** The directory follows the tree layout: its first file is a descriptor
    '<...>.ini' whose glottocode is the directory's name and whose level
    is a value of the enum. *)
Definition languoid_dir_ok (fs : fsnode) (p : Path) : bool :=
  match dir_descriptor fs p with
  | Some f =>
      String.eqb (path_suffix f) ".ini"
      && match ini_get (ini_read fs f) "core" "glottocode" with
         | Some g => String.eqb g (path_name p)
         | None => false
         end
      && match cfg_triple (ini_read fs f) with
         | inr (_, _, PLevel _) => true
         | _ => false
         end
  | None => false
  end.

Fixpoint distinct (names : list string) : bool :=
  match names with
  | [] => true
  | x :: rest => negb (existsb (String.eqb x) rest) && distinct rest
  end.

(** No parent on which the assertion runs has the name of [directory]. *)
Definition assertion_holds (directory : Path) : bool :=
  forallb (fun q => negb (String.eqb (path_name q) (path_name directory)))
    (asserted_parents directory).

(** Every entry that the dictionary holds under the name of a directory of
    [chain] is the (name, id, level) of the node stored there. *)
Definition coherent (fs : fsnode) (chain : list Path)
    (c : gmap (option string) raw_triple) : Prop :=
  forall (p : Path) (t : raw_triple),
    In p chain -> c !! Some (path_name p) = Some t -> t = dir_raw_triple fs p.

(** The nodes of [spec_tree], as [from_dir] returns them. *)
Definition spec_tree_fam : Languoid :=
  {| cfg := descriptor "Fam" "abc1fam1" "family";
     lineage := [];
     dir := ["abc1fam1"; "root"] |}.

Definition spec_tree_lang : Languoid :=
  {| cfg := descriptor "Lang" "lang5678" "language";
     lineage := [];
     dir := ["lang5678"; "abc1fam1"; "root"] |}.

Definition spec_tree_xyz : Languoid :=
  {| cfg := descriptor "Xyz" "xyz19999" "dialect";
     lineage := [(Some "Lang", "lang5678", language)];
     dir := ["xyz19999"; "lang5678"; "abc1fam1"; "root"] |}.

(** [find_languoid(tree, code)] in a fresh interpreter. *)
Definition found (TREE : Path) (fs : fsnode) (tree : Path) (code : string)
    : result (option Languoid) :=
  value_of (find_languoid TREE fs tree code store0).

(** [find_languoid(tree, code).ancestors] in a fresh interpreter. *)
Definition found_ancestors (TREE : Path) (fs : fsnode) (tree : Path)
    (code : string) : result (list (option Languoid)) :=
  let* (l, st) := find_languoid TREE fs tree code store0 in
  match l with
  | Some l => value_of (ancestors TREE fs l st)
  | None => Raise AttributeError
  end.

Definition valid_tree_xyz_descriptor : Path :=
  ["xyz19999.ini"; "xyz19999"; "lang5678"; "abcd1234"; "root"].

(** What a call of [from_ini] on a descriptor [ini] lying in [directory]
    does when the walk from [directory] stays inside [chain], a list of
    directories that follow the layout. *)
Definition good_call (TREE : Path) (fs : fsnode) (r : nodes_ref)
    (chain : list Path) (directory ini : Path) : Prop :=
  forall (st : store) (t_own : raw_triple),
    incl (walked_parents directory) chain ->
    (forall q, In q (asserted_parents directory) ->
               path_name q <> path_name directory) ->
    cfg_triple (ini_read fs ini) = Ok t_own ->
    coherent fs chain (nodes_of r st) ->
    exists (st' : store) (c : gmap (option string) raw_triple),
      from_ini_in TREE fs directory ini r st
      = Ok ({| cfg := ini_read fs ini;
               lineage := map (dir_entry fs) (rev (walked_parents directory));
               dir := directory |}, st')
      /\ nodes_of r st'
         = <[ini_get (ini_read fs ini) "core" "glottocode" := t_own]> c
      /\ coherent fs chain c.

(* ===================================================================== *)
(** * Part I, continued: the rest of the module                           *)
(* ===================================================================== *)

(** ** Further properties of the entity *)

(** The property [classification_status]. *)
Definition Languoid_classification_status (l : Languoid) : option string :=
  Languoid_get l "classification_status".

(** The truth value of a value that is text or [None]. *)
Definition truthy (v : option string) : bool :=
  match v with
  | Some (String _ _) => true
  | _ => false
  end.

(** [v or ''] for a value that is text or [None]. *)
Definition or_empty (v : option string) : string :=
  match v with
  | Some s => s
  | None => EmptyString
  end.

(** [Languoid.lff_language(self)] *)
Definition lff_language (l : Languoid) : string :=
  let res :=
    "    " +:+ fmt_s (Languoid_name l) +:+ " [" +:+ fmt_s (Languoid_id l)
    +:+ "][" +:+ or_empty (Languoid_iso l) +:+ "]" in
  if truthy (Languoid_classification_status l)
  then res +:+ " " +:+ fmt_s (Languoid_classification_status l)
  else res.

Section LanguoidsContinued.

Variable TREE : Path.

(** [Languoid.from_name_id_level(name, id, level)], called without
    keyword arguments: the loop over [kw.items()] has nothing to do. *)
Definition from_name_id_level (name id : string) (level : pylevel)
    : result Languoid :=
  let* res := Languoid_init TREE (ini_core name id) (Some []) None in
  let* lv := Level_call level in
  Languoid_set_level res (PLevel lv).

Variable fs : fsnode.

(** [p.is_dir()] *)
Definition is_dir (p : Path) : bool :=
  match fs_at fs p with
  | Some (FDir _) => true
  | _ => false
  end.

(** The list comprehension of the [children] property over the
    sub-directories; the calls [Languoid.from_dir(d)] omit [nodes]. *)
Fixpoint children_of (dirs : list Path) (st : store)
    : result (list (option Languoid) * store) :=
  match dirs with
  | [] => Ok ([], st)
  | d :: rest =>
      let* (c, st) := from_dir TREE fs d DefaultNodes st in
      let* (cs, st) := children_of rest st in
      Ok (c :: cs, st)
  end.

(** The [children] property. *)
Definition children (l : Languoid) (st : store)
    : result (list (option Languoid) * store) :=
  let* entries := iterdir fs (dir l) in
  children_of (List.filter is_dir entries) st.

End LanguoidsContinued.

Definition entry_is_file (e : string * fsnode) : bool :=
  match snd e with
  | FFile _ => true
  | FDir _ => false
  end.

(** clldutils' [walk(p, mode='files')] over [os.walk]: top-down, every
    directory yields its files before its sub-directories are entered. *)
Fixpoint walk_files (p : Path) (node : fsnode) {struct node} : list Path :=
  match node with
  | FFile _ => []
  | FDir entries =>
      map (fun e => fst e :: p) (List.filter entry_is_file entries)
      ++ (fix below (es : list (string * fsnode)) : list Path :=
            match es with
            | [] => []
            | (n, child) :: rest => walk_files (n :: p) child ++ below rest
            end) entries
  end.

Definition walk_tree_files (fs : fsnode) (tree : Path) : list Path :=
  match fs_at fs tree with
  | Some node => walk_files tree node
  | None => []
  end.

Section Walk.

Variable TREE : Path.
Variable fs : fsnode.

(** The loop of [walk_tree] over the files, run to its end: every file
    with suffix '.ini' is loaded with [from_ini(fname, **kw)]. *)
Fixpoint walk_tree_loop (files : list Path) (nodes : nodes_ref) (st : store)
    : result (list Languoid * store) :=
  match files with
  | [] => Ok ([], st)
  | fname :: rest =>
      if String.eqb (path_suffix fname) ".ini"
      then
        let* (l, st) := from_ini TREE fs fname nodes st in
        let* (ls, st) := walk_tree_loop rest nodes st in
        Ok (l :: ls, st)
      else walk_tree_loop rest nodes st
  end.

(** [list(walk_tree(tree, **kw))] *)
Definition walk_tree (tree : Path) (nodes : nodes_ref) (st : store)
    : result (list Languoid * store) :=
  walk_tree_loop (walk_tree_files fs tree) nodes st.

End Walk.

(** ** Allocation of identifiers *)

(** A value of a JSON document as [json.load] returns it.  [F] stands for
    Python's floats. *)
#[warnings="-register-all"]
Inductive json (F : Type) :=
| JNull
| JBool (b : bool)
| JInt (n : Z)
| JFloat (x : F)
| JStr (s : string)
| JList (items : list (json F))
| JDict (fields : list (string * json F)).

Arguments JNull {F}.
Arguments JBool {F} b.
Arguments JInt {F} n.
Arguments JFloat {F} x.
Arguments JStr {F} s.
Arguments JList {F} items.
Arguments JDict {F} fields.

(** ['%s' % num] for an integer. *)
Definition str_int (num : Z) : string :=
  NilZero.string_of_int (Z.to_int num).

(** [alpha[-1]] as text, for a non-empty [alpha]. *)
Fixpoint last_char (alpha : string) : string :=
  match alpha with
  | EmptyString => EmptyString
  | String c EmptyString => String c EmptyString
  | String _ t => last_char t
  end.

(** [while len(alpha) < 4: alpha += alpha[-1]]; every turn makes a
    non-empty [alpha] longer, so four turns are more than the loop can
    take. *)
Fixpoint pad_alpha (turns : nat) (alpha : string) : string :=
  match turns with
  | O => alpha
  | S k =>
      if Nat.ltb (String.length alpha) 4
      then pad_alpha k (alpha +:+ last_char alpha)
      else alpha
  end.

Section Glottocodes.

(** clldutils' [slug], which ends in an assertion on its result. *)
Variable slug : string -> result string.

(** Python's floats, with [x + 1] and ['%s' % x]. *)
Variable F : Type.
Variable float_add_one : F -> F.
Variable float_str : F -> string.

(** [num = v + 1] together with ['%s' % num]: a bool counts as 0 or 1,
    anything that is no number raises TypeError. *)
Definition next_number (v : json F) : result (json F * string) :=
  match v with
  | JInt n => Ok (JInt (n + 1)%Z, str_int (n + 1)%Z)
  | JBool b =>
      let n := ((if b then 1 else 0) + 1)%Z in Ok (JInt n, str_int n)
  | JFloat x => Ok (JFloat (float_add_one x), float_str (float_add_one x))
  | JNull | JStr _ | JList _ | JDict _ => Raise TypeError
  end.

(** [glottocode_for_name(name, dry_run)] where [name] is the text
    [text_type(name)] and [gc_store] the object that glottocodes.json
    holds: the code, and the content of the file afterwards. *)
Definition glottocode_for_name (name : string) (dry_run : bool)
    (gc_store : gmap string (json F))
    : result (string * gmap string (json F)) :=
  let* slugged := slug name in
  let alpha := substring 0 4 slugged in
  match alpha with
  | EmptyString => Raise AssertionError
  | _ =>
      let alpha := pad_alpha 4 alpha in
      let* (num, text) := next_number (default (JInt 1233) (gc_store !! alpha)) in
      let glottocodes := <[alpha := num]> gc_store in
      Ok (alpha +:+ text, if dry_run then gc_store else glottocodes)
  end.

End Glottocodes.

(* ===================================================================== *)
(** * Part II, continued: definitions used by the further statements      *)
(* ===================================================================== *)

(** The id of a stored lineage entry. *)
Definition entry_id (t : triple) : string := snd (fst t).

(** Every id of the lineage is accepted by the identifier pattern. *)
Definition lineage_ids_valid (l : Languoid) : bool :=
  forallb (fun t => id_pattern_match (entry_id t)) (lineage l).

(** A language node as [from_name_id_level] builds it. *)
Definition new_language (TREE : Path) : Languoid :=
  {| cfg := ini_set (ini_core "Basque" "basq1248") "core" "level" "language";
     lineage := [];
     dir := TREE |}.

(** The characters of an identifier: letters, digits, hyphen, underscore,
    and the newline that [$] lets pass at the end. *)
Definition id_char (c : ascii) : bool :=
  alnum_hyphen c || Ascii.eqb c "_"%char || Ascii.eqb c newline.

(** [c not in s] *)
Definition lacks (c : ascii) (s : string) : bool :=
  string_forall (fun a => negb (Ascii.eqb a c)) s.

(** A run of [glottocode_for_name(name)] over several names, each call
    storing its counter: the codes handed out and the content of the file
    at the end. *)
Fixpoint allocate {F : Type} (slug : string -> result string)
    (float_add_one : F -> F) (float_str : F -> string)
    (names : list string) (gc_store : gmap string (json F))
    : result (list string * gmap string (json F)) :=
  match names with
  | [] => Ok ([], gc_store)
  | name :: rest =>
      let* (code, gc_store) :=
        glottocode_for_name slug F float_add_one float_str name false
          gc_store in
      let* (codes, gc_store) :=
        allocate slug float_add_one float_str rest gc_store in
      Ok (code :: codes, gc_store)
  end.

(** The file holds no float. *)
Definition no_float {F : Type} (gc_store : gmap string (json F)) : Prop :=
  forall (k : string) (x : F), gc_store !! k <> Some (JFloat x).

(** The integer that a counter counts as. *)
Definition counter {F : Type} (v : json F) : Z :=
  match v with
  | JInt n => n
  | JBool true => 1
  | _ => 0
  end.

(** [n] copies of a character. *)
Fixpoint replicate_char (n : nat) (c : ascii) : string :=
  match n with
  | O => EmptyString
  | S k => String c (replicate_char k c)
  end.

(** The last character of a text. *)
Fixpoint final_char (s : string) : option ascii :=
  match s with
  | EmptyString => None
  | String c EmptyString => Some c
  | String _ t => final_char t
  end.

(** A text of at most four characters, filled up to four with copies of
    its last character. *)
Definition padded (p : string) : string :=
  match final_char p with
  | Some c => p +:+ replicate_char (4 - String.length p) c
  | None => p
  end.

(** The four-character prefix of a code for a slugged name. *)
Definition code_prefix (slugged : string) : string :=
  padded (substring 0 4 slugged).

(** Four characters, all digits. *)
Definition four_digits (d : string) : bool :=
  Nat.eqb (String.length d) 4 && string_forall is_digit d.

Definition digit_chars : list ascii :=
  ["0"; "1"; "2"; "3"; "4"; "5"; "6"; "7"; "8"; "9"]%char.

(** All texts of four digits. *)
Definition four_digit_texts : list string :=
  flat_map (fun a =>
    flat_map (fun b =>
      flat_map (fun c =>
        map (fun d => String a (String b (String c (String d EmptyString))))
          digit_chars) digit_chars) digit_chars) digit_chars.

(** The number that a text denotes is at most 9999. *)
Definition denotes_at_most_9999 (d : string) : bool :=
  match NilZero.int_of_string d with
  | Some i => Z.leb (Z.of_int i) 9999
  | None => false
  end.

Definition digit_or_minus (c : ascii) : bool :=
  is_digit c || Ascii.eqb c "-"%char.

(** What clldutils' [slug] makes of one character below 256: a digit and
    a lowercase letter stay, a capital is lowercased, a Latin-1 letter
    with an accent gives its base letter, white space, punctuation and
    the other characters above 127 give nothing; on the remaining ASCII
    control characters the final assertion of [slug] fails. *)
Definition slug_char (c : ascii) : option string :=
  let n := N_of_ascii c in
  let within (lo hi : N) := ((lo <=? n) && (n <=? hi))%N in
  let letter (x : ascii) := Some (String x EmptyString) in
  if lower_alnum c then letter c
  else if Re.in_class [upper] c then letter (ascii_of_N (n + 32))
  else if within 192%N 197%N || within 224%N 229%N then letter "a"%char
  else if (n =? 199)%N || (n =? 231)%N then letter "c"%char
  else if within 200%N 203%N || within 232%N 235%N then letter "e"%char
  else if within 204%N 207%N || within 236%N 239%N then letter "i"%char
  else if (n =? 209)%N || (n =? 241)%N then letter "n"%char
  else if within 210%N 214%N || within 242%N 246%N then letter "o"%char
  else if within 217%N 220%N || within 249%N 252%N then letter "u"%char
  else if (n =? 221)%N || (n =? 253)%N || (n =? 255)%N then letter "y"%char
  else if within 0%N 8%N || within 14%N 27%N || (n =? 127)%N then None
  else Some EmptyString.

(** clldutils' [slug] on text of code points below 256. *)
Fixpoint latin1_slug (name : string) : result string :=
  match name with
  | EmptyString => Ok EmptyString
  | String c t =>
      match slug_char c with
      | Some p => let* rest := latin1_slug t in Ok (p +:+ rest)
      | None => Raise AssertionError
      end
  end.

(** A file without floats needs no float arithmetic. *)
Definition no_floats : Type := Empty_set.
Definition no_float_add_one (x : no_floats) : no_floats := x.
Definition no_float_str (x : no_floats) : string := match x with end.

(** A float type with a single value that absorbs the increment, as 1e16
    does. *)
Definition big_float : Type := unit.
Definition big_float_add_one (x : big_float) : big_float := x.
Definition big_float_str (x : big_float) : string := "1e+16".

(** Entries that a caller has put into its dictionary for the two ancestor
    directories of root/abcd1234/lang5678/xyz19999; they differ from what
    the descriptors of [valid_tree] say. *)
Definition renamed_entry (q : Path) : raw_triple :=
  if String.eqb (path_name q) "abcd1234"
  then (Some "Renamed family", Some "abcd1234", PLevel family)
  else (Some "Renamed language", Some "lang5678", PLevel language).

Definition renamed_store : store :=
  {| default_nodes := ∅;
     caller_nodes :=
       <[Some "abcd1234" := renamed_entry ["abcd1234"; "root"]]>
         (<[Some "lang5678" := renamed_entry ["lang5678"; "abcd1234"; "root"]]> ∅) |}.

(** A file system that holds the descriptor of xyz19999 and nothing of
    its ancestors. *)
Definition bare_tree : fsnode :=
  FDir [("root", FDir [("abcd1234", FDir [("lang5678", FDir
    [languoid_dir "xyz19999" "Xyz" "dialect" []])])])].

(** A descriptor below the directory of [odd_tree] that holds no file. *)
Definition orphan_descriptor : Path :=
  ["bbbb2222.ini"; "bbbb2222"; "aaaa1111"; "root"].

(** A tree in which the descriptor of directory abcd1234 carries another
    glottocode. *)
Definition mislabelled_tree : fsnode :=
  FDir [("root", FDir
    [("abcd1234", FDir
       [("abcd1234.ini", FFile (descriptor "Other" "zzzz9999" "language"))])])].

(** [p] lies strictly below [tree]. *)
Definition below (tree p : Path) : Prop :=
  exists pre : Path, pre <> [] /\ p = pre ++ tree.

(** What [from_dir] has returned for directory [d]: a Languoid placed in
    [d] that holds the document of the first file of [d], or [None] for
    a directory without a file. *)
Definition loaded_from (fs : fsnode) (d : Path) (c : option Languoid) : Prop :=
  match c with
  | Some l =>
      dir l = d
      /\ exists f : Path, dir_descriptor fs d = Some f /\ cfg l = ini_read fs f
  | None => dir_descriptor fs d = None
  end.

(** A node placed at the root directory of [odd_tree]. *)
Definition odd_root : Languoid :=
  {| cfg := descriptor "Root" "root1234" "family"; lineage := []; dir := ["root"] |}.

(** The node stored by a descriptor [f], as [from_ini] builds it in a
    tree that follows the layout: the document of [f], the entries of the
    walked parent directories, root first, and the directory of [f]. *)
Definition node_at (fs : fsnode) (f : Path) : Languoid :=
  {| cfg := ini_read fs f;
     lineage := map (dir_entry fs) (rev (walked_parents (path_parent f)));
     dir := path_parent f |}.

(** The node stored in a directory. *)
Definition dir_node (fs : fsnode) (p : Path) : option Languoid :=
  option_map (node_at fs) (dir_descriptor fs p).

(** The lineage entry that a loaded ancestor stands for: its
    (name, id, level) with the level as a member of the enum. *)
Definition Languoid_entry (a : option Languoid) : option triple :=
  match a with
  | Some l =>
      match Languoid_triple l with
      | inr t => Some (stored_entry t)
      | inl _ => None
      end
  | None => None
  end.

(** [fname.suffix == '.ini'] *)
Definition is_ini (fname : Path) : bool := String.eqb (path_suffix fname) ".ini".

Definition in_list (p : Path) (l : list Path) : bool :=
  existsb (fun q => bool_decide (q = p)) l.

(** The descriptor [f] is the first file of its directory, and that
    directory and the parents walked from it belong to [chain]. *)
Definition descriptor_ok (fs : fsnode) (chain : list Path) (f : Path) : bool :=
  in_list (path_parent f) chain
  && forallb (fun q => in_list q chain) (walked_parents (path_parent f))
  && assertion_holds (path_parent f)
  && bool_decide (dir_descriptor fs (path_parent f) = Some f).

(** The languoid directories of [valid_tree]. *)
Definition valid_tree_dirs : list Path :=
  [["abcd1234"; "root"]; ["lang5678"; "abcd1234"; "root"];
   ["xyz19999"; "lang5678"; "abcd1234"; "root"]].

(** The dictionary [c'] holds a value under every key of [c]. *)
Definition keeps_keys (c c' : gmap (option string) raw_triple) : Prop :=
  forall k : option string, is_Some (c !! k) -> is_Some (c' !! k).

(** A computation that deletes no entry of the dictionary [r]. *)
Definition growing {A} (r : nodes_ref) (f : store -> result (A * store)) : Prop :=
  forall (st st' : store) (a : A),
    f st = Ok (a, st') -> keeps_keys (nodes_of r st) (nodes_of r st').

(** A language node with a name of several words and an iso code. *)
Definition written_language : Languoid :=
  {| cfg := ini_set (descriptor "Upper Sorbian" "uppe1395" "language")
              "core" "iso639-3" "hsb";
     lineage := [];
     dir := sample_TREE |}.

(** The name of a lineage entry as [lff_group] writes it. *)
Definition entry_name (t : triple) : string := fmt_s (fst (fst t)).

(** The name holds no bracket. *)
Definition name_ok (t : triple) : bool :=
  lacks "[" (entry_name t) && lacks "]" (entry_name t).

(** A label without its closing bracket. *)
Definition lff_body (t : triple) : string :=
  entry_name t +:+ " [" +:+ entry_id t.

(** The segments of a written group label: every label but the last has
    lost its closing bracket to the separator. *)
Fixpoint written_comps (xs : list triple) : list string :=
  match xs with
  | [] => []
  | [x] => [lff_label x]
  | x :: rest => lff_body x :: written_comps rest
  end.

(** The entries that the loop of [from_lff] builds from the segments of
    a written group label, the first segment having index [i]. *)
Fixpoint read_back (level : Level) (i : nat) (xs : list triple)
    : list raw_triple :=
  match xs with
  | [] => []
  | x :: rest =>
      (Some (entry_name x), Some (entry_id x), PLevel (lff_level_at level i))
      :: read_back level (S i) rest
  end.

(** A language node below two families. *)
Definition grouped_language : Languoid :=
  sample_languoid "Upper Sorbian" "uppe1395" "language"
    [(Some "Indo-European", "indo1319", family);
     (Some "West Slavic", "west3000", family)]
    sample_TREE.

(** A node placed below the directory of [odd_tree] that holds no file. *)
Definition orphan_node : Languoid :=
  {| cfg := descriptor "Orphan" "bbbb2222" "language";
     lineage := [];
     dir := ["bbbb2222"; "aaaa1111"; "root"] |}.

(* ===================================================================== *)
(** * Part III: properties                                                *)
(* ===================================================================== *)

(** ** The identifier pattern *)

Lemma run_Eol (s : string) : Re.run Re.Eol s = if eol_ok s then [s] else [].
Proof.
  destruct s as [|c t]; [reflexivity|].
  destruct c as [[] [] [] [] [] [] [] []]; destruct t; reflexivity.
Qed.

Lemma nonempty_flat_map_Eol (l : list string) :
  match flat_map (Re.run Re.Eol) l with [] => false | _ :: _ => true end
  = existsb eol_ok l.
Proof.
  induction l as [|t l IH]; [reflexivity|].
  cbn [flat_map existsb]. rewrite run_Eol.
  destruct (eol_ok t); [reflexivity|exact IH].
Qed.

Lemma run_Rep_Cls (n : nat) (ranges : list (ascii * ascii)) (s : string) :
  Re.rep_loop (Re.run (Re.Cls ranges)) n s
  = match eat_class n ranges s with Some t => [t] | None => [] end.
Proof.
  revert s. induction n as [|n IH]; intros s; simpl; [reflexivity|].
  destruct s as [|c t]; simpl; [reflexivity|].
  destruct (Re.in_class ranges c); simpl; [|reflexivity].
  rewrite IH. destruct (eat_class n ranges t); reflexivity.
Qed.

Lemma run_lit (p s : string) :
  Re.run (Re.lit p) s
  = match eat_prefix p s with Some t => [t] | None => [] end.
Proof.
  revert s. induction p as [|c p IH]; intros s; simpl; [reflexivity|].
  destruct s as [|a t]; simpl; [reflexivity|].
  destruct (Ascii.eqb a c); simpl; [|reflexivity].
  rewrite IH. destruct (eat_prefix p t); reflexivity.
Qed.

Lemma plus_loop_then_eol (ranges : list (ascii * ascii)) (s : string) (fuel : nat) :
  String.length s <= fuel ->
  existsb eol_ok (Re.plus_loop (Re.run (Re.Cls ranges)) fuel s)
  = plus_then_eol ranges s.
Proof.
  revert fuel. induction s as [|c t IH]; intros fuel Hf.
  - destruct fuel; reflexivity.
  - destruct fuel as [|fuel]; [simpl in Hf; lia|].
    simpl. destruct (Re.in_class ranges c); simpl; [|reflexivity].
    rewrite app_nil_r, existsb_app. simpl.
    rewrite IH by (simpl in Hf; lia).
    now rewrite orb_false_r.
Qed.

Lemma id_pattern_match_accepts (s : string) : id_pattern_match s = accepts s.
Proof.
  unfold id_pattern_match, Re.matches, id_pattern.
  change (Re.run (Re.Seq ID_REGEX Re.Eol) s)
    with (flat_map (Re.run Re.Eol) (Re.run ID_REGEX s)).
  rewrite nonempty_flat_map_Eol.
  unfold ID_REGEX.
  change (Re.run (Re.Alt ?a ?b) s) with (Re.run a s ++ Re.run b s).
  rewrite existsb_app. unfold accepts. f_equal.
  - change (Re.run (Re.Seq (Re.Rep 4 (Re.Cls [lower; digit])) (Re.Rep 4 (Re.Cls [digit]))) s)
      with (flat_map (Re.rep_loop (Re.run (Re.Cls [digit])) 4)
              (Re.rep_loop (Re.run (Re.Cls [lower; digit])) 4 s)).
    rewrite run_Rep_Cls.
    destruct (eat_class 4 [lower; digit] s) as [t|]; [|reflexivity].
    cbn [flat_map]. rewrite app_nil_r, run_Rep_Cls.
    destruct (eat_class 4 [digit] t) as [u|]; [|reflexivity].
    cbn [existsb]. now rewrite orb_false_r.
  - change (Re.run (Re.Seq (Re.lit "NOCODE") ?r) s)
      with (flat_map (Re.run r) (Re.run (Re.lit "NOCODE") s)).
    rewrite run_lit.
    destruct (eat_prefix "NOCODE" s) as [t|]; [|reflexivity].
    cbn [flat_map]. rewrite app_nil_r.
    change (Re.run (Re.Opt ?r) t) with (Re.run r t ++ [t]).
    rewrite existsb_app. cbn [existsb]. rewrite orb_false_r. f_equal.
    destruct t as [|c u]; [reflexivity|].
    change (Re.run (Re.Seq (Re.Chr "_") ?r) (String c u))
      with (flat_map (Re.run r) (if Ascii.eqb c "_" then [u] else [])).
    destruct (Ascii.eqb c "_"); [|reflexivity].
    cbn [flat_map]. rewrite app_nil_r.
    change (Re.run (Re.Plus ?r) u)
      with (Re.plus_loop (Re.run r) (String.length u) u).
    now rewrite plus_loop_then_eol.
Qed.

Local Arguments Re.in_class : simpl never.

Ltac split_class :=
  repeat match goal with
         | |- context [Re.in_class ?r ?c] =>
             destruct (Re.in_class r c); cbn -[Re.in_class]; try reflexivity
         end.

Lemma accepts_code (s : string) :
  match eat_class 4 [lower; digit] s with
  | Some t =>
      match eat_class 4 [digit] t with
      | Some u => eol_ok u
      | None => false
      end
  | None => false
  end
  = code_shape s || endswith_char s newline && code_shape (drop_last s).
Proof.
  unfold code_shape, lower_alnum, is_digit.
  destruct s as [|c1 [|c2 [|c3 [|c4 [|c5 [|c6 [|c7 [|c8 [|c9 [|c10 t]]]]]]]]]];
    cbn -[Re.in_class]; try reflexivity.
  all: split_class.
  all: rewrite ?andb_false_r, ?andb_true_r, ?orb_false_r; reflexivity.
Qed.

Lemma substring_all (s : string) : substring 0 (String.length s) s = s.
Proof. induction s as [|c t IH]; simpl; [reflexivity|now rewrite IH]. Qed.

Lemma eol_ok_cons (c : ascii) (t : string) :
  eol_ok (String c t)
  = endswith_char (String c t) newline
    && String.eqb (drop_last (String c t)) EmptyString.
Proof.
  destruct t as [|c' t]; cbn.
  - now rewrite andb_true_r.
  - now rewrite andb_false_r.
Qed.

Lemma plus_then_eol_shape (ranges : list (ascii * ascii)) (u : string) :
  plus_then_eol ranges u
  = negb (String.eqb u EmptyString) && string_forall (Re.in_class ranges) u
    || endswith_char u newline
       && negb (String.eqb (drop_last u) EmptyString)
       && string_forall (Re.in_class ranges) (drop_last u).
Proof.
  induction u as [|c t IH]; [reflexivity|].
  cbn [plus_then_eol]. rewrite IH. clear IH.
  destruct t as [|c' t'].
  - cbn -[Re.in_class]. destruct (Re.in_class ranges c); cbn;
      now rewrite ?andb_false_r.
  - rewrite eol_ok_cons.
    change (drop_last (String c (String c' t')))
      with (String c (drop_last (String c' t'))).
    change (endswith_char (String c (String c' t')) newline)
      with (endswith_char (String c' t') newline).
    set (d := drop_last (String c' t')).
    set (e := endswith_char (String c' t') newline).
    cbn -[Re.in_class d e].
    destruct (Re.in_class ranges c), (Re.in_class ranges c'),
      (string_forall (Re.in_class ranges) t'), e, d;
      cbn -[Re.in_class string_forall];
      rewrite ?andb_false_r, ?andb_true_r, ?orb_false_r; reflexivity.
Qed.

Ltac char_cases :=
  repeat match goal with
         | |- context [if Ascii.eqb ?c ?lit then _ else _] =>
             destruct (Ascii.eqb_spec c lit) as [->|?];
             cbn -[Re.in_class plus_then_eol]
         end.

Lemma accepts_nocode (s : string) :
  match eat_prefix "NOCODE" s with
  | Some t =>
      match t with
      | String c u =>
          Ascii.eqb c "_"%char && plus_then_eol [upper; lower; digit; hyphen] u
      | EmptyString => false
      end
      || eol_ok t
  | None => false
  end
  = nocode_shape s || endswith_char s newline && nocode_shape (drop_last s).
Proof.
  unfold nocode_shape, alnum_hyphen.
  destruct s as [|c1 [|c2 [|c3 [|c4 [|c5 [|c6 [|c7 u]]]]]]];
    cbn -[Re.in_class plus_then_eol]; try reflexivity.
  all: char_cases; rewrite ?andb_false_r, ?andb_true_r, ?orb_false_r;
    try reflexivity.
  - rewrite plus_then_eol_shape.
    destruct u as [|c8 u']; [reflexivity|].
    set (d := drop_last (String c8 u')).
    set (e := endswith_char (String c8 u') newline).
    cbn -[Re.in_class string_forall d e].
    rewrite Nat.sub_0_r, !substring_all, orb_false_r.
    destruct d as [|c9 d']; cbn -[Re.in_class string_forall e];
      now rewrite ?andb_false_r, ?andb_true_r.
  - destruct u as [|c8 u']; cbn -[Re.in_class string_forall drop_last endswith_char].
    + now rewrite andb_true_r.
    + destruct (Ascii.eqb_spec c7 "_") as [?|_]; [contradiction|].
      now rewrite andb_false_r.
Qed.

Lemma accepts_shape (s : string) :
  accepts s
  = spec_identifier s || endswith_char s newline && spec_identifier (drop_last s).
Proof.
  unfold accepts, spec_identifier. rewrite accepts_code, accepts_nocode.
  destruct (code_shape s), (nocode_shape s), (endswith_char s newline),
    (code_shape (drop_last s)), (nocode_shape (drop_last s)); reflexivity.
Qed.

(** What the pattern accepts: a text of the specified shape, possibly
    followed by one newline. *)
Lemma id_pattern_match_shape (s : string) :
  id_pattern_match s
  = spec_identifier s || endswith_char s newline && spec_identifier (drop_last s).
Proof. rewrite id_pattern_match_accepts. apply accepts_shape. Qed.


(** *** C7 *)

(** C7 (identifier validator).  The pattern accepts exactly the texts of
    the specified shape and those texts followed by one newline, because
    [$] also matches before a final newline.  It accepts "abcd1234" and
    "NOCODE_Foo-1" and rejects "AB1234" and "abcd123", as specified; it
    also accepts "abcd1234" followed by a newline, which is not of the
    specified shape. *)
Theorem id_pattern_accepts_trailing_newline :
  (forall s : string,
      id_pattern_match s
      = spec_identifier s
        || endswith_char s newline && spec_identifier (drop_last s))
  /\ id_pattern_match "abcd1234" = true
  /\ id_pattern_match "NOCODE_Foo-1" = true
  /\ id_pattern_match "AB1234" = false
  /\ id_pattern_match "abcd123" = false
  /\ id_pattern_match ("abcd1234" +:+ String newline EmptyString) = true
  /\ spec_identifier ("abcd1234" +:+ String newline EmptyString) = false.
Proof.
  split; [exact id_pattern_match_shape|].
  repeat split; vm_compute; reflexivity.
Qed.

(** ** Construction *)

Lemma Level_call_valid (v : pylevel) :
  raises (Level_call v) = negb (valid_level_value v).
Proof.
  destruct v as [|s|l]; try reflexivity.
  cbn. destruct (String.eqb s "family"); [reflexivity|].
  destruct (String.eqb s "language"); [reflexivity|].
  destruct (String.eqb s "dialect"); reflexivity.
Qed.

Lemma Level_call_Ok_valid (v : pylevel) (l : Level) :
  Level_call v = Ok l -> valid_level_value v = true.
Proof.
  intros H. pose proof (Level_call_valid v) as R. rewrite H in R.
  cbn in R. now destruct (valid_level_value v).
Qed.

Lemma valid_level_value_Ok (v : pylevel) :
  valid_level_value v = true -> exists l, Level_call v = Ok l.
Proof.
  intros H. pose proof (Level_call_valid v) as R. rewrite H in R.
  destruct (Level_call v) as [e|l]; [discriminate|]. now exists l.
Qed.

(** One item under the assertion: it raises only on an entry that is not
    valid, and otherwise tells whether the entry is valid. *)
Lemma lineage_item_check_valid (t : raw_triple) :
  match lineage_item_check t with
  | inl _ => valid_lineage_entry t = false
  | inr b => b = valid_lineage_entry t
  end.
Proof.
  destruct t as [[name id] level].
  unfold valid_lineage_entry, lineage_item_check; cbn [fst snd].
  destruct id as [s|]; cbn; [|reflexivity].
  destruct (id_pattern_match s); cbn; [|reflexivity].
  pose proof (Level_call_valid level) as R.
  destruct (Level_call level) as [e|l]; cbn in R |- *;
    now destruct (valid_level_value level).
Qed.

(** The list under the assertion: it cannot be built when some entry
    raises, and otherwise it holds [false] exactly when an entry is not
    valid. *)
Lemma lineage_checks (lin : list raw_triple) :
  match mapM lineage_item_check lin with
  | inl _ => forallb valid_lineage_entry lin = false
  | inr bs => all bs = forallb valid_lineage_entry lin
  end.
Proof.
  induction lin as [|t lin IH]; [reflexivity|].
  cbn [mapM forallb].
  pose proof (lineage_item_check_valid t) as Ht.
  destruct (lineage_item_check t) as [e|b]; cbn [bind].
  - now rewrite Ht.
  - destruct (mapM lineage_item_check lin) as [e|bs]; cbn [bind].
    + rewrite IH. apply andb_false_r.
    + unfold Ok. unfold all in *. cbn [forallb]. now rewrite IH, Ht.
Qed.

Lemma lineage_stored (lin : list raw_triple) :
  forallb valid_lineage_entry lin = true ->
  mapM lineage_item_store lin = Ok (map stored_entry lin).
Proof.
  induction lin as [|[[name id] level] lin IH]; [reflexivity|].
  cbn [forallb mapM map]. intros H.
  apply andb_prop in H as [Hv Hl].
  rewrite (IH Hl). unfold valid_lineage_entry in Hv; cbn [fst snd] in Hv.
  apply andb_prop in Hv as [Hid Hlv].
  destruct id as [s|]; [|discriminate].
  destruct (valid_level_value_Ok _ Hlv) as [l El].
  unfold lineage_item_store, stored_entry; cbn [fst snd]. now rewrite El.
Qed.

(** Construction from a valid lineage. *)
Lemma Languoid_init_valid (TREE : Path) (cfg_ : INI)
    (lin : option (list raw_triple)) (directory : option Path) :
  forallb valid_lineage_entry (default [] lin) = true ->
  Languoid_init TREE cfg_ lin directory
  = Ok {| cfg := cfg_;
          lineage := map stored_entry (default [] lin);
          dir := match directory with
                 | Some d => d
                 | None =>
                     joinpath TREE
                       (map (fun t : triple => snd (fst t))
                          (map stored_entry (default [] lin)))
                 end |}.
Proof.
  intros H. unfold Languoid_init.
  pose proof (lineage_checks (default [] lin)) as C.
  destruct (mapM lineage_item_check (default [] lin)) as [e|bs];
    [congruence|].
  cbn [bind]. rewrite C, H. cbn [negb]. now rewrite (lineage_stored _ H).
Qed.

(** *** C8 *)

(** C8 (fail-fast validation).  [Languoid.__init__] raises exactly when
    some entry of the supplied lineage has an id that the identifier
    pattern does not accept or a level that is not a value of the enum;
    with a fully valid lineage it returns the object. *)
Theorem Languoid_init_raises_iff_invalid_lineage :
  forall (TREE : Path) (cfg_ : INI) (lin : option (list raw_triple))
         (directory : option Path),
    raises (Languoid_init TREE cfg_ lin directory)
    = negb (forallb valid_lineage_entry (default [] lin)).
Proof.
  intros TREE cfg_ lin directory.
  destruct (forallb valid_lineage_entry (default [] lin)) eqn:H.
  - now rewrite (Languoid_init_valid _ _ _ _ H).
  - unfold Languoid_init.
    pose proof (lineage_checks (default [] lin)) as C.
    destruct (mapM lineage_item_check (default [] lin)) as [e|bs];
      [reflexivity|].
    cbn [bind]. now rewrite C, H.
Qed.

(** The derived location: the tree root followed by the ids of the
    lineage, and nothing more. *)
Lemma Languoid_init_derived_dir (TREE : Path) (cfg_ : INI)
    (lin : option (list raw_triple)) (l : Languoid) :
  Languoid_init TREE cfg_ lin None = Ok l ->
  path_parts (dir l)
  = path_parts TREE ++ map (fun t : triple => snd (fst t)) (lineage l).
Proof.
  unfold Languoid_init.
  destruct (mapM lineage_item_check (default [] lin)) as [e|bs];
    [discriminate|].
  cbn [bind]. destruct (negb (all bs)); [discriminate|].
  destruct (mapM lineage_item_store (default [] lin)) as [e|st];
    [discriminate|].
  cbn [bind]. intros [= <-]. cbn [dir lineage].
  unfold path_parts, joinpath. now rewrite rev_app_distr, rev_involutive.
Qed.

(** *** C1 *)

(** C1 (derived location).  The location derived by [__init__] names the
    tree root and the ids of the lineage, and nothing after them.  For the
    record "Bar [wxyz5678]" below "Proto-Foo [abcd1234]", constructed
    without a directory, it is the parent's directory: the node's own id
    is not its last component. *)
Theorem Languoid_init_derived_dir_lacks_own_id :
  forall TREE : Path,
    (forall (cfg_ : INI) (lin : option (list raw_triple)) (l : Languoid),
        Languoid_init TREE cfg_ lin None = Ok l ->
        path_parts (dir l)
        = path_parts TREE ++ map (fun t : triple => snd (fst t)) (lineage l))
    /\ exists l : Languoid,
         Languoid_init TREE (ini_core "Bar" "wxyz5678")
           (Some [(Some "Proto-Foo", Some "abcd1234", PLevel language)]) None
         = Ok l
         /\ Languoid_id l = Some "wxyz5678"
         /\ map (fun t : triple => snd (fst t)) (lineage l) = ["abcd1234"]
         /\ path_parts (dir l) = path_parts TREE ++ ["abcd1234"]
         /\ path_parts (dir l) <> path_parts TREE ++ ["abcd1234"; "wxyz5678"].
Proof.
  intros TREE. split; [exact (Languoid_init_derived_dir TREE)|].
  exists {| cfg := ini_core "Bar" "wxyz5678";
            lineage := [(Some "Proto-Foo", "abcd1234", language)];
            dir := joinpath TREE ["abcd1234"] |}.
  split; [now rewrite Languoid_init_valid by (vm_compute; reflexivity)|].
  split; [vm_compute; reflexivity|]. split; [reflexivity|].
  cbn [dir]. unfold path_parts, joinpath. cbn [rev app].
  split; [reflexivity|].
  intros H. apply app_inv_head in H. discriminate.
Qed.

Lemma Languoid_init_derived_dir_lacks_own_id_witness :
  path_parts (dir three_segment_dialect)
  = path_parts sample_TREE ++ ["abcd1234"; "efgh5678"; "ijkl9012"].
Proof.
  apply (proj1 (Languoid_init_derived_dir_lacks_own_id sample_TREE)
           (ini_set (ini_core "Baz" "wxyz5678") "core" "level" "dialect")
           (Some [(Some "A", Some "abcd1234", PLevel language);
                  (Some "B", Some "efgh5678", PLevel dialect);
                  (Some "C", Some "ijkl9012", PLevel dialect)])
           three_segment_dialect).
  vm_compute. reflexivity.
Defined.

(** ** Group labels *)

Lemma takewhile_app_all {A} (p : A -> bool) (a b : list A) :
  forallb p a = true -> takewhile p (a ++ b) = a ++ takewhile p b.
Proof.
  induction a as [|x a IH]; [reflexivity|].
  cbn. intros H. apply andb_prop in H as [Hx Ha].
  now rewrite Hx, (IH Ha).
Qed.

Lemma forallb_rev_true {A} (p : A -> bool) (l : list A) :
  forallb p l = true -> forallb p (rev l) = true.
Proof.
  rewrite !forallb_forall. intros H x Hx. apply H. now apply in_rev.
Qed.

(** Scanning from the leaf, what is kept is the run after the last
    family-level entry. *)
Lemma takewhile_run (pre run : list triple) :
  forallb not_family run = true ->
  (pre = [] \/ exists pre' f, pre = pre' ++ [f] /\ snd f = family) ->
  rev (takewhile not_family (rev (pre ++ run))) = run.
Proof.
  intros Hrun Hpre.
  rewrite rev_app_distr, takewhile_app_all by now apply forallb_rev_true.
  destruct Hpre as [->|(pre' & f & -> & Hf)].
  - cbn. now rewrite app_nil_r, rev_involutive.
  - assert (Nf : not_family f = false) by (unfold not_family; now rewrite Hf).
    rewrite (rev_app_distr pre' [f]). cbn [rev app takewhile]. rewrite Nf.
    now rewrite app_nil_r, rev_involutive.
Qed.

Lemma append_nonempty_r (a b : string) : b <> EmptyString -> a +:+ b <> EmptyString.
Proof. destruct a; [trivial|discriminate]. Qed.

Lemma lff_label_nonempty (x : triple) : lff_label x <> EmptyString.
Proof. unfold lff_label. now apply append_nonempty_r. Qed.

Lemma join_labels_nonempty (l : list triple) :
  l <> [] -> join ", " (map lff_label l) <> EmptyString.
Proof.
  destruct l as [|x l]; [congruence|]. intros _.
  pose proof (lff_label_nonempty x) as Hx.
  cbn [map join]. destruct (map lff_label l); [exact Hx|].
  destruct (lff_label x); [congruence|discriminate].
Qed.

Lemma lff_group_unfold (l : Languoid) (lv : pylevel) :
  Languoid_level l = Ok lv ->
  lff_group l
  = match lineage l with
    | [] => Ok (fmt_s (Languoid_name l) +:+ " [-isolate-]")
    | _ =>
        Ok (match join ", " (map lff_label (lff_group_entries lv l)) with
            | EmptyString => "ERROR [-unclassified-]"
            | String _ _ => join ", " (map lff_label (lff_group_entries lv l))
            end)
    end.
Proof. intros H. unfold lff_group. rewrite H. reflexivity. Qed.

(** *** C5 *)

(** C5 (group label of a dialect).  For a dialect-level Languoid whose
    non-empty lineage is [pre ++ run], where [run] holds no family-level
    entry and [pre] is empty or ends in a family-level entry, the label is
    the comma-space join of 'Name [id]' over [run], in root-first order,
    when [run] is not empty, and the fallback 'ERROR [-unclassified-]'
    when it is empty. *)
Theorem lff_group_dialect_run :
  forall (l : Languoid) (pre run : list triple),
    Languoid_level l = Ok (PLevel dialect) ->
    lineage l <> [] ->
    lineage l = pre ++ run ->
    forallb not_family run = true ->
    (pre = [] \/ exists pre' f, pre = pre' ++ [f] /\ snd f = family) ->
    lff_group l
    = Ok (match run with
          | [] => "ERROR [-unclassified-]"
          | _ => join ", " (map lff_label run)
          end).
Proof.
  intros l pre run Hlv Hne Hsplit Hrun Hpre.
  rewrite (lff_group_unfold _ _ Hlv).
  assert (E : lff_group_entries (PLevel dialect) l = run).
  { unfold lff_group_entries. rewrite Hsplit. now apply takewhile_run. }
  rewrite E.
  destruct (lineage l) as [|x rest]; [congruence|].
  destruct run as [|y run']; [reflexivity|].
  pose proof (join_labels_nonempty (y :: run')) as J.
  destruct (join ", " (map lff_label (y :: run'))); [now elim J|reflexivity].
Qed.

Lemma lff_group_dialect_run_witness :
  lff_group nested_dialect = Ok "B [efgh5678], C [ijkl9012]".
Proof.
  apply (lff_group_dialect_run nested_dialect
           [(Some "A", "abcd1234", family)]
           [(Some "B", "efgh5678", language); (Some "C", "ijkl9012", dialect)]).
  - vm_compute; reflexivity.
  - discriminate.
  - reflexivity.
  - reflexivity.
  - right. exists [], (Some "A", "abcd1234", family). split; reflexivity.
Defined.

(** A dialect directly below a family: the run after the last
    family-level entry is empty, its join is the empty text, and the label
    is the fallback instead. *)
Lemma lff_group_dialect_run_counterexample :
  Languoid_level family_parent_dialect = Ok (PLevel dialect)
  /\ lineage family_parent_dialect = [(Some "A", "abcd1234", family)] ++ []
  /\ lff_group family_parent_dialect = Ok "ERROR [-unclassified-]"
  /\ lff_group family_parent_dialect
     <> Ok (join ", " (map lff_label ([] : list triple))).
Proof.
  split; [vm_compute; reflexivity|]. split; [reflexivity|].
  split; [vm_compute; reflexivity|].
  vm_compute. discriminate.
Qed.

(** *** C6 *)

Lemma Level_call_error (v : pylevel) (e : exn) :
  Level_call v = Raise e -> e = ValueError.
Proof.
  destruct v as [|s|l]; cbn [Level_call].
  - now intros [= <-].
  - destruct (String.eqb s "family"); [discriminate|].
    destruct (String.eqb s "language"); [discriminate|].
    destruct (String.eqb s "dialect"); [discriminate|]. now intros [= <-].
  - discriminate.
Qed.

Lemma level_readable_true (l : Languoid) :
  level_readable l = true -> exists lv : pylevel, Languoid_level l = Ok lv.
Proof.
  unfold level_readable, Languoid_level.
  destruct (Languoid_get l "level") as [[|c t]|]; try (now eexists).
  intros H. destruct (valid_level_value_Ok _ H) as (lv & ->). now eexists.
Qed.

Lemma level_readable_false (l : Languoid) :
  level_readable l = false -> Languoid_level l = Raise ValueError.
Proof.
  unfold level_readable, Languoid_level.
  destruct (Languoid_get l "level") as [[|c t]|]; try discriminate.
  intros H. pose proof (Level_call_valid (PStr (String c t))) as R.
  rewrite H in R.
  destruct (Level_call (PStr (String c t))) as [e|lv] eqn:E; [|discriminate R].
  now rewrite (Level_call_error _ _ E).
Qed.

(** C6 (isolate marker and fallback).  [lff_group] reads the level before
    it looks at the lineage.  When the level field is absent, empty or the
    text of a member of the enum, a Languoid with empty lineage has the
    label '<Name> [-isolate-]', and a Languoid with non-empty lineage
    whose label join is the empty text, as for a dialect whose lineage
    entries are all family-level, has the label 'ERROR [-unclassified-]'.
    When the level field holds any other text, [lff_group] raises
    ValueError, with an empty lineage too. *)
Theorem lff_group_isolate_and_unclassified :
  forall l : Languoid,
    (level_readable l = false -> lff_group l = Raise ValueError)
    /\ (level_readable l = true ->
        exists lv : pylevel,
          Languoid_level l = Ok lv
          /\ (lineage l = [] ->
              lff_group l = Ok (fmt_s (Languoid_name l) +:+ " [-isolate-]"))
          /\ (lineage l <> [] ->
              join ", " (map lff_label (lff_group_entries lv l)) = EmptyString ->
              lff_group l = Ok "ERROR [-unclassified-]")
          /\ (lineage l <> [] ->
              lv = PLevel dialect ->
              forallb (fun x : triple => Level_eqb (snd x) family) (lineage l)
              = true ->
              lff_group l = Ok "ERROR [-unclassified-]")).
Proof.
  intros l. split.
  - intros H. unfold lff_group. now rewrite (level_readable_false l H).
  - intros H. destruct (level_readable_true l H) as (lv & Hlv).
    exists lv. split; [exact Hlv|]. rewrite (lff_group_unfold _ _ Hlv).
    split; [|split].
    + now intros ->.
    + intros Hne ->. now destruct (lineage l).
    + intros Hne -> Hall. unfold lff_group_entries.
      destruct (lineage l) as [|x rest] eqn:E; [congruence|].
      assert (T : takewhile not_family (rev (x :: rest)) = []).
      { pose proof (forallb_rev_true _ _ Hall) as R.
        destruct (rev (x :: rest)) as [|y ys] eqn:Er.
        - reflexivity.
        - cbn [forallb takewhile] in R |- *. apply andb_prop in R as [Ry _].
          unfold not_family. now rewrite Ry. }
      now rewrite T.
Qed.

Lemma lff_group_isolate_and_unclassified_witness :
  lff_group isolate_language = Ok "Basque [-isolate-]"
  /\ lff_group family_parent_dialect = Ok "ERROR [-unclassified-]"
  /\ lff_group unreadable_isolate = Raise ValueError.
Proof.
  split; [|split].
  - destruct (proj2 (lff_group_isolate_and_unclassified isolate_language)
                eq_refl) as (lv & _ & H & _).
    exact (H eq_refl).
  - destruct (proj2 (lff_group_isolate_and_unclassified family_parent_dialect)
                eq_refl) as (lv & Hlv & _ & _ & H).
    apply H; [discriminate| |reflexivity].
    assert (E : Languoid_level family_parent_dialect = Ok (PLevel dialect))
      by (vm_compute; reflexivity).
    rewrite E in Hlv. now injection Hlv as <-.
  - exact (proj1 (lff_group_isolate_and_unclassified unreadable_isolate)
             eq_refl).
Defined.

(** A node with empty lineage and the level text 'isolate': [__init__]
    builds it, and [lff_group] raises instead of returning the isolate
    label. *)
Lemma lff_group_isolate_and_unclassified_counterexample :
  Languoid_init sample_TREE (descriptor "Basque" "basq1248" "isolate") None
    (Some ["basq1248"; "tree"; "languoids"]) = Ok unreadable_isolate
  /\ lineage unreadable_isolate = []
  /\ lff_group unreadable_isolate = Raise ValueError
  /\ lff_group unreadable_isolate
     <> Ok (fmt_s (Languoid_name unreadable_isolate) +:+ " [-isolate-]").
Proof.
  split; [vm_compute; reflexivity|]. split; [reflexivity|].
  assert (E : lff_group unreadable_isolate = Raise ValueError)
    by (vm_compute; reflexivity).
  split; [exact E|]. rewrite E. discriminate.
Qed.

(** ** The flat-file parser *)

Lemma bind_Ok {A B} (m : result A) (k : A -> result B) (b : B) :
  bind m k = Ok b -> exists a, m = Ok a /\ k a = Ok b.
Proof. destruct m as [e|a]; [discriminate|]. intros H. now exists a. Qed.

Lemma lff_lineage_levels (level : Level) (comps : list string) :
  forall (i : nat) (raw : list raw_triple),
    lff_lineage level i comps = Ok raw ->
    map snd raw = map (fun j => PLevel (lff_level_at level j)) (seq i (length comps)).
Proof.
  induction comps as [|comp rest IH]; intros i raw H.
  - injection H as <-. reflexivity.
  - cbn [lff_lineage] in H.
    apply bind_Ok in H as ([name id_] & _ & H).
    apply bind_Ok in H as (more & Hmore & H).
    injection H as <-. cbn [map length seq snd].
    now rewrite (IH _ _ Hmore).
Qed.

Lemma lff_lineage_length (level : Level) (comps : list string) :
  forall (i : nat) (raw : list raw_triple),
    lff_lineage level i comps = Ok raw -> length raw = length comps.
Proof.
  intros i raw H. apply lff_lineage_levels in H.
  apply (f_equal (@length _)) in H.
  now rewrite !length_map, length_seq in H.
Qed.

Lemma lff_level_at_levels (level : Level) (n : nat) :
  map (lff_level_at level) (seq 0 n) = lff_levels level n.
Proof.
  assert (R : forall (x : Level) k i,
             (forall j, i <= j -> lff_level_at level j = x) ->
             map (lff_level_at level) (seq i k) = repeat x k).
  { intros x k. induction k as [|k IH]; intros i Hx; [reflexivity|].
    cbn. rewrite (Hx i) by lia. f_equal. apply IH. intros j Hj. apply Hx. lia. }
  destruct level; cbn.
  - now apply R.
  - now apply R.
  - destruct n as [|k]; [reflexivity|]. cbn. f_equal.
    apply R. intros j Hj. unfold lff_level_at. cbn.
    destruct j; [lia|reflexivity].
Qed.

Lemma mapM_store_levels (raw : list raw_triple) :
  forall (st : list triple) (lv : list Level),
    mapM lineage_item_store raw = Ok st ->
    map snd raw = map PLevel lv ->
    map snd st = lv.
Proof.
  induction raw as [|[[name id] level] raw IH]; intros st lv H E.
  - injection H as <-. now destruct lv.
  - destruct lv as [|x lv]; [discriminate|].
    cbn [map snd] in E. injection E as -> E.
    cbn [mapM] in H.
    apply bind_Ok in H as (t & Ht & H).
    apply bind_Ok in H as (ts & Hts & H).
    injection H as <-. cbn [map]. rewrite (IH _ _ Hts E). f_equal.
    cbn in Ht. destruct id; [|discriminate]. now injection Ht as <-.
Qed.

Lemma Languoid_init_lineage (TREE : Path) (cfg_ : INI) (raw : list raw_triple)
    (directory : option Path) (l : Languoid) :
  Languoid_init TREE cfg_ (Some raw) directory = Ok l ->
  mapM lineage_item_store raw = Ok (lineage l) /\ cfg l = cfg_.
Proof.
  unfold Languoid_init. change (default [] (Some raw)) with raw.
  destruct (mapM lineage_item_check raw) as [e|bs]; [discriminate|].
  cbn [bind]. destruct (negb (all bs)); [discriminate|].
  destruct (mapM lineage_item_store raw) as [e|st]; [discriminate|].
  cbn [bind]. now intros [= <-].
Qed.

(** The lineage of a parsed record has the levels that the loop assigns
    to the segments of the prefix. *)
Lemma from_lff_levels (TREE : Path) (path : option string)
    (name_and_codes : string) (level : Level) (l : Languoid) :
  from_lff TREE path name_and_codes level = Ok l ->
  map snd (lineage l) = lff_levels level (length (lff_segments path)).
Proof.
  intros H. unfold from_lff in H.
  apply bind_Ok in H as ([lname codes] & _ & H).
  apply bind_Ok in H as ([glottocode isocode] & _ & H).
  apply bind_Ok in H as (raw & Hraw & H).
  apply bind_Ok in H as (res & Hres & H).
  apply bind_Ok in H as (res' & Hres' & H).
  assert (Hseg : lff_lineage level 0 (lff_segments path) = Ok raw)
    by (destruct path as [[|c p]|]; exact Hraw).
  apply Languoid_init_lineage in Hres as [Hst _].
  cbn in Hres'. injection Hres' as <-.
  assert (L : lineage l = lineage res)
    by (destruct isocode; injection H as <-; reflexivity).
  rewrite L, <- lff_level_at_levels.
  apply (mapM_store_levels raw); [exact Hst|].
  rewrite (lff_lineage_levels _ _ _ _ Hseg). now rewrite map_map.
Qed.

(** The level of a Languoid that a factory method has returned can be
    read. *)
Lemma from_lff_level_readable (TREE : Path) (path : option string)
    (name_and_codes : string) (level : Level) (l : Languoid) :
  from_lff TREE path name_and_codes level = Ok l ->
  Languoid_level l = Ok (PLevel level).
Proof.
  intros H. unfold from_lff in H.
  apply bind_Ok in H as ([lname codes] & _ & H).
  apply bind_Ok in H as ([glottocode isocode] & _ & H).
  apply bind_Ok in H as (raw & _ & H).
  apply bind_Ok in H as (res & _ & H).
  apply bind_Ok in H as (res' & Hres' & H).
  cbn in Hres'. injection Hres' as <-.
  assert (G : Languoid_get l "level" = Some (Level_value level)).
  { destruct isocode; injection H as <-;
      unfold Languoid_get, Languoid_set_iso, Languoid_set, ini_get, ini_set;
      cbn [cfg].
    - apply lookup_insert_eq.
    - rewrite lookup_insert_ne by discriminate. apply lookup_insert_eq. }
  unfold Languoid_level. rewrite G. now destruct level.
Qed.

(** *** C2 *)

(** C2 (levels of a parsed lineage).  For a record parsed by [from_lff]
    with a lineage prefix of n segments, the lineage has n entries: if the
    record's level is dialect, the first segment gets level language and
    every later segment level dialect; otherwise every segment gets level
    family.  With prefix "Proto-Foo [abcd1234]", field
    "Bar [wxyz5678][xyz]" and level dialect the lineage is
    [("Proto-Foo", "abcd1234", language)] and iso is "xyz". *)
Theorem from_lff_lineage_levels :
  forall (TREE : Path),
    (forall (path : option string) (name_and_codes : string) (level : Level)
            (l : Languoid),
        from_lff TREE path name_and_codes level = Ok l ->
        length (lineage l) = length (lff_segments path)
        /\ map snd (lineage l) = lff_levels level (length (lff_segments path)))
    /\ from_lff TREE (Some "Proto-Foo [abcd1234]") "Bar [wxyz5678][xyz]" dialect
       = Ok (flat_line_example TREE)
    /\ lineage (flat_line_example TREE) = [(Some "Proto-Foo", "abcd1234", language)]
    /\ Languoid_iso (flat_line_example TREE) = Some "xyz".
Proof.
  intros TREE. split; [|split; [|split]].
  - intros path name_and_codes level l H.
    pose proof (from_lff_levels _ _ _ _ _ H) as E.
    split; [|exact E].
    apply (f_equal (@length _)) in E. rewrite length_map in E. rewrite E.
    destruct level; cbn; try apply repeat_length.
    destruct (length (lff_segments path)); [reflexivity|].
    cbn. now rewrite repeat_length.
  - vm_compute. reflexivity.
  - reflexivity.
  - vm_compute. reflexivity.
Qed.

Lemma from_lff_lineage_levels_witness :
  from_lff sample_TREE (Some "A [abcd1234], B [efgh5678], C [ijkl9012]")
    "Baz [wxyz5678][]" dialect = Ok three_segment_dialect
  /\ length (lineage three_segment_dialect) = 3
  /\ map snd (lineage three_segment_dialect) = [language; dialect; dialect].
Proof.
  assert (E : from_lff sample_TREE
                (Some "A [abcd1234], B [efgh5678], C [ijkl9012]")
                "Baz [wxyz5678][]" dialect = Ok three_segment_dialect)
    by (vm_compute; reflexivity).
  split; [exact E|].
  apply (proj1 (from_lff_lineage_levels sample_TREE)
           (Some "A [abcd1234], B [efgh5678], C [ijkl9012]") "Baz [wxyz5678][]"
           dialect three_segment_dialect E).
Defined.

(** A dialect record below two segments: the second segment gets level
    dialect, not family. *)
Lemma from_lff_lineage_levels_counterexample :
  exists l : Languoid,
    from_lff sample_TREE (Some "A [abcd1234], B [efgh5678]")
      "Baz [wxyz5678][]" dialect = Ok l
    /\ map snd (lineage l) = [language; dialect]
    /\ map snd (lineage l) <> lff_levels_spec dialect 2.
Proof.
  eexists. split; [vm_compute; reflexivity|].
  split; [reflexivity|]. vm_compute. discriminate.
Qed.

(** ** Loading a directory *)

Lemma find_first {A} (f : A -> bool) (pre : list A) (x : A) (rest : list A) :
  forallb (fun y => negb (f y)) pre = true ->
  f x = true ->
  List.find f (pre ++ x :: rest) = Some x.
Proof.
  induction pre as [|y pre IH]; cbn; intros Hpre Hx.
  - now rewrite Hx.
  - apply andb_prop in Hpre as [Hy Hpre].
    destruct (f y); [discriminate|]. now apply IH.
Qed.

Lemma find_none {A} (f : A -> bool) (l : list A) :
  forallb (fun y => negb (f y)) l = true -> List.find f l = None.
Proof.
  induction l as [|y l IH]; cbn; [reflexivity|]. intros H.
  apply andb_prop in H as [Hy Hl].
  destruct (f y); [discriminate|]. now apply IH.
Qed.

(** *** C3 *)

(** C3 (descriptor lookup in a directory).  [from_dir] returns an absent
    value, and leaves the caches alone, when the directory lists no file;
    otherwise it takes the first file in listing order, whatever follows
    it: it raises AssertionError when the suffix of that file is not
    '.ini' and loads that file with [from_ini] when it is. *)
Theorem from_dir_first_file :
  forall (TREE : Path) (fs : fsnode) (directory : Path) (nodes : nodes_ref)
         (st : store) (entries : list Path),
    iterdir fs directory = Ok entries ->
    (forallb (not_a_file fs) entries = true ->
     from_dir TREE fs directory nodes st = Ok (None, st))
    /\ (forall (pre : list Path) (p : Path) (rest : list Path),
           entries = pre ++ p :: rest ->
           forallb (not_a_file fs) pre = true ->
           is_file fs p = true ->
           from_dir TREE fs directory nodes st
           = if String.eqb (path_suffix p) ".ini"
             then (let* (l, st') := from_ini TREE fs p nodes st in Ok (Some l, st'))
             else Raise AssertionError).
Proof.
  intros TREE fs directory nodes st entries Hit.
  unfold from_dir, from_dir_body. rewrite Hit. cbn [bind Ok].
  split.
  - intros Hnone. now rewrite (find_none (is_file fs) entries Hnone).
  - intros pre p rest -> Hpre Hp.
    now rewrite (find_first (is_file fs) pre p rest Hpre Hp).
Qed.

Lemma from_dir_first_file_witness :
  from_dir sample_TREE odd_tree ["aaaa1111"; "root"] DefaultNodes store0
  = Ok (None, store0)
  /\ from_dir sample_TREE odd_tree ["cccc3333"; "root"] DefaultNodes store0
     = (let* (l, st') :=
          from_ini sample_TREE odd_tree ["cccc3333.ini"; "cccc3333"; "root"]
            DefaultNodes store0 in
        Ok (Some l, st')).
Proof.
  split.
  - apply (proj1 (from_dir_first_file sample_TREE odd_tree ["aaaa1111"; "root"]
                    DefaultNodes store0 [["bbbb2222"; "aaaa1111"; "root"]]
                    ltac:(reflexivity))).
    reflexivity.
  - apply (proj2 (from_dir_first_file sample_TREE odd_tree ["cccc3333"; "root"]
                    DefaultNodes store0
                    [["cccc3333.ini"; "cccc3333"; "root"];
                     ["copy.ini"; "cccc3333"; "root"]]
                    ltac:(reflexivity))
             [] ["cccc3333.ini"; "cccc3333"; "root"]
             [["copy.ini"; "cccc3333"; "root"]]);
      reflexivity.
Defined.

(** A directory without a file gives an absent value instead of an error,
    and a directory with two descriptor files gives the Languoid of the
    one listed first. *)
Lemma from_dir_first_file_counterexample :
  iterdir odd_tree ["aaaa1111"; "root"] = Ok [["bbbb2222"; "aaaa1111"; "root"]]
  /\ is_file odd_tree ["bbbb2222"; "aaaa1111"; "root"] = false
  /\ from_dir sample_TREE odd_tree ["aaaa1111"; "root"] DefaultNodes store0
     = Ok (None, store0)
  /\ raises (from_dir sample_TREE odd_tree ["aaaa1111"; "root"] DefaultNodes store0)
     = false
  /\ List.filter (is_file odd_tree)
       [["cccc3333.ini"; "cccc3333"; "root"]; ["copy.ini"; "cccc3333"; "root"]]
     = [["cccc3333.ini"; "cccc3333"; "root"]; ["copy.ini"; "cccc3333"; "root"]]
  /\ iterdir odd_tree ["cccc3333"; "root"]
     = Ok [["cccc3333.ini"; "cccc3333"; "root"]; ["copy.ini"; "cccc3333"; "root"]]
  /\ raises (from_dir sample_TREE odd_tree ["cccc3333"; "root"] DefaultNodes store0)
     = false
  /\ (exists (l : Languoid) (st : store),
         from_dir sample_TREE odd_tree ["cccc3333"; "root"] DefaultNodes store0
         = Ok (Some l, st)
         /\ Languoid_name l = Some "First").
Proof.
  repeat split; try (vm_compute; reflexivity).
  destruct (from_dir sample_TREE odd_tree ["cccc3333"; "root"] DefaultNodes store0)
    as [e|[[l|] st]] eqn:E; try (vm_compute in E; discriminate).
  exists l, st. split; [reflexivity|].
  vm_compute in E. injection E as <- _. vm_compute. reflexivity.
Qed.

(** ** Ancestors, parent and family *)

Lemma ancestors_walk_stops (TREE : Path) (fs : fsnode) (parents : list Path)
    (res : list (option Languoid)) (st : store) :
  Forall (fun p => id_pattern_match (path_name p) = false) parents ->
  ancestors_walk TREE fs parents res st = Ok (res, st).
Proof.
  destruct parents as [|p rest]; [reflexivity|].
  intros H. inversion H as [|? ? Hp _]; subst. cbn. now rewrite Hp.
Qed.

(** *** C10 *)

(** C10 (parent and family).  For a Languoid whose directory has no parent
    component that the identifier pattern accepts, [ancestors] is the
    empty list and [parent] and [family] are [None], without an error;
    whenever [ancestors] is a non-empty list, [parent] is its last element
    and [family] its first. *)
Theorem parent_family_of_ancestors :
  forall (TREE : Path) (fs : fsnode) (l : Languoid) (st : store),
    (Forall (fun p => id_pattern_match (path_name p) = false)
       (path_parents (dir l)) ->
     ancestors TREE fs l st = Ok ([], st)
     /\ parent TREE fs l st = Ok (None, st)
     /\ Languoid_family TREE fs l st = Ok (None, st))
    /\ (forall (anc : list (option Languoid)) (st' : store),
           ancestors TREE fs l st = Ok (anc, st') ->
           anc <> [] ->
           parent TREE fs l st = Ok (List.last anc None, st')
           /\ Languoid_family TREE fs l st = Ok (List.hd None anc, st')).
Proof.
  intros TREE fs l st. split.
  - intros H.
    assert (A : ancestors TREE fs l st = Ok ([], st)).
    { unfold ancestors. now rewrite (ancestors_walk_stops _ _ _ _ _ H). }
    unfold parent, Languoid_family. rewrite A. now repeat split.
  - intros anc st' A Hne.
    unfold parent, Languoid_family. rewrite A. cbn [bind].
    destruct anc as [|a anc]; [congruence|]. now split.
Qed.

Lemma parent_family_of_ancestors_witness :
  (ancestors sample_TREE valid_tree isolate_language store0 = Ok ([], store0)
   /\ parent sample_TREE valid_tree isolate_language store0 = Ok (None, store0)
   /\ Languoid_family sample_TREE valid_tree isolate_language store0
      = Ok (None, store0))
  /\ (exists (anc : list (option Languoid)) (st' : store),
         ancestors sample_TREE valid_tree valid_tree_xyz store0 = Ok (anc, st')
         /\ anc = [Some valid_tree_fam; Some valid_tree_lang]
         /\ parent sample_TREE valid_tree valid_tree_xyz store0
            = Ok (List.last anc None, st')
         /\ Languoid_family sample_TREE valid_tree valid_tree_xyz store0
            = Ok (List.hd None anc, st')).
Proof.
  split.
  - apply (proj1 (parent_family_of_ancestors sample_TREE valid_tree
                    isolate_language store0)).
    repeat constructor.
  - destruct (ancestors sample_TREE valid_tree valid_tree_xyz store0)
      as [e|[anc st']] eqn:E; [vm_compute in E; discriminate E|].
    exists anc, st'. split; [reflexivity|].
    assert (A : anc = [Some valid_tree_fam; Some valid_tree_lang]).
    { vm_compute in E. injection E as <- _. vm_compute. reflexivity. }
    split; [exact A|].
    apply (proj2 (parent_family_of_ancestors sample_TREE valid_tree
                    valid_tree_xyz store0) anc st' E).
    rewrite A. discriminate.
Defined.

(** ** The [nodes] dictionary *)

Lemma nodes_of_set_same (r : nodes_ref) (k : option string) (v : raw_triple)
    (st : store) :
  nodes_of r (nodes_set r k v st) = <[k := v]> (nodes_of r st).
Proof. destruct r; reflexivity. Qed.

Lemma nodes_of_set_other (r : nodes_ref) (k : option string) (v : raw_triple)
    (st : store) :
  nodes_of (other r) (nodes_set r k v st) = nodes_of (other r) st.
Proof. destruct r; reflexivity. Qed.

Lemma from_ini_in_eq (TREE : Path) (fs : fsnode) (directory ini : Path)
    (nodes : nodes_ref) (st : store) :
  from_ini_in TREE fs directory ini nodes st
  = (let* (lineage_, st) :=
       match directory with
       | [] => Ok ([], st)
       | dname :: up =>
           lineage_walk fs (from_ini_in TREE fs) dname nodes up [] st
       end in
     let* res := Languoid_init TREE (ini_read fs ini) (Some (rev lineage_))
                   (Some directory) in
     let* t := Languoid_triple res in
     Ok (res, nodes_set nodes (Languoid_id res) t st)).
Proof. destruct directory; reflexivity. Qed.

Lemma lineage_walk_eq (fs : fsnode)
    (from_ini_at : Path -> Path -> nodes_ref -> store -> result (Languoid * store))
    (dname : string) (nodes : nodes_ref) (parent : Path)
    (lineage_ : list raw_triple) (st : store) :
  lineage_walk fs from_ini_at dname nodes parent lineage_ st
  = if String.eqb (path_name parent) dname then Raise AssertionError
    else if negb (id_pattern_match (path_name parent)) then Ok (lineage_, st)
    else
      let* st := resolve_parent fs from_ini_at nodes parent st in
      match nodes_of nodes st !! Some (path_name parent) with
      | None => Raise AssertionError
      | Some t =>
          match parent with
          | [] => Ok (lineage_ ++ [t], st)
          | _ :: up =>
              lineage_walk fs from_ini_at dname nodes up (lineage_ ++ [t]) st
          end
      end.
Proof. destruct parent; reflexivity. Qed.

Ltac frame_auto :=
  unfold same_outcome, keeps_other, Ok, Raise in *; cbn [bind] in *;
  repeat split; auto.

Lemma framed_from_dir_body (fs : fsnode) (r : nodes_ref)
    (from_ini_ : Path -> nodes_ref -> store -> result (Languoid * store))
    (directory : Path) :
  (forall p, framed r (from_ini_ p r)) ->
  framed r (from_dir_body fs from_ini_ directory r).
Proof.
  intros Hf st st' Hag. unfold from_dir_body.
  destruct (iterdir fs directory) as [e|entries]; [frame_auto|].
  cbn [bind].
  destruct (List.find (is_file fs) entries) as [p|]; [|frame_auto].
  destruct (String.eqb (path_suffix p) ".ini"); [|frame_auto].
  destruct (Hf p st st' Hag) as [Hs Hk].
  destruct (from_ini_ p r st) as [e|[l s]], (from_ini_ p r st') as [e'|[l' s']];
    frame_auto; try contradiction; try tauto; now f_equal.
Qed.

(** Resolving a parent, for two runs that agree on [r]. *)
Lemma framed_resolve_parent (fs : fsnode) (r : nodes_ref)
    (from_ini_at : Path -> Path -> nodes_ref -> store -> result (Languoid * store))
    (parent : Path) (st st' : store) :
  (forall ini, framed r (from_ini_at parent ini r)) ->
  nodes_of r st = nodes_of r st' ->
  match resolve_parent fs from_ini_at r parent st,
        resolve_parent fs from_ini_at r parent st' with
  | inl e, inl e' => e = e'
  | inr s, inr s' =>
      nodes_of r s = nodes_of r s'
      /\ nodes_of (other r) s = nodes_of (other r) st
  | _, _ => False
  end.
Proof.
  intros Hrec Hag. unfold resolve_parent. rewrite <- Hag.
  destruct (nodes_of r st !! Some (path_name parent)); [now split|].
  destruct (framed_from_dir_body fs r (from_ini_at parent) parent Hrec st st' Hag)
    as [Hs Hk].
  destruct (from_dir_body fs (from_ini_at parent) parent r st) as [e|[l s]],
    (from_dir_body fs (from_ini_at parent) parent r st') as [e'|[l' s']];
    try (frame_auto; contradiction).
  cbn in Hs. destruct Hs as [<- Hs]. cbn in Hk. cbn [bind].
  destruct l as [l|]; [|reflexivity].
  destruct (Languoid_triple l) as [e|t]; [reflexivity|].
  cbn [bind Ok].
  rewrite !nodes_of_set_same, nodes_of_set_other, Hs. auto.
Qed.

Lemma framed_lineage_walk (fs : fsnode) (r : nodes_ref)
    (from_ini_at : Path -> Path -> nodes_ref -> store -> result (Languoid * store))
    (dname : string) (parent : Path) :
  (forall p' ini, length p' <= length parent -> framed r (from_ini_at p' ini r)) ->
  forall lineage_, framed r (lineage_walk fs from_ini_at dname r parent lineage_).
Proof.
  induction parent as [|n up IH]; intros Hrec lineage_ st st' Hag;
    rewrite !lineage_walk_eq;
    (destruct (String.eqb _ dname); [frame_auto|]);
    (destruct (negb (id_pattern_match _)); [frame_auto|]).
  - pose proof (framed_resolve_parent fs r from_ini_at [] st st'
                  (fun ini => Hrec [] ini (le_n _)) Hag) as F.
    destruct (resolve_parent fs from_ini_at r [] st) as [e|s],
      (resolve_parent fs from_ini_at r [] st') as [e'|s'];
      try contradiction; [frame_auto|].
    destruct F as [F1 F2]. cbn [bind]. rewrite <- F1.
    destruct (nodes_of r s !! Some (path_name [])); frame_auto.
  - pose proof (framed_resolve_parent fs r from_ini_at (n :: up) st st'
                  (fun ini => Hrec (n :: up) ini (le_n _)) Hag) as F.
    destruct (resolve_parent fs from_ini_at r (n :: up) st) as [e|s],
      (resolve_parent fs from_ini_at r (n :: up) st') as [e'|s'];
      try contradiction; [frame_auto|].
    destruct F as [F1 F2]. cbn [bind]. rewrite <- F1.
    destruct (nodes_of r s !! Some (path_name (n :: up))) as [t|]; [|frame_auto].
    destruct (IH (fun p' ini Hp' => Hrec p' ini (le_S _ _ Hp'))
                (lineage_ ++ [t]) s s' F1) as [Hs Hk].
    split; [exact Hs|].
    destruct (lineage_walk fs from_ini_at dname r up (lineage_ ++ [t]) s)
      as [e|[x s1]]; [exact I|].
    cbn in Hk |- *. now rewrite Hk.
Qed.

(** [from_ini] reads and writes only the dictionary it is handed. *)
Lemma framed_from_ini_in (TREE : Path) (fs : fsnode) (r : nodes_ref) :
  forall (n : nat) (directory : Path),
    length directory <= n ->
    forall ini, framed r (from_ini_in TREE fs directory ini r).
Proof.
  induction n as [|n IH]; intros directory Hlen ini st st' Hag;
    rewrite !from_ini_in_eq.
  - destruct directory; [|cbn in Hlen; lia].
    cbn [bind Ok].
    destruct (Languoid_init TREE (ini_read fs ini) (Some (rev [])) (Some []))
      as [e|res]; [frame_auto|].
    cbn [bind]. destruct (Languoid_triple res) as [e|t]; [frame_auto|].
    cbn [bind Ok same_outcome keeps_other].
    rewrite !nodes_of_set_same, nodes_of_set_other, Hag. auto.
  - destruct directory as [|dname up].
    + cbn [bind Ok].
      destruct (Languoid_init TREE (ini_read fs ini) (Some (rev [])) (Some []))
        as [e|res]; [frame_auto|].
      cbn [bind]. destruct (Languoid_triple res) as [e|t]; [frame_auto|].
      cbn [bind Ok same_outcome keeps_other].
      rewrite !nodes_of_set_same, nodes_of_set_other, Hag. auto.
    + assert (Hrec : forall p' ini', length p' <= length up ->
                       framed r (from_ini_in TREE fs p' ini' r)).
      { intros p' ini' Hp'. apply IH. cbn in Hlen. lia. }
      destruct (framed_lineage_walk fs r (from_ini_in TREE fs) dname up Hrec
                  [] st st' Hag) as [Hs Hk].
      destruct (lineage_walk fs (from_ini_in TREE fs) dname r up [] st)
        as [e|[lin s]],
        (lineage_walk fs (from_ini_in TREE fs) dname r up [] st')
        as [e'|[lin' s']];
        try (frame_auto; contradiction).
      cbn in Hs, Hk. destruct Hs as [<- Hs]. cbn [bind].
      destruct (Languoid_init TREE (ini_read fs ini) (Some (rev lin))
                  (Some (dname :: up))) as [e|res]; [frame_auto|].
      cbn [bind]. destruct (Languoid_triple res) as [e|t]; [frame_auto|].
      cbn [bind Ok same_outcome keeps_other].
      rewrite !nodes_of_set_same, nodes_of_set_other, Hs. auto.
Qed.

Lemma framed_from_ini (TREE : Path) (fs : fsnode) (r : nodes_ref) (ini : Path) :
  framed r (from_ini TREE fs ini r).
Proof. apply (framed_from_ini_in TREE fs r (length (path_parent ini))). lia. Qed.

(** After a call that returns, the dictionary it was handed maps the id
    of the new node to its (name, id, level). *)
Lemma from_ini_in_registers (TREE : Path) (fs : fsnode) (directory ini : Path)
    (r : nodes_ref) (st st' : store) (l : Languoid) :
  from_ini_in TREE fs directory ini r st = Ok (l, st') ->
  exists t, Languoid_triple l = Ok t
            /\ nodes_of r st' !! Languoid_id l = Some t.
Proof.
  rewrite from_ini_in_eq. intros H.
  apply bind_Ok in H as ([lin s] & _ & H).
  apply bind_Ok in H as (res & _ & H).
  apply bind_Ok in H as (t & Ht & H).
  injection H as <- <-. exists t. split; [exact Ht|].
  rewrite nodes_of_set_same. apply lookup_insert_eq.
Qed.

Lemma from_ini_level_readable (TREE : Path) (fs : fsnode) (ini : Path)
    (r : nodes_ref) (st st' : store) (l : Languoid) :
  from_ini TREE fs ini r st = Ok (l, st') ->
  exists lv, Languoid_level l = Ok lv.
Proof.
  intros H. apply from_ini_in_registers in H as (t & Ht & _).
  unfold Languoid_triple in Ht. apply bind_Ok in Ht as (lv & Hlv & _).
  now exists lv.
Qed.

(** *** C4 *)

(** C4 (the ancestor cache).  The cache of [from_ini] is a parameter whose
    default is one dictionary shared by all calls that omit it: such a call
    writes its node into that shared dictionary and leaves a caller's
    dictionary alone.  A call that is handed the caller's dictionary ends
    the same way whatever the shared default holds, and leaves the shared
    default as it was. *)
Theorem from_ini_cache_sharing :
  forall (TREE : Path) (fs : fsnode) (ini : Path) (st : store),
    (forall (l : Languoid) (st' : store),
        from_ini TREE fs ini DefaultNodes st = Ok (l, st') ->
        (exists t, Languoid_triple l = Ok t
                   /\ default_nodes st' !! Languoid_id l = Some t)
        /\ caller_nodes st' = caller_nodes st)
    /\ (forall st2 : store,
           caller_nodes st = caller_nodes st2 ->
           same_outcome CallerNodes
             (from_ini TREE fs ini CallerNodes st)
             (from_ini TREE fs ini CallerNodes st2))
    /\ keeps_other CallerNodes st (from_ini TREE fs ini CallerNodes st).
Proof.
  intros TREE fs ini st. split; [|split].
  - intros l st' H. split.
    + exact (from_ini_in_registers _ _ _ _ _ _ _ _ H).
    + pose proof (proj2 (framed_from_ini TREE fs DefaultNodes ini st st eq_refl))
        as K.
      rewrite H in K. exact K.
  - intros st2 Hag. exact (proj1 (framed_from_ini TREE fs CallerNodes ini st st2 Hag)).
  - exact (proj2 (framed_from_ini TREE fs CallerNodes ini st st eq_refl)).
Qed.

Lemma from_ini_cache_sharing_witness :
  (exists (l : Languoid) (st' : store),
      from_ini sample_TREE two_trees working_descriptor DefaultNodes store0
      = Ok (l, st')
      /\ (exists t, Languoid_triple l = Ok t
                    /\ default_nodes st' !! Languoid_id l = Some t)
      /\ caller_nodes st' = caller_nodes store0)
  /\ same_outcome CallerNodes
       (from_ini sample_TREE two_trees rebuilt_descriptor CallerNodes store0)
       (from_ini sample_TREE two_trees rebuilt_descriptor CallerNodes
          store_after_working).
Proof.
  split.
  - destruct (from_ini sample_TREE two_trees working_descriptor DefaultNodes
                store0) as [e|[l st']] eqn:E; [vm_compute in E; discriminate E|].
    exists l, st'. split; [reflexivity|].
    exact (proj1 (from_ini_cache_sharing sample_TREE two_trees
                    working_descriptor store0) l st' E).
  - apply (proj1 (proj2 (from_ini_cache_sharing sample_TREE two_trees
                           rebuilt_descriptor store0))).
    vm_compute. reflexivity.
Defined.

(** Two calls that omit the cache: after [from_ini] has read a descriptor
    of the working tree, [from_ini] on the rebuilt tree returns a lineage
    with the family name of the working tree, while the same call in a
    fresh interpreter returns the name found on disk. *)
Lemma from_ini_cache_sharing_counterexample :
  exists (first : Languoid) (after : store) (fresh primed : Languoid),
    from_ini sample_TREE two_trees working_descriptor DefaultNodes store0
    = Ok (first, after)
    /\ value_of (from_ini sample_TREE two_trees rebuilt_descriptor DefaultNodes
                   store0) = Ok fresh
    /\ value_of (from_ini sample_TREE two_trees rebuilt_descriptor DefaultNodes
                   after) = Ok primed
    /\ lineage fresh = [(Some "New Name", "abcd1234", family)]
    /\ lineage primed = [(Some "Old Name", "abcd1234", family)]
    /\ fresh <> primed.
Proof.
  destruct (from_ini sample_TREE two_trees working_descriptor DefaultNodes store0)
    as [e|[first after]] eqn:E1; [vm_compute in E1; discriminate E1|].
  destruct (from_ini sample_TREE two_trees rebuilt_descriptor DefaultNodes store0)
    as [e|[fresh s2]] eqn:E2; [vm_compute in E2; discriminate E2|].
  destruct (from_ini sample_TREE two_trees rebuilt_descriptor DefaultNodes after)
    as [e|[primed s3]] eqn:E3.
  { vm_compute in E1. injection E1 as _ <-.
    vm_compute in E3. discriminate E3. }
  exists first, after, fresh, primed.
  assert (Lf : lineage fresh = [(Some "New Name", "abcd1234", family)]).
  { vm_compute in E2. injection E2 as <- _. reflexivity. }
  assert (Lp : lineage primed = [(Some "Old Name", "abcd1234", family)]).
  { vm_compute in E1. injection E1 as _ <-.
    vm_compute in E3. injection E3 as <- _. reflexivity. }
  split; [reflexivity|]. split; [reflexivity|].
  split; [now rewrite E3|].
  split; [exact Lf|]. split; [exact Lp|].
  intros ->. rewrite Lf in Lp. discriminate Lp.
Qed.

(** ** The lineage that [from_ini] builds in a well-formed tree *)

Lemma id_pattern_match_empty : id_pattern_match EmptyString = false.
Proof. reflexivity. Qed.

Lemma walked_parents_cons (n : string) (up : Path) :
  walked_parents (n :: up) = visited up.
Proof.
  unfold walked_parents.
  change (path_parents (n :: up)) with (up :: path_parents up).
  induction up as [|m up' IH]; cbn [takewhile visited path_name].
  - now rewrite id_pattern_match_empty.
  - destruct (id_pattern_match m); [|reflexivity].
    change (path_parents (m :: up')) with (up' :: path_parents up').
    now rewrite IH.
Qed.

Lemma visited_matches (parent q : Path) :
  In q (visited parent) -> id_pattern_match (path_name q) = true.
Proof.
  induction parent as [|n up IH]; cbn; [tauto|].
  destruct (id_pattern_match n) eqn:E; cbn; [|tauto].
  intros [<-|H]; [exact E|now apply IH].
Qed.

Lemma visited_length (parent q : Path) :
  In q (visited parent) -> length q <= length parent.
Proof.
  induction parent as [|n up IH]; cbn; [tauto|].
  destruct (id_pattern_match n); cbn; [|tauto].
  intros [<-|H]; [reflexivity|]. apply IH in H. lia.
Qed.

Lemma asserted_from_cases (parent q : Path) :
  In q (asserted_from parent) ->
  In q (visited parent) \/ id_pattern_match (path_name q) = false.
Proof.
  induction parent as [|n up IH]; cbn.
  - intros [<-|[]]. now right.
  - destruct (id_pattern_match n) eqn:E; cbn.
    + intros [<-|H]; [now left; left|].
      destruct (IH H); [left; now right|now right].
    + intros [<-|[]]. now right.
Qed.

Lemma asserted_from_head (parent : Path) : In parent (asserted_from parent).
Proof. destruct parent as [|n up]; cbn; [now left|]. destruct (id_pattern_match n); now left. Qed.

Lemma distinct_NoDup (names : list string) :
  distinct names = true -> NoDup names.
Proof.
  induction names as [|x rest IH]; cbn; intros H; constructor.
  - apply andb_prop in H as [H _]. intros Hin.
    apply list_elem_of_In in Hin.
    assert (E : existsb (String.eqb x) rest = true).
    { apply existsb_exists. exists x. split; [exact Hin|apply String.eqb_refl]. }
    now rewrite E in H.
  - apply andb_prop in H as [_ H]. now apply IH.
Qed.

Lemma NoDup_names_inj (chain : list Path) (p q : Path) :
  NoDup (map path_name chain) ->
  In p chain -> In q chain -> path_name p = path_name q -> p = q.
Proof.
  induction chain as [|x chain IH]; cbn; [tauto|].
  intros Hnd. apply NoDup_cons in Hnd as [Hx Hnd].
  intros [<-|Hp] [<-|Hq] E; auto.
  - exfalso. apply Hx. rewrite E. apply list_elem_of_In.
    now apply in_map.
  - exfalso. apply Hx. rewrite <- E. apply list_elem_of_In.
    now apply in_map.
Qed.

Lemma Languoid_triple_cfg (l : Languoid) : Languoid_triple l = cfg_triple (cfg l).
Proof. reflexivity. Qed.

Lemma cfg_triple_Ok (c : INI) (t : raw_triple) :
  cfg_triple c = Ok t ->
  fst (fst t) = ini_get c "core" "name"
  /\ snd (fst t) = ini_get c "core" "glottocode".
Proof.
  unfold cfg_triple, Languoid_triple. intros H.
  apply bind_Ok in H as (lv & _ & H). injection H as <-. now split.
Qed.

Lemma languoid_dir_ok_shape (fs : fsnode) (p : Path) :
  languoid_dir_ok fs p = true ->
  exists (entries : list Path) (f : Path) (nm : option string) (lv : Level),
    iterdir fs p = Ok entries
    /\ List.find (is_file fs) entries = Some f
    /\ path_suffix f = ".ini"
    /\ cfg_triple (ini_read fs f) = Ok (nm, Some (path_name p), PLevel lv)
    /\ dir_raw_triple fs p = (nm, Some (path_name p), PLevel lv).
Proof.
  unfold languoid_dir_ok, dir_raw_triple, dir_descriptor.
  destruct (iterdir fs p) as [e|entries] eqn:Hit; [discriminate|].
  destruct (List.find (is_file fs) entries) as [f|] eqn:Hfind; [|discriminate].
  intros H. apply andb_prop in H as [H Hlv]. apply andb_prop in H as [Hsuf Hid].
  apply String.eqb_eq in Hsuf.
  destruct (ini_get (ini_read fs f) "core" "glottocode") as [g|] eqn:Eg;
    [|discriminate].
  apply String.eqb_eq in Hid. subst g.
  destruct (cfg_triple (ini_read fs f)) as [e|[[nm id] lvv]] eqn:Et;
    [discriminate|].
  destruct lvv as [| |lv]; try discriminate.
  destruct (cfg_triple_Ok _ _ Et) as [_ Hid]. cbn [fst snd] in Hid.
  rewrite Eg in Hid. subst id.
  exists entries, f, nm, lv. now repeat split.
Qed.

Section WellFormedChain.

Variable TREE : Path.
Variable fs : fsnode.
Variable r : nodes_ref.

(** The directories that follow the tree layout, with distinct names. *)
Variable chain : list Path.
Hypothesis chain_ok : forall p, In p chain -> languoid_dir_ok fs p = true.
Hypothesis chain_names : NoDup (map path_name chain).

Lemma coherent_insert (c : gmap (option string) raw_triple) (p : Path) :
  In p chain ->
  coherent fs chain c ->
  coherent fs chain (<[Some (path_name p) := dir_raw_triple fs p]> c).
Proof.
  intros Hp Hc q t Hq. rewrite lookup_insert.
  destruct (decide (Some (path_name p) = Some (path_name q))) as [E|E].
  - intros [= <-]. injection E as E.
    now rewrite (NoDup_names_inj chain p q chain_names Hp Hq E).
  - now apply Hc.
Qed.

Lemma resolve_parent_chain (parent : Path) (st : store) :
  (forall ini, good_call TREE fs r chain parent ini) ->
  In parent chain ->
  incl (walked_parents parent) chain ->
  (forall q, In q (asserted_parents parent) -> path_name q <> path_name parent) ->
  coherent fs chain (nodes_of r st) ->
  exists st' : store,
    resolve_parent fs (from_ini_in TREE fs) r parent st = Ok st'
    /\ nodes_of r st' !! Some (path_name parent) = Some (dir_raw_triple fs parent)
    /\ coherent fs chain (nodes_of r st').
Proof.
  intros Hrec Hin Hincl Hassert Hcoh. unfold resolve_parent.
  destruct (nodes_of r st !! Some (path_name parent)) as [t0|] eqn:Hlook.
  - exists st. split; [reflexivity|]. split; [|exact Hcoh].
    now rewrite (Hcoh parent t0 Hin Hlook) in Hlook.
  - destruct (languoid_dir_ok_shape fs parent (chain_ok parent Hin))
      as (entries & f & nm & lv & Hit & Hfind & Hsuf & Ht & Hraw).
    destruct (Hrec f st _ Hincl Hassert Ht Hcoh) as (st' & c & Hcall & Hst' & Hc).
    unfold from_dir_body. rewrite Hit. cbn [bind Ok]. rewrite Hfind, Hsuf.
    cbn [String.eqb Ascii.eqb Bool.eqb]. rewrite Hcall. cbn [bind Ok].
    rewrite Languoid_triple_cfg. cbn [cfg]. rewrite Ht. cbn [bind Ok].
    eexists. split; [reflexivity|].
    rewrite nodes_of_set_same, Hraw. split; [apply lookup_insert_eq|].
    rewrite <- Hraw. apply coherent_insert; [exact Hin|].
    rewrite Hst'.
    destruct (cfg_triple_Ok _ _ Ht) as [_ Hid]. cbn [fst snd] in Hid.
    rewrite <- Hid, <- Hraw. now apply coherent_insert.
Qed.

Lemma lineage_walk_chain (dname : string) (parent : Path) :
  (forall p' ini, length p' <= length parent ->
                  good_call TREE fs r chain p' ini) ->
  forall (acc : list raw_triple) (st : store),
    incl (visited parent) chain ->
    (forall q, In q (asserted_from parent) -> path_name q <> dname) ->
    coherent fs chain (nodes_of r st) ->
    exists st' : store,
      lineage_walk fs (from_ini_in TREE fs) dname r parent acc st
      = Ok (acc ++ map (dir_raw_triple fs) (visited parent), st')
      /\ coherent fs chain (nodes_of r st').
Proof.
  induction parent as [|n up IH]; intros Hrec acc st Hincl Hassert Hcoh;
    rewrite lineage_walk_eq.
  - cbn [path_name]. rewrite id_pattern_match_empty. cbn [negb visited map].
    destruct (String.eqb_spec EmptyString dname) as [E|_].
    + exfalso. apply (Hassert []); [now left|exact E].
    + exists st. now rewrite app_nil_r.
  - cbn [path_name].
    destruct (String.eqb_spec n dname) as [E|_].
    { exfalso. apply (Hassert (n :: up)); [apply asserted_from_head|exact E]. }
    cbn [visited asserted_from] in *.
    destruct (id_pattern_match n) eqn:Em; cbn [negb map].
    2:{ exists st. now rewrite app_nil_r. }
    assert (Hin : In (n :: up) chain) by (apply Hincl; now left).
    assert (Hup : incl (visited up) chain)
      by (intros q Hq; apply Hincl; now right).
    destruct (resolve_parent_chain (n :: up) st) as (st1 & Hres & Hlook & Hcoh1).
    + intros ini. now apply Hrec.
    + exact Hin.
    + now rewrite walked_parents_cons.
    + cbn [asserted_parents path_name]. intros q Hq E.
      destruct (asserted_from_cases up q Hq) as [Hv|Hf].
      * assert (q = n :: up).
        { apply (NoDup_names_inj chain); auto. }
        apply visited_length in Hv. subst q. cbn in Hv. lia.
      * rewrite E in Hf. cbn in Hf. congruence.
    + exact Hcoh.
    + rewrite Hres. cbn [bind Ok]. cbn [path_name] in Hlook. rewrite Hlook.
      destruct (IH (fun p' ini Hp' => Hrec p' ini (le_S _ _ Hp'))
                  (acc ++ [dir_raw_triple fs (n :: up)]) st1 Hup
                  (fun q Hq => Hassert q (or_intror Hq)) Hcoh1)
        as (st' & Hwalk & Hcoh').
      exists st'. rewrite Hwalk. split; [|exact Hcoh'].
      now rewrite <- app_assoc.
Qed.

Lemma chain_entries_valid (l : list Path) :
  (forall p, In p l -> In p chain /\ id_pattern_match (path_name p) = true) ->
  forallb valid_lineage_entry (map (dir_raw_triple fs) l) = true.
Proof.
  induction l as [|p l IH]; intros H; [reflexivity|].
  cbn [map forallb]. rewrite IH by (intros q Hq; apply H; now right).
  destruct (H p (or_introl eq_refl)) as [Hin Hm].
  destruct (languoid_dir_ok_shape fs p (chain_ok p Hin))
    as (_ & _ & nm & lv & _ & _ & _ & _ & Hraw).
  rewrite Hraw. unfold valid_lineage_entry. cbn. now rewrite Hm.
Qed.

Lemma from_ini_in_chain :
  forall (n : nat) (directory ini : Path),
    length directory <= n -> good_call TREE fs r chain directory ini.
Proof.
  induction n as [|n IH]; intros directory ini Hlen st t_own Hincl Hassert Hown Hcoh;
    rewrite from_ini_in_eq.
  - destruct directory; [|cbn in Hlen; lia].
    cbn [bind Ok rev]. rewrite Languoid_init_valid by reflexivity.
    cbn [bind Ok default map]. rewrite Languoid_triple_cfg. cbn [cfg].
    rewrite Hown. cbn [bind Ok].
    eexists _, (nodes_of r st). split; [reflexivity|].
    split; [|exact Hcoh]. now rewrite nodes_of_set_same.
  - destruct directory as [|dname up].
    + cbn [bind Ok rev]. rewrite Languoid_init_valid by reflexivity.
      cbn [bind Ok default map]. rewrite Languoid_triple_cfg. cbn [cfg].
      rewrite Hown. cbn [bind Ok].
      eexists _, (nodes_of r st). split; [reflexivity|].
      split; [|exact Hcoh]. now rewrite nodes_of_set_same.
    + rewrite walked_parents_cons in Hincl |- *.
      destruct (lineage_walk_chain dname up
                  (fun p' ini' Hp' => IH p' ini' ltac:(cbn in Hlen; lia))
                  [] st Hincl Hassert Hcoh) as (st1 & Hwalk & Hcoh1).
      rewrite Hwalk. cbn [bind Ok app].
      rewrite <- map_rev.
      rewrite Languoid_init_valid.
      2:{ cbn [default]. apply chain_entries_valid. intros p Hp.
          apply in_rev in Hp. split; [now apply Hincl|].
          now apply (visited_matches up). }
      cbn [bind Ok default]. rewrite Languoid_triple_cfg. cbn [cfg].
      rewrite Hown. cbn [bind Ok].
      eexists _, (nodes_of r st1). split.
      * unfold id. rewrite map_map. reflexivity.
      * split; [|exact Hcoh1]. now rewrite nodes_of_set_same.
Qed.

End WellFormedChain.

(** ** What every returning call of [from_ini] has done *)

Lemma mapM_length {A B} (f : A -> result B) (l : list A) (bs : list B) :
  mapM f l = Ok bs -> length bs = length l.
Proof.
  revert bs. induction l as [|a l IH]; intros bs H.
  - now injection H as <-.
  - cbn [mapM] in H. apply bind_Ok in H as (b & _ & H).
    apply bind_Ok in H as (bs' & Hbs' & H). injection H as <-.
    cbn. now rewrite (IH _ Hbs').
Qed.

Lemma lineage_walk_length (fs : fsnode)
    (from_ini_at : Path -> Path -> nodes_ref -> store -> result (Languoid * store))
    (dname : string) (r : nodes_ref) (parent : Path) :
  forall (acc : list raw_triple) (st : store) (lin : list raw_triple)
         (st' : store),
    lineage_walk fs from_ini_at dname r parent acc st = Ok (lin, st') ->
    length lin = length acc + length (visited parent).
Proof.
  induction parent as [|n up IH]; intros acc st lin st';
    rewrite lineage_walk_eq; cbn [path_name visited].
  - rewrite id_pattern_match_empty. cbn [negb].
    destruct (String.eqb EmptyString dname); [discriminate|].
    intros [= <- _]. cbn. lia.
  - destruct (String.eqb n dname); [discriminate|].
    destruct (id_pattern_match n); cbn [negb].
    + intros H. apply bind_Ok in H as (st1 & _ & H).
      destruct (nodes_of r st1 !! Some n) as [t|]; [|discriminate].
      apply IH in H. rewrite length_app in H. cbn in H |- *. lia.
    + intros [= <- _]. cbn. lia.
Qed.

(** A call that returns has built the node from the descriptor read, in
    the descriptor's directory, with one lineage entry for every parent
    the walk has visited, and has left the node's (name, id, level) in the
    dictionary it was handed. *)
Lemma from_ini_returns (TREE : Path) (fs : fsnode) (ini : Path)
    (r : nodes_ref) (st st' : store) (l : Languoid) :
  from_ini TREE fs ini r st = Ok (l, st') ->
  cfg l = ini_read fs ini
  /\ dir l = path_parent ini
  /\ length (lineage l) = length (walked_parents (path_parent ini))
  /\ exists t, Languoid_triple l = Ok t
               /\ nodes_of r st' !! Languoid_id l = Some t.
Proof.
  intros H. pose proof (from_ini_in_registers _ _ _ _ _ _ _ _ H) as Hreg.
  unfold from_ini in H. rewrite from_ini_in_eq in H.
  apply bind_Ok in H as ([lin s] & Hwalk & H).
  apply bind_Ok in H as (res & Hres & H).
  apply bind_Ok in H as (t & _ & H). injection H as <- _.
  assert (Hdir : dir res = path_parent ini).
  { unfold Languoid_init in Hres.
    apply bind_Ok in Hres as (checks & _ & Hres).
    destruct (negb (all checks)); [discriminate|].
    apply bind_Ok in Hres as (stored & _ & Hres). now injection Hres as <-. }
  apply Languoid_init_lineage in Hres as [Hst Hcfg].
  apply mapM_length in Hst. rewrite length_rev in Hst.
  repeat split; [exact Hcfg|exact Hdir| |exact Hreg].
  rewrite Hst. destruct (path_parent ini) as [|dname up].
  - now injection Hwalk as <- _.
  - rewrite walked_parents_cons.
    apply lineage_walk_length in Hwalk. exact Hwalk.
Qed.

(** *** C9 *)

(** C9 (lineage order and cache registration).  Every call of [from_ini]
    that returns has built one lineage entry for each parent of the
    child-to-root walk, which stops at the first component the identifier
    pattern does not accept, and has registered the node's own
    (name, id, level) in the cache.  In a tree whose walked
    ancestor directories follow the layout (first file a descriptor whose
    glottocode is the directory name and whose level is valid, names
    distinct), with a cache that agrees with the tree, [from_ini] returns
    the node with its lineage in root-first order, the reverse of the
    child-to-root walk that stops at the first component the identifier
    pattern does not accept, and leaves the node's own (name, id, level)
    in the cache under its id.  For root/abcd1234/lang5678/xyz19999 the
    ancestors of the node found by code are the abcd1234 node and the
    lang5678 node, in that order; for root/abc1fam1/lang5678/xyz19999 the
    pattern does not accept abc1fam1, and the ancestors are the lang5678
    node alone. *)
Theorem from_ini_lineage_root_first :
  (forall (TREE : Path) (fs : fsnode) (ini : Path) (r : nodes_ref)
          (st st' : store) (l : Languoid),
      from_ini TREE fs ini r st = Ok (l, st') ->
      length (lineage l) = length (walked_parents (path_parent ini))
      /\ exists t, Languoid_triple l = Ok t
                   /\ nodes_of r st' !! Languoid_id l = Some t)
  /\ (forall (TREE : Path) (fs : fsnode) (ini : Path) (r : nodes_ref)
          (st : store) (t_own : raw_triple),
      forallb (languoid_dir_ok fs) (walked_parents (path_parent ini)) = true ->
      distinct (map path_name (walked_parents (path_parent ini))) = true ->
      assertion_holds (path_parent ini) = true ->
      cfg_triple (ini_read fs ini) = Ok t_own ->
      coherent fs (walked_parents (path_parent ini)) (nodes_of r st) ->
      exists (l : Languoid) (st' : store),
        from_ini TREE fs ini r st = Ok (l, st')
        /\ cfg l = ini_read fs ini
        /\ dir l = path_parent ini
        /\ lineage l
           = map (dir_entry fs) (rev (walked_parents (path_parent ini)))
        /\ Languoid_triple l = Ok t_own
        /\ nodes_of r st' !! Languoid_id l = Some t_own)
  /\ found sample_TREE valid_tree ["root"] "xyz19999" = Ok (Some valid_tree_xyz)
  /\ found_ancestors sample_TREE valid_tree ["root"] "xyz19999"
     = Ok [Some valid_tree_fam; Some valid_tree_lang]
  /\ id_pattern_match "abc1fam1" = false
  /\ found sample_TREE spec_tree ["root"] "xyz19999" = Ok (Some spec_tree_xyz)
  /\ found_ancestors sample_TREE spec_tree ["root"] "xyz19999"
     = Ok [Some spec_tree_lang].
Proof.
  split; [|split; [|repeat split; vm_compute; reflexivity]].
  { intros TREE fs ini r st st' l H.
    destruct (from_ini_returns _ _ _ _ _ _ _ H) as (_ & _ & Hlen & Hreg).
    now split. }
  intros TREE fs ini r st t_own Hok Hnames Hassert Hown Hcoh.
  set (chain := walked_parents (path_parent ini)) in *.
  destruct (from_ini_in_chain TREE fs r chain
              (fun p Hp => proj1 (forallb_forall _ _) Hok p Hp)
              (distinct_NoDup _ Hnames)
              (length (path_parent ini)) (path_parent ini) ini (le_n _)
              st t_own (incl_refl _)) as (st' & c & Hcall & Hst' & _).
  - intros q Hq. unfold assertion_holds in Hassert.
    rewrite forallb_forall in Hassert. specialize (Hassert q Hq).
    destruct (String.eqb_spec (path_name q) (path_name (path_parent ini)));
      [discriminate|assumption].
  - exact Hown.
  - exact Hcoh.
  - eexists _, st'. split; [exact Hcall|]. cbn [cfg dir lineage].
    repeat split.
    + rewrite Languoid_triple_cfg. exact Hown.
    + rewrite Hst'.
      replace (Languoid_id _) with (ini_get (ini_read fs ini) "core" "glottocode")
        by reflexivity.
      apply lookup_insert_eq.
Qed.

Lemma from_ini_lineage_root_first_witness :
  exists (l : Languoid) (st' : store),
    from_ini sample_TREE valid_tree valid_tree_xyz_descriptor DefaultNodes store0
    = Ok (l, st')
    /\ lineage l = [(Some "Fam", "abcd1234", family);
                    (Some "Lang", "lang5678", language)]
    /\ default_nodes st' !! Some "xyz19999"
       = Some (Some "Xyz", Some "xyz19999", PLevel dialect).
Proof.
  destruct (proj1 (proj2 from_ini_lineage_root_first) sample_TREE valid_tree
              valid_tree_xyz_descriptor DefaultNodes store0
              (Some "Xyz", Some "xyz19999", PLevel dialect))
    as (l & st' & Hcall & Hcfg & _ & Hlin & _ & Hreg).
  - vm_compute. reflexivity.
  - vm_compute. reflexivity.
  - vm_compute. reflexivity.
  - vm_compute. reflexivity.
  - intros p t _ H. unfold store0 in H. cbn [nodes_of default_nodes] in H.
    rewrite lookup_empty in H. discriminate H.
  - exists l, st'. split; [exact Hcall|]. split.
    + rewrite Hlin. vm_compute. reflexivity.
    + assert (Eid : Languoid_id l = Some "xyz19999").
      { unfold Languoid_id, Languoid_get. rewrite Hcfg. vm_compute. reflexivity. }
      rewrite Eid in Hreg. exact Hreg.
Defined.

(** In the tree of the specification's example the ancestors of xyz19999
    are not a list of two nodes: [abc1fam1] is not an identifier (its last
    four characters are not all digits), so the walk stops below it. *)
Lemma from_ini_lineage_root_first_counterexample :
  id_pattern_match "root" = false
  /\ value_of (from_dir sample_TREE spec_tree ["abc1fam1"; "root"] DefaultNodes
                 store0) = Ok (Some spec_tree_fam)
  /\ found_ancestors sample_TREE spec_tree ["root"] "xyz19999"
     = Ok [Some spec_tree_lang]
  /\ value_of (from_dir sample_TREE spec_tree ["lang5678"; "abc1fam1"; "root"]
                 DefaultNodes store0) = Ok (Some spec_tree_lang)
  /\ found_ancestors sample_TREE spec_tree ["root"] "xyz19999"
     <> Ok [Some spec_tree_fam; Some spec_tree_lang].
Proof.
  assert (E : found_ancestors sample_TREE spec_tree ["root"] "xyz19999"
              = Ok [Some spec_tree_lang]) by (vm_compute; reflexivity).
  split; [reflexivity|]. split; [vm_compute; reflexivity|].
  split; [exact E|]. split; [vm_compute; reflexivity|].
  rewrite E. discriminate.
Qed.

(* ===================================================================== *)
(** * Part III, continued: further properties                             *)
(* ===================================================================== *)

(** ** Invariants of construction *)

Lemma stored_entries_ids_valid (lin : list raw_triple) :
  forallb valid_lineage_entry lin = true ->
  forallb (fun t => id_pattern_match (entry_id t)) (map stored_entry lin) = true.
Proof.
  induction lin as [|[[name id] level] lin IH]; [reflexivity|].
  cbn [forallb map]. intros H. apply andb_prop in H as [Hv Hl].
  rewrite (IH Hl), andb_true_r.
  unfold valid_lineage_entry in Hv. cbn [fst snd] in Hv.
  apply andb_prop in Hv as [Hid _].
  destruct id as [s|]; [exact Hid|discriminate].
Qed.

Lemma Languoid_init_Ok_valid (TREE : Path) (cfg_ : INI)
    (lin : option (list raw_triple)) (directory : option Path) (l : Languoid) :
  Languoid_init TREE cfg_ lin directory = Ok l ->
  forallb valid_lineage_entry (default [] lin) = true.
Proof.
  unfold Languoid_init. intros H.
  pose proof (lineage_checks (default [] lin)) as C.
  destruct (mapM lineage_item_check (default [] lin)) as [e|bs];
    [discriminate|].
  cbn [bind] in H. rewrite <- C.
  destruct (all bs); [reflexivity|discriminate].
Qed.

(** What [__init__] returns, when it returns. *)
Lemma Languoid_init_Ok (TREE : Path) (cfg_ : INI)
    (lin : option (list raw_triple)) (directory : option Path) (l : Languoid) :
  Languoid_init TREE cfg_ lin directory = Ok l ->
  l = {| cfg := cfg_;
         lineage := map stored_entry (default [] lin);
         dir := match directory with
                | Some d => d
                | None =>
                    joinpath TREE
                      (map (fun t : triple => snd (fst t))
                         (map stored_entry (default [] lin)))
                end |}.
Proof.
  intros H. pose proof (Languoid_init_Ok_valid _ _ _ _ _ H) as V.
  rewrite (Languoid_init_valid _ _ _ _ V) in H. now injection H as <-.
Qed.

Lemma from_lff_lineage_eq (TREE : Path) (path : option string)
    (name_and_codes : string) (level : Level) (l : Languoid) :
  from_lff TREE path name_and_codes level = Ok l ->
  exists (cfg_ : INI) (raw : list raw_triple) (l0 : Languoid),
    lff_lineage level 0 (lff_segments path) = Ok raw
    /\ Languoid_init TREE cfg_ (Some raw) None = Ok l0
    /\ lineage l = lineage l0 /\ dir l = dir l0.
Proof.
  intros H. unfold from_lff in H.
  apply bind_Ok in H as ([lname codes] & _ & H).
  apply bind_Ok in H as ([glottocode isocode] & _ & H).
  apply bind_Ok in H as (raw & Hraw & H).
  apply bind_Ok in H as (res & Hres & H).
  apply bind_Ok in H as (res' & Hres' & H).
  cbn in Hres'. injection Hres' as <-.
  exists (ini_core (strip lname) glottocode), raw, res.
  split; [destruct path as [[|c p]|]; exact Hraw|].
  split; [exact Hres|].
  destruct isocode; injection H as <-; now split.
Qed.

(** *** X1 *)

(** X1 (lineage ids are identifiers).  Every Languoid that [__init__],
    [from_lff] or [from_ini] returns has a lineage whose ids are all
    accepted by the identifier pattern. *)
Theorem constructed_lineage_ids_valid :
  forall (TREE : Path),
    (forall (cfg_ : INI) (lin : option (list raw_triple))
            (directory : option Path) (l : Languoid),
        Languoid_init TREE cfg_ lin directory = Ok l ->
        lineage_ids_valid l = true)
    /\ (forall (path : option string) (name_and_codes : string)
               (level : Level) (l : Languoid),
           from_lff TREE path name_and_codes level = Ok l ->
           lineage_ids_valid l = true)
    /\ (forall (fs : fsnode) (ini : Path) (nodes : nodes_ref)
               (st st' : store) (l : Languoid),
           from_ini TREE fs ini nodes st = Ok (l, st') ->
           lineage_ids_valid l = true).
Proof.
  intros TREE.
  assert (I : forall cfg_ lin directory l,
             Languoid_init TREE cfg_ lin directory = Ok l ->
             lineage_ids_valid l = true).
  { intros cfg_ lin directory l H.
    pose proof (Languoid_init_Ok_valid _ _ _ _ _ H) as V.
    rewrite (Languoid_init_Ok _ _ _ _ _ H). unfold lineage_ids_valid.
    cbn [lineage]. now apply stored_entries_ids_valid. }
  split; [exact I|]. split.
  - intros path name_and_codes level l H.
    destruct (from_lff_lineage_eq _ _ _ _ _ H) as (c & raw & l0 & _ & H0 & E & _).
    unfold lineage_ids_valid. rewrite E. exact (I _ _ _ _ H0).
  - intros fs ini nodes st st' l H.
    unfold from_ini in H. rewrite from_ini_in_eq in H.
    apply bind_Ok in H as ([lin s] & _ & H).
    apply bind_Ok in H as (res & Hres & H).
    apply bind_Ok in H as (t & _ & H). injection H as <- _.
    exact (I _ _ _ _ Hres).
Qed.

Lemma constructed_lineage_ids_valid_witness :
  lineage_ids_valid three_segment_dialect = true
  /\ lineage_ids_valid valid_tree_xyz = true.
Proof.
  split.
  - apply (proj1 (proj2 (constructed_lineage_ids_valid sample_TREE))
             (Some "A [abcd1234], B [efgh5678], C [ijkl9012]")
             "Baz [wxyz5678][]" dialect).
    vm_compute. reflexivity.
  - apply (proj2 (proj2 (constructed_lineage_ids_valid sample_TREE))
             valid_tree valid_tree_xyz_descriptor DefaultNodes store0
             (match from_ini sample_TREE valid_tree valid_tree_xyz_descriptor
                      DefaultNodes store0 with
              | inr (_, s) => s
              | inl _ => store0
              end)).
    vm_compute. reflexivity.
Defined.

(** ** Group labels and record lines *)

(** *** X2 *)

(** X2 (group label of a family or language).  For a Languoid whose level
    can be read, [lff_group] returns a text that is never empty; when the
    level is not dialect and the lineage is not empty, that text is the
    comma-space join of 'Name [id]' over the whole lineage. *)
Theorem lff_group_nonempty_and_full_lineage :
  forall (l : Languoid) (lv : pylevel),
    Languoid_level l = Ok lv ->
    (exists s, lff_group l = Ok s /\ s <> EmptyString)
    /\ (lv <> PLevel dialect ->
        lineage l <> [] ->
        lff_group l = Ok (join ", " (map lff_label (lineage l)))).
Proof.
  intros l lv Hlv. rewrite (lff_group_unfold _ _ Hlv). split.
  - destruct (lineage l) as [|x rest].
    + eexists. split; [reflexivity|]. now apply append_nonempty_r.
    + destruct (join ", " (map lff_label (lff_group_entries lv l))) eqn:E;
        eexists; (split; [reflexivity|discriminate]).
  - intros Hnd Hne.
    assert (E : lff_group_entries lv l = lineage l).
    { unfold lff_group_entries. destruct lv as [| |[]]; congruence. }
    rewrite E. destruct (lineage l) as [|x rest] eqn:El; [congruence|].
    pose proof (join_labels_nonempty (x :: rest) ltac:(discriminate)) as J.
    destruct (join ", " (map lff_label (x :: rest))) eqn:Ej; [congruence|].
    reflexivity.
Qed.

Lemma lff_group_nonempty_and_full_lineage_witness :
  lff_group valid_tree_lang = Ok "Fam [abcd1234]".
Proof.
  apply (proj2 (lff_group_nonempty_and_full_lineage valid_tree_lang
                  (PLevel language) ltac:(vm_compute; reflexivity)));
    discriminate.
Defined.

(** ** Property access *)

Lemma Languoid_get_set_same (l : Languoid) (k v : string) :
  Languoid_get (Languoid_set l k v) k = Some v.
Proof. unfold Languoid_get, Languoid_set, ini_get, ini_set. cbn [cfg]. apply lookup_insert_eq. Qed.

Lemma Languoid_get_set_other (l : Languoid) (k k' v : string) :
  k <> k' -> Languoid_get (Languoid_set l k v) k' = Languoid_get l k'.
Proof.
  intros H. unfold Languoid_get, Languoid_set, ini_get, ini_set. cbn [cfg].
  apply lookup_insert_ne. congruence.
Qed.

Lemma Level_call_value (lv : Level) : Level_call (PStr (Level_value lv)) = Ok lv.
Proof. now destruct lv. Qed.

Lemma Languoid_level_set (l : Languoid) (lv : Level) :
  Languoid_level (Languoid_set l "level" (Level_value lv)) = Ok (PLevel lv).
Proof.
  unfold Languoid_level. rewrite Languoid_get_set_same. now destruct lv.
Qed.

(** ** New nodes *)

(** *** X4 *)

(** X4 (new nodes).  [from_name_id_level], called without keyword
    arguments, raises exactly when the level is not a value of the enum;
    the node it returns gives back the name, id and level it was built
    from, has no iso code, an empty lineage and the tree root as its
    location, and is written in the flat format under the isolate marker
    '<name> [-isolate-]' as '    <name> [<id>][]'. *)
Theorem from_name_id_level_new_node :
  forall (TREE : Path) (name id : string) (level : pylevel),
    raises (from_name_id_level TREE name id level)
    = negb (valid_level_value level)
    /\ (forall (lv : Level),
           Level_call level = Ok lv ->
           exists l : Languoid,
             from_name_id_level TREE name id level = Ok l
             /\ Languoid_name l = Some name
             /\ Languoid_id l = Some id
             /\ Languoid_level l = Ok (PLevel lv)
             /\ Languoid_iso l = None
             /\ lineage l = []
             /\ dir l = TREE
             /\ lff_group l = Ok (name +:+ " [-isolate-]")
             /\ lff_language l = "    " +:+ name +:+ " [" +:+ id +:+ "][]").
Proof.
  intros TREE name id level.
  assert (I : Languoid_init TREE (ini_core name id) (Some []) None
              = Ok {| cfg := ini_core name id; lineage := []; dir := TREE |})
    by reflexivity.
  split.
  - unfold from_name_id_level. rewrite I. cbn [bind Ok].
    rewrite <- Level_call_valid. now destruct (Level_call level).
  - intros lv Hlv. unfold from_name_id_level. rewrite I. cbn [bind Ok].
    rewrite Hlv. cbn [bind Ok]. unfold Languoid_set_level.
    change (Level_call (PLevel lv)) with (Ok lv). cbn [bind Ok].
    eexists. split; [reflexivity|].
    set (l := Languoid_set _ "level" (Level_value lv)).
    assert (Hn : Languoid_name l = Some name).
    { unfold Languoid_name, l. rewrite Languoid_get_set_other by discriminate.
      unfold Languoid_get, ini_get, ini_core, ini_set. cbn [cfg].
      rewrite lookup_insert_ne by discriminate. apply lookup_insert_eq. }
    assert (Hi : Languoid_id l = Some id).
    { unfold Languoid_id, l. rewrite Languoid_get_set_other by discriminate.
      unfold Languoid_get, ini_get, ini_core, ini_set. cbn [cfg].
      apply lookup_insert_eq. }
    assert (Hiso : Languoid_iso l = None).
    { unfold Languoid_iso, l. rewrite Languoid_get_set_other by discriminate.
      unfold Languoid_get, ini_get, ini_core, ini_set. cbn [cfg].
      rewrite !lookup_insert_ne by discriminate. apply lookup_empty. }
    assert (Hcs : Languoid_classification_status l = None).
    { unfold Languoid_classification_status, l.
      rewrite Languoid_get_set_other by discriminate.
      unfold Languoid_get, ini_get, ini_core, ini_set. cbn [cfg].
      rewrite !lookup_insert_ne by discriminate. apply lookup_empty. }
    assert (Hl : Languoid_level l = Ok (PLevel lv)) by apply Languoid_level_set.
    split; [exact Hn|]. split; [exact Hi|]. split; [exact Hl|].
    split; [exact Hiso|]. split; [reflexivity|]. split; [reflexivity|]. split.
    + unfold lff_group. rewrite Hl. cbn [bind Ok]. unfold l at 1.
      cbn [lineage Languoid_set]. now rewrite Hn.
    + unfold lff_language. rewrite Hcs, Hn, Hi, Hiso. reflexivity.
Qed.

Lemma from_name_id_level_new_node_witness :
  from_name_id_level sample_TREE "Basque" "basq1248" (PStr "language")
  = Ok (new_language sample_TREE)
  /\ lff_group (new_language sample_TREE) = Ok "Basque [-isolate-]"
  /\ lff_language (new_language sample_TREE) = "    Basque [basq1248][]".
Proof.
  destruct (proj2 (from_name_id_level_new_node sample_TREE "Basque"
                     "basq1248" (PStr "language")) language eq_refl)
    as (l & E & _ & _ & _ & _ & _ & _ & Hg & Hw).
  assert (E' : from_name_id_level sample_TREE "Basque" "basq1248"
                 (PStr "language") = Ok (new_language sample_TREE))
    by (vm_compute; reflexivity).
  rewrite E' in E. injection E as <-.
  split; [exact E'|]. split; [exact Hg|exact Hw].
Defined.

(** ** The alphabet of identifiers *)

Lemma string_forall_app (p : ascii -> bool) (a b : string) :
  string_forall p (a +:+ b) = string_forall p a && string_forall p b.
Proof.
  induction a as [|c a IH]; [reflexivity|].
  change (String c a +:+ b) with (String c (a +:+ b)).
  cbn [string_forall]. rewrite IH. now rewrite andb_assoc.
Qed.

Lemma string_forall_impl (p q : ascii -> bool) (s : string) :
  (forall c, p c = true -> q c = true) ->
  string_forall p s = true -> string_forall q s = true.
Proof.
  intros H. induction s as [|c s IH]; [reflexivity|].
  cbn. intros E. apply andb_prop in E as [Ec Es].
  now rewrite (H c Ec), (IH Es).
Qed.

Lemma in_class_incl (small big : list (ascii * ascii)) (c : ascii) :
  incl small big -> Re.in_class small c = true -> Re.in_class big c = true.
Proof.
  unfold Re.in_class. rewrite !existsb_exists.
  intros H (r & Hr & E). exists r. split; [now apply H|exact E].
Qed.

Lemma eat_class_chars (n : nat) (ranges : list (ascii * ascii)) :
  forall s t : string,
    eat_class n ranges s = Some t ->
    exists pre, s = pre +:+ t
                /\ String.length pre = n
                /\ string_forall (Re.in_class ranges) pre = true.
Proof.
  induction n as [|n IH]; intros s t H.
  - injection H as <-. now exists EmptyString.
  - cbn [eat_class] in H. destruct s as [|c s]; [discriminate|].
    destruct (Re.in_class ranges c) eqn:Ec; [|discriminate].
    destruct (IH _ _ H) as (pre & -> & Hlen & Hall).
    exists (String c pre). cbn. now rewrite Hlen, Ec, Hall.
Qed.

Lemma eat_prefix_app (p : string) :
  forall s t : string, eat_prefix p s = Some t -> s = p +:+ t.
Proof.
  induction p as [|c p IH]; intros s t H.
  - now injection H as <-.
  - cbn [eat_prefix] in H. destruct s as [|a s]; [discriminate|].
    destruct (Ascii.eqb_spec a c) as [->|]; [|discriminate].
    cbn. now rewrite (IH _ _ H).
Qed.

Lemma eol_ok_chars (s : string) :
  eol_ok s = true -> string_forall id_char s = true.
Proof.
  destruct s as [|c [|c' s]]; cbn; try discriminate; [reflexivity|].
  intros E. unfold id_char. rewrite E. now rewrite orb_true_r.
Qed.

Lemma plus_then_eol_chars (ranges : list (ascii * ascii)) (s : string) :
  (forall c, Re.in_class ranges c = true -> id_char c = true) ->
  plus_then_eol ranges s = true -> string_forall id_char s = true.
Proof.
  intros Hc. induction s as [|c s IH]; [reflexivity|].
  cbn [plus_then_eol string_forall]. intros H.
  apply andb_prop in H as [Hin Hrest]. rewrite (Hc c Hin). cbn [andb].
  apply orb_prop in Hrest as [Hp|He]; [now apply IH|now apply eol_ok_chars].
Qed.

Lemma alnum_hyphen_id_char (c : ascii) : alnum_hyphen c = true -> id_char c = true.
Proof. intros H. unfold id_char. now rewrite H. Qed.

Lemma accepts_chars (s : string) :
  accepts s = true -> string_forall id_char s = true.
Proof.
  unfold accepts. intros H. apply orb_prop in H as [H|H].
  - destruct (eat_class 4 [lower; digit] s) as [t|] eqn:E1; [|discriminate].
    destruct (eat_class 4 [digit] t) as [u|] eqn:E2; [|discriminate].
    destruct (eat_class_chars _ _ _ _ E1) as (p1 & -> & _ & H1).
    destruct (eat_class_chars _ _ _ _ E2) as (p2 & -> & _ & H2).
    rewrite !string_forall_app, (eol_ok_chars _ H), andb_true_r.
    apply andb_true_intro. split.
    + apply (string_forall_impl (Re.in_class [lower; digit])); [|exact H1].
      intros c Hc. apply alnum_hyphen_id_char.
      apply (in_class_incl [lower; digit]); [|exact Hc].
      intros r [<-|[<-|[]]]; cbn; tauto.
    + apply (string_forall_impl (Re.in_class [digit])); [|exact H2].
      intros c Hc. apply alnum_hyphen_id_char.
      apply (in_class_incl [digit]); [|exact Hc].
      intros r [<-|[]]; cbn; tauto.
  - destruct (eat_prefix "NOCODE" s) as [t|] eqn:E; [|discriminate].
    rewrite (eat_prefix_app _ _ _ E), string_forall_app.
    apply andb_true_intro. split; [reflexivity|].
    apply orb_prop in H as [H|H]; [|now apply eol_ok_chars].
    destruct t as [|c u]; [discriminate|].
    apply andb_prop in H as [Hc Hu]. apply Ascii.eqb_eq in Hc. subst c.
    cbn [string_forall]. apply andb_true_intro. split; [reflexivity|].
    apply (plus_then_eol_chars [upper; lower; digit; hyphen]); [|exact Hu].
    exact alnum_hyphen_id_char.
Qed.

Lemma string_forall_lacks (s : string) (c : ascii) :
  id_char c = false -> string_forall id_char s = true -> lacks c s = true.
Proof.
  intros Hc. unfold lacks. apply string_forall_impl. intros a Ha.
  destruct (Ascii.eqb_spec a c) as [->|]; [congruence|reflexivity].
Qed.

(** *** X5 *)

(** X5 (alphabet of identifiers).  A text that the identifier pattern
    accepts consists of letters, digits, hyphens and underscores and
    possibly a newline; so it contains no path separator, no bracket, no
    comma and no blank. *)
Theorem id_pattern_alphabet :
  forall s : string,
    id_pattern_match s = true ->
    string_forall id_char s = true
    /\ lacks "/" s = true
    /\ lacks "[" s = true
    /\ lacks "]" s = true
    /\ lacks "," s = true
    /\ lacks " " s = true
    /\ s <> EmptyString.
Proof.
  intros s H. rewrite id_pattern_match_accepts in H.
  pose proof (accepts_chars s H) as A.
  repeat (split; [first [exact A | now apply string_forall_lacks]|]).
  intros ->. discriminate H.
Qed.

Lemma id_pattern_alphabet_witness : lacks "/" "abcd1234" = true.
Proof.
  apply (proj1 (proj2 (id_pattern_alphabet "abcd1234" ltac:(vm_compute; reflexivity)))).
Defined.

(** ** Allocation of identifiers *)

Lemma length_append (a b : string) :
  String.length (a +:+ b) = String.length a + String.length b.
Proof.
  induction a as [|c a IH]; [reflexivity|].
  change (String c a +:+ b) with (String c (a +:+ b)).
  cbn [String.length]. now rewrite IH.
Qed.

Lemma append_inj_length (a a' b b' : string) :
  String.length a = String.length a' ->
  a +:+ b = a' +:+ b' -> a = a' /\ b = b'.
Proof.
  revert a'. induction a as [|c a IH]; intros [|c' a'] Hlen H;
    try discriminate; [now split|].
  cbn in H, Hlen. injection H as -> H. injection Hlen as Hlen.
  destruct (IH _ Hlen H) as [-> ->]. now split.
Qed.

Lemma last_char_length (alpha : string) :
  alpha <> EmptyString -> String.length (last_char alpha) = 1.
Proof.
  induction alpha as [|c [|c' t] IH]; [congruence|reflexivity|].
  intros _. apply IH. discriminate.
Qed.

Lemma pad_alpha_length (turns : nat) :
  forall alpha : string,
    alpha <> EmptyString ->
    4 <= String.length alpha + turns ->
    String.length alpha <= 4 ->
    String.length (pad_alpha turns alpha) = 4.
Proof.
  induction turns as [|k IH]; intros alpha Hne Hfuel Hle; cbn [pad_alpha].
  - lia.
  - destruct (Nat.ltb_spec (String.length alpha) 4) as [Hlt|Hge]; [|lia].
    assert (L : String.length (alpha +:+ last_char alpha)
                = S (String.length alpha))
      by (rewrite length_append, last_char_length by exact Hne; lia).
    apply IH; [|lia|lia].
    destruct alpha; [congruence|discriminate].
Qed.

Lemma substring_prefix_length (n : nat) (s : string) :
  String.length (substring 0 n s) <= n.
Proof.
  revert s. induction n as [|n IH]; intros [|c s]; cbn; try lia.
  specialize (IH s). lia.
Qed.

Lemma str_int_inj (a b : Z) : str_int a = str_int b -> a = b.
Proof.
  unfold str_int. intros H. apply DecimalZ.to_int_inj.
  assert (N : forall z, Z.to_int z <> Decimal.Pos Decimal.Nil
                        /\ Z.to_int z <> Decimal.Neg Decimal.Nil).
  { intros [|p|p]; cbn; split; try discriminate;
      intros [= E]; now apply (DecimalPos.Unsigned.to_uint_nonnil p). }
  pose proof (NilZero.isi (Z.to_int a) (proj1 (N a)) (proj2 (N a))) as Ia.
  pose proof (NilZero.isi (Z.to_int b) (proj1 (N b)) (proj2 (N b))) as Ib.
  rewrite H in Ia. congruence.
Qed.

(** The loop fills the prefix up with copies of its last character. *)
Lemma pad_alpha_padded (p : string) :
  p <> EmptyString -> String.length p <= 4 -> pad_alpha 4 p = padded p.
Proof.
  intros Hne Hlen.
  destruct p as [|a [|b [|c [|d [|e p]]]]];
    [congruence|reflexivity|reflexivity|reflexivity|reflexivity|].
  cbn [String.length] in Hlen. lia.
Qed.

Lemma padded_length (p : string) :
  p <> EmptyString -> String.length p <= 4 -> String.length (padded p) = 4.
Proof.
  intros Hne Hlen. rewrite <- pad_alpha_padded by assumption.
  apply pad_alpha_length; [exact Hne|lia|exact Hlen].
Qed.

Lemma substring_prefix_nonempty (s : string) :
  s <> EmptyString -> substring 0 4 s <> EmptyString.
Proof. destruct s; [congruence|discriminate]. Qed.

Lemma code_prefix_length (slugged : string) :
  slugged <> EmptyString -> String.length (code_prefix slugged) = 4.
Proof.
  intros H. apply padded_length; [now apply substring_prefix_nonempty|].
  apply substring_prefix_length.
Qed.

Section GlottocodeFacts.

Variable slug : string -> result string.
Variable F : Type.
Variable float_add_one : F -> F.
Variable float_str : F -> string.

(** One call, for a name with a non-empty slug. *)
Lemma glottocode_for_name_eq (name slugged : string) (dry_run : bool)
    (s : gmap string (json F)) :
  slug name = Ok slugged ->
  slugged <> EmptyString ->
  glottocode_for_name slug F float_add_one float_str name dry_run s
  = (let* (num, text) :=
       next_number F float_add_one float_str
         (default (JInt 1233) (s !! code_prefix slugged)) in
     Ok (code_prefix slugged +:+ text,
         if dry_run then s else <[code_prefix slugged := num]> s)).
Proof.
  intros Hs Hne. unfold glottocode_for_name. rewrite Hs. cbn [bind Ok].
  pose proof (substring_prefix_nonempty slugged Hne) as Hp.
  unfold code_prefix.
  rewrite <- (pad_alpha_padded (substring 0 4 slugged) Hp
                (substring_prefix_length 4 slugged)).
  destruct (substring 0 4 slugged); [congruence|reflexivity].
Qed.

(** What a call that returns has done. *)
Lemma glottocode_for_name_Ok (name : string) (dry_run : bool)
    (s s' : gmap string (json F)) (code : string) :
  glottocode_for_name slug F float_add_one float_str name dry_run s
  = Ok (code, s') ->
  exists (slugged : string) (num : json F) (text : string),
    slug name = Ok slugged
    /\ slugged <> EmptyString
    /\ next_number F float_add_one float_str
         (default (JInt 1233) (s !! code_prefix slugged)) = Ok (num, text)
    /\ code = code_prefix slugged +:+ text
    /\ s' = if dry_run then s else <[code_prefix slugged := num]> s.
Proof.
  intros H.
  destruct (slug name) as [e|slugged] eqn:Hs.
  { unfold glottocode_for_name in H. rewrite Hs in H. discriminate H. }
  destruct slugged as [|c t].
  { unfold glottocode_for_name in H. rewrite Hs in H. discriminate H. }
  rewrite (glottocode_for_name_eq name (String c t) dry_run s Hs) in H
    by discriminate.
  apply bind_Ok in H as ([num text] & Hn & H). injection H as <- <-.
  exists (String c t), num, text. repeat split; [discriminate|exact Hn].
Qed.

(** Without floats the new counter is an integer above the old one. *)
Lemma next_number_above (v num : json F) (text : string) :
  (forall x, v <> JFloat x) ->
  next_number F float_add_one float_str v = Ok (num, text) ->
  exists n : Z, num = JInt n /\ text = str_int n /\ (counter v < n)%Z.
Proof.
  intros Hv H. destruct v as [|[|]|n|x| | |]; try discriminate H.
  - injection H as <- <-. eexists. now repeat split.
  - injection H as <- <-. eexists. now repeat split.
  - injection H as <- <-. eexists. repeat split. cbn [counter]. lia.
  - destruct (Hv x eq_refl).
Qed.

Lemma no_float_default (s : gmap string (json F)) (alpha : string) :
  no_float s -> forall x, default (JInt 1233) (s !! alpha) <> JFloat x.
Proof.
  intros Hs x. destruct (s !! alpha) as [v|] eqn:E; cbn; [|discriminate].
  intros ->. exact (Hs alpha x E).
Qed.

Lemma no_float_insert (s : gmap string (json F)) (alpha : string) (n : Z) :
  no_float s -> no_float (<[alpha := JInt n]> s).
Proof.
  intros Hs k x. rewrite lookup_insert.
  destruct (decide (alpha = k)); [discriminate|apply Hs].
Qed.

Lemma allocate_above (names : list string) :
  forall (s s' : gmap string (json F)) (codes : list string),
    no_float s ->
    allocate slug float_add_one float_str names s = Ok (codes, s') ->
    no_float s'
    /\ forall code, In code codes ->
         exists (alpha : string) (num : Z),
           String.length alpha = 4
           /\ code = alpha +:+ str_int num
           /\ (counter (default (JInt 1233) (s !! alpha)) < num)%Z.
Proof.
  induction names as [|name rest IH]; intros s s' codes Hs H.
  - injection H as <- <-. split; [exact Hs|]. intros code [].
  - cbn [allocate] in H. apply bind_Ok in H as ([c s1] & Hc & H).
    apply bind_Ok in H as ([cs s2] & Hcs & H). injection H as <- <-.
    destruct (glottocode_for_name_Ok _ _ _ _ _ Hc)
      as (slugged & num & text & _ & Hne & Hn & -> & ->).
    destruct (next_number_above _ _ _ (no_float_default s _ Hs) Hn)
      as (n & -> & -> & Hlt).
    destruct (IH _ _ _ (no_float_insert s _ n Hs) Hcs) as [Hs2 Habove].
    split; [exact Hs2|]. intros code [<-|Hin].
    + exists (code_prefix slugged), n.
      split; [now apply code_prefix_length|]. now split.
    + destruct (Habove code Hin) as (a & m & Ha & -> & Hm).
      exists a, m. split; [exact Ha|]. split; [reflexivity|].
      rewrite lookup_insert in Hm.
      destruct (decide (code_prefix slugged = a)) as [<-|_];
        [cbn in Hm; lia|exact Hm].
Qed.

Lemma allocate_no_repeat (names : list string) :
  forall (s s' : gmap string (json F)) (codes : list string),
    no_float s ->
    allocate slug float_add_one float_str names s = Ok (codes, s') ->
    NoDup codes.
Proof.
  induction names as [|name rest IH]; intros s s' codes Hs H.
  - injection H as <- _. constructor.
  - cbn [allocate] in H. apply bind_Ok in H as ([c s1] & Hc & H).
    apply bind_Ok in H as ([cs s2] & Hcs & H). injection H as <- _.
    destruct (glottocode_for_name_Ok _ _ _ _ _ Hc)
      as (slugged & num & text & _ & Hne & Hn & -> & ->).
    destruct (next_number_above _ _ _ (no_float_default s _ Hs) Hn)
      as (n & -> & -> & Hlt).
    pose proof (no_float_insert s (code_prefix slugged) n Hs) as Hs1.
    apply NoDup_cons. split; [|exact (IH _ _ _ Hs1 Hcs)].
    intros Hin. apply list_elem_of_In in Hin.
    destruct (proj2 (allocate_above _ _ _ _ Hs1 Hcs) _ Hin)
      as (a & m & Ha & E & Hm).
    apply append_inj_length in E as [<- E];
      [|rewrite Ha; now apply code_prefix_length].
    apply str_int_inj in E. subst m.
    rewrite lookup_insert_eq in Hm. cbn in Hm. lia.
Qed.

End GlottocodeFacts.

(** *** X6 *)

(** X6 (codes are handed out once).  A run of calls of
    [glottocode_for_name] that store their counters never returns the same
    code twice when the file holds no float, whatever names are asked for,
    and leaves a file without floats; a dry run returns the code that the
    storing call would return and leaves the file as it was.  A float
    counter that the increment does not change, such as 1e16, is handed
    out again by the next call. *)
Theorem glottocode_for_name_never_repeats :
  forall (slug : string -> result string) (F : Type)
         (float_add_one : F -> F) (float_str : F -> string),
    (forall (names : list string) (s s' : gmap string (json F))
            (codes : list string),
        no_float s ->
        allocate slug float_add_one float_str names s = Ok (codes, s') ->
        NoDup codes /\ no_float s')
    /\ (forall (name : string) (s : gmap string (json F)),
           match glottocode_for_name slug F float_add_one float_str name true s,
                 glottocode_for_name slug F float_add_one float_str name false s
           with
           | inr (code, s'), inr (code', _) => code = code' /\ s' = s
           | inl e, inl e' => e = e'
           | _, _ => False
           end)
    /\ (forall (name slugged : string) (x : F) (s : gmap string (json F)),
           slug name = Ok slugged ->
           slugged <> EmptyString ->
           s !! code_prefix slugged = Some (JFloat x) ->
           float_add_one x = x ->
           allocate slug float_add_one float_str [name; name] s
           = Ok ([code_prefix slugged +:+ float_str x;
                  code_prefix slugged +:+ float_str x], s)).
Proof.
  intros slug F float_add_one float_str. split; [|split].
  - intros names s s' codes Hs H. split.
    + exact (allocate_no_repeat slug F float_add_one float_str names _ _ _ Hs H).
    + exact (proj1 (allocate_above slug F float_add_one float_str names
                      _ _ _ Hs H)).
  - intros name s. unfold glottocode_for_name.
    destruct (slug name) as [e|slugged]; [reflexivity|]. cbn [bind Ok].
    destruct (substring 0 4 slugged); [reflexivity|].
    destruct (next_number F float_add_one float_str _) as [e|[num text]];
      [reflexivity|now split].
  - intros name slugged x s Hs Hne Hx Hfix.
    assert (E : glottocode_for_name slug F float_add_one float_str name false s
                = Ok (code_prefix slugged +:+ float_str x, s)).
    { rewrite (glottocode_for_name_eq slug F float_add_one float_str
                 name slugged false s Hs Hne).
      rewrite Hx. cbn [from_option id next_number bind Ok]. rewrite Hfix.
      now rewrite (insert_id s _ _ Hx). }
    cbn [allocate]. rewrite E. cbn [bind Ok]. rewrite E. reflexivity.
Qed.

Lemma glottocode_for_name_never_repeats_witness :
  (exists (codes : list string) (s' : gmap string (json no_floats)),
      allocate latin1_slug no_float_add_one no_float_str
        ["abc"; "Abcc"; "xyzw"; "ab c"] ∅ = Ok (codes, s')
      /\ codes = ["abcc1234"; "abcc1235"; "xyzw1234"; "abcc1236"]
      /\ NoDup codes)
  /\ allocate latin1_slug big_float_add_one big_float_str ["abcd"; "abcd"]
       {["abcd" := JFloat tt]}
     = Ok (["abcd1e+16"; "abcd1e+16"], {["abcd" := JFloat tt]}).
Proof.
  split.
  - assert (P : match allocate latin1_slug no_float_add_one no_float_str
                        ["abc"; "Abcc"; "xyzw"; "ab c"] ∅ with
                | inr (codes, _) => Some codes
                | inl _ => None
                end = Some ["abcc1234"; "abcc1235"; "xyzw1234"; "abcc1236"])
      by (vm_compute; reflexivity).
    destruct (allocate latin1_slug no_float_add_one no_float_str
                ["abc"; "Abcc"; "xyzw"; "ab c"] ∅)
      as [e|[codes s']] eqn:E; [discriminate P|].
    injection P as P.
    exists codes, s'. split; [reflexivity|]. split; [exact P|].
    assert (H0 : no_float (F := no_floats) ∅)
      by (intros k x; rewrite lookup_empty; discriminate).
    exact (proj1 (proj1 (glottocode_for_name_never_repeats latin1_slug
                           no_floats no_float_add_one no_float_str)
                    ["abc"; "Abcc"; "xyzw"; "ab c"] ∅ s' codes H0 E)).
  - apply (proj2 (proj2 (glottocode_for_name_never_repeats latin1_slug
                           big_float big_float_add_one big_float_str))
             "abcd" "abcd" tt).
    + reflexivity.
    + discriminate.
    + vm_compute. reflexivity.
    + reflexivity.
Defined.

Lemma is_digit_cases (c : ascii) : is_digit c = true -> In c digit_chars.
Proof.
  destruct c as [[] [] [] [] [] [] [] []]; intros H;
    try (vm_compute in H; discriminate H); cbn; tauto.
Qed.

Lemma four_digits_listed (d : string) :
  four_digits d = true -> In d four_digit_texts.
Proof.
  unfold four_digits. intros H. apply andb_prop in H as [Hlen Hall].
  destruct d as [|a [|b [|c [|e [|f t]]]]]; try discriminate Hlen.
  cbn [string_forall] in Hall.
  apply andb_prop in Hall as [Ha Hall]. apply andb_prop in Hall as [Hb Hall].
  apply andb_prop in Hall as [Hc Hall]. apply andb_prop in Hall as [He _].
  unfold four_digit_texts.
  apply in_flat_map. exists a. split; [now apply is_digit_cases|].
  apply in_flat_map. exists b. split; [now apply is_digit_cases|].
  apply in_flat_map. exists c. split; [now apply is_digit_cases|].
  apply (in_map (fun d => String a (String b (String c (String d EmptyString))))
           digit_chars e).
  now apply is_digit_cases.
Qed.

Lemma four_digit_texts_bounded :
  forallb denotes_at_most_9999 four_digit_texts = true.
Proof. vm_compute. reflexivity. Qed.

Lemma to_int_not_nil (z : Z) :
  Z.to_int z <> Decimal.Pos Decimal.Nil /\ Z.to_int z <> Decimal.Neg Decimal.Nil.
Proof.
  destruct z as [|p|p]; cbn; split; try discriminate;
    intros [= E]; now apply (DecimalPos.Unsigned.to_uint_nonnil p).
Qed.

Lemma four_digits_at_most_9999 (num : Z) :
  four_digits (str_int num) = true -> (num <= 9999)%Z.
Proof.
  intros H. apply four_digits_listed in H.
  pose proof four_digit_texts_bounded as B.
  rewrite forallb_forall in B. specialize (B _ H).
  unfold denotes_at_most_9999, str_int in B.
  rewrite (NilZero.isi _ (proj1 (to_int_not_nil num)) (proj2 (to_int_not_nil num)))
    in B.
  rewrite DecimalZ.of_to in B. now apply Z.leb_le.
Qed.

Lemma small_numbers_short :
  forallb (fun k => negb (four_digits (str_int (Z.of_nat k)))) (seq 0 (Z.to_nat 1000)) = true.
Proof. vm_compute. reflexivity. Qed.

Lemma code_numbers_four_digits :
  forallb (fun k => four_digits (str_int (1000 + Z.of_nat k))) (seq 0 (Z.to_nat 9000)) = true.
Proof. vm_compute. reflexivity. Qed.

(** The decimal form of a number has four digits exactly from 1000 to
    9999. *)
Lemma four_digits_range (num : Z) :
  four_digits (str_int num) = ((1000 <=? num) && (num <=? 9999))%Z.
Proof.
  destruct (Z.leb_spec 1000 num) as [Hlo|Hlo]; cbn [andb].
  - destruct (Z.leb_spec num 9999) as [Hhi|Hhi].
    + pose proof code_numbers_four_digits as B. rewrite forallb_forall in B.
      specialize (B (Z.to_nat (num - 1000))).
      replace (1000 + Z.of_nat (Z.to_nat (num - 1000)))%Z with num in B by lia.
      apply B. apply in_seq. lia.
    + destruct (four_digits (str_int num)) eqn:E; [|reflexivity].
      apply four_digits_at_most_9999 in E. lia.
  - destruct (Z.leb_spec 0 num) as [Hz|Hz].
    + pose proof small_numbers_short as B. rewrite forallb_forall in B.
      specialize (B (Z.to_nat num)).
      replace (Z.of_nat (Z.to_nat num)) with num in B by lia.
      apply negb_true_iff, B. apply in_seq. lia.
    + destruct num as [|p|p]; try lia.
      unfold four_digits, str_int. cbn [Z.to_int NilZero.string_of_int].
      cbn [string_forall]. change (is_digit "-") with false.
      cbn [andb]. apply andb_false_r.
Qed.

Lemma string_of_uint_digits (d : Decimal.uint) :
  string_forall is_digit (NilEmpty.string_of_uint d) = true.
Proof. induction d; cbn; auto. Qed.

Lemma str_int_chars (num : Z) :
  string_forall digit_or_minus (str_int num) = true
  /\ str_int num <> EmptyString.
Proof.
  assert (U : forall d, string_forall digit_or_minus (NilZero.string_of_uint d) = true
                        /\ NilZero.string_of_uint d <> EmptyString).
  { intros d. split.
    - apply (string_forall_impl is_digit);
        [intros c Hc; unfold digit_or_minus; now rewrite Hc|].
      destruct d; try apply (string_of_uint_digits (_ d)); reflexivity.
    - destruct d; discriminate. }
  unfold str_int. destruct (Z.to_int num) as [d|d]; cbn [NilZero.string_of_int].
  - apply U.
  - split; [|discriminate]. cbn [string_forall]. now rewrite (proj1 (U d)).
Qed.

Lemma endswith_char_app (a d : string) (c : ascii) :
  d <> EmptyString -> endswith_char (a +:+ d) c = endswith_char d c.
Proof.
  intros Hd. induction a as [|x a IH]; [reflexivity|].
  change (String x a +:+ d) with (String x (a +:+ d)).
  cbn [endswith_char]. destruct (a +:+ d) eqn:E; [|exact IH].
  destruct a; [destruct (Hd E)|discriminate E].
Qed.

Lemma endswith_char_forall (p : ascii -> bool) (d : string) (c : ascii) :
  string_forall p d = true -> p c = false -> endswith_char d c = false.
Proof.
  intros Hall Hc. induction d as [|x d IH]; [reflexivity|].
  cbn [string_forall] in Hall. apply andb_prop in Hall as [Hx Hd].
  cbn [endswith_char]. destruct d as [|y d]; [|now apply IH].
  destruct (Ascii.eqb_spec x c) as [->|]; [congruence|reflexivity].
Qed.

(** A code made of four characters and a decimal number. *)
Lemma code_match (alpha : string) (num : Z) :
  String.length alpha = 4 ->
  string_forall lower_alnum alpha = true ->
  id_pattern_match (alpha +:+ str_int num)
  = ((1000 <=? num) && (num <=? 9999))%Z.
Proof.
  intros Hlen Hall. rewrite id_pattern_match_shape.
  destruct (str_int_chars num) as [Hchars Hne].
  rewrite endswith_char_app by exact Hne.
  rewrite (endswith_char_forall digit_or_minus _ newline Hchars) by reflexivity.
  cbn [andb]. rewrite orb_false_r. rewrite <- four_digits_range.
  destruct alpha as [|a [|b [|c [|e [|f t]]]]]; try discriminate Hlen.
  cbn [string_forall] in Hall.
  apply andb_prop in Hall as [Ha Hall]. apply andb_prop in Hall as [Hb Hall].
  apply andb_prop in Hall as [Hc Hall]. apply andb_prop in Hall as [He _].
  set (d := str_int num) in *.
  unfold spec_identifier.
  assert (N : nocode_shape (String a (String b (String c (String e "")))
                            +:+ d) = false).
  { unfold nocode_shape.
    change (String a (String b (String c (String e ""))) +:+ d)
      with (String a (String b (String c (String e d)))).
    assert (HN : Ascii.eqb a "N" = false).
    { destruct (Ascii.eqb_spec a "N") as [->|_];
        [vm_compute in Ha; discriminate Ha|reflexivity]. }
    cbn [String.eqb substring]. rewrite HN. reflexivity. }
  rewrite N, orb_false_r. unfold code_shape, four_digits.
  change (String a (String b (String c (String e ""))) +:+ d)
    with (String a (String b (String c (String e d)))).
  cbn [String.length Nat.eqb].
  change (substring 0 4 (String a (String b (String c (String e d)))))
    with (String a (String b (String c (String e (substring 0 0 d))))).
  change (substring 4 4 (String a (String b (String c (String e d)))))
    with (substring 0 4 d).
  replace (substring 0 0 d) with EmptyString by (now destruct d).
  cbn [string_forall]. rewrite Ha, Hb, Hc, He. cbn [andb].
  destruct (Nat.eqb_spec (String.length d) 4) as [E|_]; [|reflexivity].
  cbn [andb]. now rewrite <- E, substring_all.
Qed.

Lemma append_assoc (a b c : string) : (a +:+ b) +:+ c = a +:+ (b +:+ c).
Proof.
  induction a as [|x a IH]; [reflexivity|].
  change (String x a +:+ b) with (String x (a +:+ b)).
  change (String x (a +:+ b) +:+ c) with (String x ((a +:+ b) +:+ c)).
  now rewrite IH.
Qed.

Lemma last_char_forall (p : ascii -> bool) (alpha : string) :
  string_forall p alpha = true -> string_forall p (last_char alpha) = true.
Proof.
  induction alpha as [|c [|c' t] IH]; intros H; [reflexivity|exact H|].
  apply IH. cbn [string_forall] in H. now apply andb_prop in H as [_ H].
Qed.

Lemma substring_prefix_forall (p : ascii -> bool) (n : nat) (s : string) :
  string_forall p s = true -> string_forall p (substring 0 n s) = true.
Proof.
  revert s. induction n as [|n IH]; intros [|c s] H; try reflexivity.
  cbn [substring string_forall] in *. apply andb_prop in H as [Hc H].
  now rewrite Hc, IH.
Qed.

(** The loop only appends copies of the last character. *)
Lemma pad_alpha_app (p : ascii -> bool) (turns : nat) :
  forall alpha : string,
    exists pad : string,
      pad_alpha turns alpha = alpha +:+ pad
      /\ (string_forall p alpha = true -> string_forall p pad = true).
Proof.
  assert (R : forall a : string, a +:+ "" = a).
  { induction a as [|x a IH]; [reflexivity|].
    change (String x a +:+ "") with (String x (a +:+ "")). now rewrite IH. }
  induction turns as [|k IH]; intros alpha; cbn [pad_alpha].
  - exists EmptyString. now rewrite R.
  - destruct (String.length alpha <? 4)%nat.
    + destruct (IH (alpha +:+ last_char alpha)) as (pad & E & Hp).
      exists (last_char alpha +:+ pad). split.
      * now rewrite E, append_assoc.
      * intros H. rewrite string_forall_app.
        rewrite (last_char_forall p alpha H). cbn [andb]. apply Hp.
        rewrite string_forall_app, H. now apply last_char_forall.
    + exists EmptyString. now rewrite R.
Qed.

Lemma code_prefix_chars (p : ascii -> bool) (slugged : string) :
  slugged <> EmptyString ->
  string_forall p slugged = true ->
  string_forall p (code_prefix slugged) = true.
Proof.
  intros Hne H. unfold code_prefix.
  rewrite <- (pad_alpha_padded _ (substring_prefix_nonempty slugged Hne)
                (substring_prefix_length 4 slugged)).
  destruct (pad_alpha_app p 4 (substring 0 4 slugged)) as (pad & -> & Hp).
  pose proof (substring_prefix_forall p 4 slugged H) as Hq.
  now rewrite string_forall_app, Hq, (Hp Hq).
Qed.

(** *** X7 *)

(** X7 (shape of a new code).  [glottocode_for_name] passes on the error
    of [slug] and fails its assertion when the slug of the name is empty.
    Otherwise the code starts with the first four characters of the slug,
    a shorter slug being filled up to four with copies of its last
    character, followed by 1234 for a prefix that the file does not hold
    and by the stored integer plus one for a prefix that it holds; for a
    stored null, text, list or object the call raises TypeError.  When the
    slug consists of lowercase letters and digits, such a code is
    accepted by the identifier pattern exactly when the number lies
    between 1000 and 9999: the function itself never checks the range. *)
Theorem glottocode_for_name_code_shape :
  forall (slug : string -> result string) (F : Type)
         (float_add_one : F -> F) (float_str : F -> string)
         (name : string) (dry_run : bool) (s : gmap string (json F)),
    (forall e : exn,
        slug name = Raise e ->
        glottocode_for_name slug F float_add_one float_str name dry_run s
        = Raise e)
    /\ (slug name = Ok EmptyString ->
        glottocode_for_name slug F float_add_one float_str name dry_run s
        = Raise AssertionError)
    /\ (forall slugged : string,
           slug name = Ok slugged ->
           slugged <> EmptyString ->
           String.length (code_prefix slugged) = 4
           /\ (s !! code_prefix slugged = None ->
               glottocode_for_name slug F float_add_one float_str name dry_run s
               = Ok (code_prefix slugged +:+ "1234",
                     if dry_run then s
                     else <[code_prefix slugged := JInt 1234]> s))
           /\ (forall n : Z,
                  s !! code_prefix slugged = Some (JInt n) ->
                  glottocode_for_name slug F float_add_one float_str name
                    dry_run s
                  = Ok (code_prefix slugged +:+ str_int (n + 1),
                        if dry_run then s
                        else <[code_prefix slugged := JInt (n + 1)]> s))
           /\ (forall v : json F,
                  s !! code_prefix slugged = Some v ->
                  v = JNull \/ (exists t, v = JStr t)
                  \/ (exists items, v = JList items)
                  \/ (exists fields, v = JDict fields) ->
                  glottocode_for_name slug F float_add_one float_str name
                    dry_run s
                  = Raise TypeError)
           /\ (string_forall lower_alnum slugged = true ->
               forall n : Z,
                 id_pattern_match (code_prefix slugged +:+ str_int n)
                 = ((1000 <=? n) && (n <=? 9999))%Z)).
Proof.
  intros slug F float_add_one float_str name dry_run s. split; [|split].
  - intros e He. unfold glottocode_for_name. now rewrite He.
  - intros He. unfold glottocode_for_name. now rewrite He.
  - intros slugged Hs Hne.
    pose proof (glottocode_for_name_eq slug F float_add_one float_str
                  name slugged dry_run s Hs Hne) as E.
    split; [now apply code_prefix_length|]. split; [|split; [|split]].
    + intros Hnone. rewrite E, Hnone. reflexivity.
    + intros n Hn. rewrite E, Hn. reflexivity.
    + intros v Hv Hkind. rewrite E, Hv.
      destruct Hkind as [->|[(t & ->)|[(items & ->)|(fields & ->)]]];
        reflexivity.
    + intros Hall n. apply code_match; [now apply code_prefix_length|].
      now apply code_prefix_chars.
Qed.

Lemma glottocode_for_name_code_shape_witness :
  latin1_slug "Ba q" = Ok "baq"
  /\ code_prefix "baq" = "baqq"
  /\ glottocode_for_name latin1_slug no_floats no_float_add_one no_float_str
       "Ba q" false {["baqq" := JInt 9999]}
     = Ok ("baqq10000", {["baqq" := JInt 10000]})
  /\ id_pattern_match "baqq10000" = false.
Proof.
  assert (Hs : latin1_slug "Ba q" = Ok "baq") by reflexivity.
  destruct (proj2 (proj2 (glottocode_for_name_code_shape latin1_slug no_floats
                            no_float_add_one no_float_str "Ba q" false
                            {["baqq" := JInt 9999]}))
              "baq" Hs ltac:(discriminate))
    as (_ & _ & Hint & _ & Hm).
  split; [exact Hs|]. split; [reflexivity|]. split.
  - apply (Hint 9999%Z). vm_compute. reflexivity.
  - exact (Hm eq_refl 10000%Z).
Defined.

(** ** Loading with the ancestors in the dictionary *)

Lemma lineage_walk_cached (fs : fsnode)
    (from_ini_at : Path -> Path -> nodes_ref -> store -> result (Languoid * store))
    (dname : string) (r : nodes_ref) (st : store) (cached : Path -> raw_triple)
    (parent : Path) :
  forall acc : list raw_triple,
    (forall q, In q (visited parent) ->
               nodes_of r st !! Some (path_name q) = Some (cached q)) ->
    (forall q, In q (asserted_from parent) -> path_name q <> dname) ->
    lineage_walk fs from_ini_at dname r parent acc st
    = Ok (acc ++ map cached (visited parent), st).
Proof.
  induction parent as [|n up IH]; intros acc Hc Ha; rewrite lineage_walk_eq.
  - cbn [path_name]. rewrite id_pattern_match_empty. cbn [negb visited map].
    destruct (String.eqb_spec EmptyString dname) as [E|_].
    + exfalso. apply (Ha []); [now left|exact E].
    + now rewrite app_nil_r.
  - cbn [path_name].
    destruct (String.eqb_spec n dname) as [E|_].
    { exfalso. apply (Ha (n :: up)); [apply asserted_from_head|exact E]. }
    cbn [visited asserted_from] in *.
    destruct (id_pattern_match n) eqn:Em; cbn [negb map].
    2:{ now rewrite app_nil_r. }
    unfold resolve_parent. cbn [path_name].
    pose proof (Hc (n :: up) (or_introl eq_refl)) as Hl. cbn [path_name] in Hl.
    rewrite Hl. cbn [bind Ok]. rewrite Hl.
    rewrite IH.
    + now rewrite <- app_assoc.
    + intros q Hq. apply Hc. now right.
    + intros q Hq. apply Ha. now right.
Qed.

Lemma assertion_holds_spec (directory : Path) :
  assertion_holds directory = true ->
  forall q, In q (asserted_parents directory) ->
            path_name q <> path_name directory.
Proof.
  unfold assertion_holds. rewrite forallb_forall. intros H q Hq.
  specialize (H q Hq).
  destruct (String.eqb_spec (path_name q) (path_name directory));
    [discriminate|assumption].
Qed.

Lemma from_ini_cached (TREE : Path) (fs : fsnode) (ini : Path) (r : nodes_ref)
    (st : store) (cached : Path -> raw_triple) :
  (forall q, In q (walked_parents (path_parent ini)) ->
             nodes_of r st !! Some (path_name q) = Some (cached q)) ->
  assertion_holds (path_parent ini) = true ->
  from_ini TREE fs ini r st
  = (let* res := Languoid_init TREE (ini_read fs ini)
                   (Some (rev (map cached (walked_parents (path_parent ini)))))
                   (Some (path_parent ini)) in
     let* t := Languoid_triple res in
     Ok (res, nodes_set r (Languoid_id res) t st)).
Proof.
  intros Hc Ha. unfold from_ini. rewrite from_ini_in_eq.
  destruct (path_parent ini) as [|dname up] eqn:E; [reflexivity|].
  rewrite walked_parents_cons in Hc |- *.
  rewrite (lineage_walk_cached fs _ dname r st cached up [] Hc).
  - reflexivity.
  - intros q Hq. now apply (assertion_holds_spec (dname :: up) Ha).
Qed.

(** *** X8 *)

(** X8 (ancestors found in the dictionary).  When the dictionary handed to
    [from_ini] holds an entry under the name of every parent directory of
    the walk, and no parent on which the assertion runs has the name of
    the descriptor's directory, the lineage is the list of those entries,
    root first, and the call registers the node's own triple and changes
    nothing else.  No ancestor directory is listed and no ancestor
    descriptor is read: the outcome is the same on every file system that
    holds the same descriptor, whatever the entries say. *)
Theorem from_ini_cached_ancestors :
  forall (TREE : Path) (fs : fsnode) (ini : Path) (r : nodes_ref)
         (st : store) (cached : Path -> raw_triple),
    (forall q, In q (walked_parents (path_parent ini)) ->
               nodes_of r st !! Some (path_name q) = Some (cached q)) ->
    assertion_holds (path_parent ini) = true ->
    from_ini TREE fs ini r st
    = (let* res := Languoid_init TREE (ini_read fs ini)
                     (Some (rev (map cached (walked_parents (path_parent ini)))))
                     (Some (path_parent ini)) in
       let* t := Languoid_triple res in
       Ok (res, nodes_set r (Languoid_id res) t st))
    /\ forall fs' : fsnode,
         ini_read fs' ini = ini_read fs ini ->
         from_ini TREE fs' ini r st = from_ini TREE fs ini r st.
Proof.
  intros TREE fs ini r st cached Hc Ha. split.
  - now apply from_ini_cached.
  - intros fs' E.
    rewrite (from_ini_cached TREE fs' ini r st cached Hc Ha).
    rewrite (from_ini_cached TREE fs ini r st cached Hc Ha).
    now rewrite E.
Qed.

Lemma from_ini_cached_ancestors_witness :
  from_ini sample_TREE bare_tree valid_tree_xyz_descriptor CallerNodes
    renamed_store
  = Ok ({| cfg := descriptor "Xyz" "xyz19999" "dialect";
           lineage := [(Some "Renamed family", "abcd1234", family);
                       (Some "Renamed language", "lang5678", language)];
           dir := ["xyz19999"; "lang5678"; "abcd1234"; "root"] |},
        nodes_set CallerNodes (Some "xyz19999")
          (Some "Xyz", Some "xyz19999", PLevel dialect) renamed_store)
  /\ from_ini sample_TREE valid_tree valid_tree_xyz_descriptor CallerNodes
       renamed_store
     = from_ini sample_TREE bare_tree valid_tree_xyz_descriptor CallerNodes
         renamed_store.
Proof.
  assert (Hc : forall q,
             In q (walked_parents (path_parent valid_tree_xyz_descriptor)) ->
             nodes_of CallerNodes renamed_store !! Some (path_name q)
             = Some (renamed_entry q)).
  { intros q Hq. vm_compute in Hq.
    destruct Hq as [<-|[<-|[]]]; vm_compute; reflexivity. }
  destruct (from_ini_cached_ancestors sample_TREE bare_tree
              valid_tree_xyz_descriptor CallerNodes renamed_store
              renamed_entry Hc eq_refl) as [H1 H2].
  split.
  - rewrite H1. vm_compute. reflexivity.
  - apply H2. vm_compute. reflexivity.
Defined.

(** ** Failures of the parent walk *)


(** *** X9 *)



(** ** Lookup by directory *)

Lemma iterdir_entries (fs : fsnode) (d : Path) (entries : list Path) (p : Path) :
  iterdir fs d = Ok entries -> In p entries -> path_parent p = d.
Proof.
  unfold iterdir. destruct (fs_at fs d) as [[c|es]|]; try discriminate.
  intros [= <-] Hin. apply in_map_iff in Hin as (e & <- & _). reflexivity.
Qed.

(** What a call of [from_dir] that returns has done. *)
Lemma from_dir_returns (TREE : Path) (fs : fsnode) (d : Path) (r : nodes_ref)
    (st st' : store) (c : option Languoid) :
  from_dir TREE fs d r st = Ok (c, st') ->
  match c with
  | Some l =>
      dir l = d
      /\ exists f : Path,
           dir_descriptor fs d = Some f
           /\ path_suffix f = ".ini"
           /\ path_parent f = d
           /\ cfg l = ini_read fs f
           /\ from_ini TREE fs f r st = Ok (l, st')
  | None => st' = st /\ dir_descriptor fs d = None
  end.
Proof.
  unfold from_dir, from_dir_body, dir_descriptor.
  destruct (iterdir fs d) as [e|entries] eqn:Hit; [discriminate|].
  cbn [bind Ok].
  destruct (List.find (is_file fs) entries) as [f|] eqn:Hf.
  - destruct (String.eqb_spec (path_suffix f) ".ini") as [Hs|_]; [|discriminate].
    destruct (from_ini TREE fs f r st) as [e|[l s]] eqn:Hcall; [discriminate|].
    intros [= <- <-].
    destruct (from_ini_returns _ _ _ _ _ _ _ Hcall) as (Hcfg & Hdir & _).
    apply find_some in Hf as [Hin _].
    pose proof (iterdir_entries fs d entries f Hit Hin) as Hp.
    split; [now rewrite Hdir|]. exists f. now repeat split.
  - intros [= <- <-]. now split.
Qed.

Lemma walk_dirs_below :
  forall (node : fsnode) (p q : Path),
    In q (walk_dirs p node) -> below p q.
Proof.
  fix IH 1. intros [c|entries] p q; cbn [walk_dirs]; [intros []|].
  rewrite in_app_iff. intros [H|H].
  - apply in_map_iff in H as (e & <- & _).
    exists [fst e]. split; [discriminate|reflexivity].
  - induction entries as [|[n child] rest IHe]; [destruct H|].
    apply in_app_iff in H as [H|H].
    + apply IH in H as (pre & Hne & ->).
      exists (pre ++ [n]). split; [now destruct pre|].
      now rewrite <- app_assoc.
    + exact (IHe H).
Qed.

(** *** X10 *)

(** X10 (lookup by directory name).  [find_languoid] returns [None], and
    changes no dictionary, when no directory below [tree] is named by the
    code.  A Languoid that it returns is the one loaded from the first
    file of a directory that lies below [tree] and has the code as its
    name; the glottocode inside the descriptor is never compared with the
    code. *)
Theorem find_languoid_by_directory_name :
  forall (TREE : Path) (fs : fsnode) (tree : Path) (code : string) (st : store),
    (forallb (fun d => negb (String.eqb (path_name d) code))
       (walk_tree_dirs fs tree) = true ->
     find_languoid TREE fs tree code st = Ok (None, st))
    /\ (forall (l : Languoid) (st' : store),
           find_languoid TREE fs tree code st = Ok (Some l, st') ->
           path_name (dir l) = code
           /\ below tree (dir l)
           /\ exists f : Path,
                dir_descriptor fs (dir l) = Some f
                /\ path_suffix f = ".ini"
                /\ cfg l = ini_read fs f).
Proof.
  intros TREE fs tree code st. unfold find_languoid. split.
  - intros H.
    rewrite (find_none (fun fname => String.eqb (path_name fname) code)
               (walk_tree_dirs fs tree)); [reflexivity|].
    exact H.
  - intros l st' H.
    destruct (List.find _ (walk_tree_dirs fs tree)) as [d|] eqn:Hd;
      [|discriminate].
    apply find_some in Hd as [Hin Hn]. apply String.eqb_eq in Hn.
    apply from_dir_returns in H as (Hdir & f & Hf & Hs & _ & Hcfg & _).
    rewrite Hdir. split; [exact Hn|]. split.
    + unfold walk_tree_dirs in Hin.
      destruct (fs_at fs tree) as [node|]; [|destruct Hin].
      now apply (walk_dirs_below node).
    + exists f. now repeat split.
Qed.

Lemma find_languoid_by_directory_name_witness :
  exists (l : Languoid) (st' : store),
    find_languoid sample_TREE mislabelled_tree ["root"] "abcd1234" store0
    = Ok (Some l, st')
    /\ path_name (dir l) = "abcd1234"
    /\ Languoid_id l = Some "zzzz9999"
    /\ find_languoid sample_TREE mislabelled_tree ["root"] "zzzz9999" store0
       = Ok (None, store0).
Proof.
  assert (P : match find_languoid sample_TREE mislabelled_tree ["root"]
                      "abcd1234" store0 with
              | inr (Some l, _) => Languoid_id l
              | _ => None
              end = Some "zzzz9999")
    by (vm_compute; reflexivity).
  destruct (find_languoid sample_TREE mislabelled_tree ["root"] "abcd1234" store0)
    as [e|[[l|] st']] eqn:E; try discriminate P.
  exists l, st'. split; [reflexivity|].
  destruct (find_languoid_by_directory_name sample_TREE mislabelled_tree
              ["root"] "abcd1234" store0) as [_ H].
  destruct (H l st' E) as (Hn & _ & _). split; [exact Hn|]. split.
  - exact P.
  - apply (find_languoid_by_directory_name sample_TREE mislabelled_tree
             ["root"] "zzzz9999" store0). reflexivity.
Defined.

(** ** Children *)

Lemma from_dir_keeps_caller (TREE : Path) (fs : fsnode) (d : Path)
    (st st' : store) (c : option Languoid) :
  from_dir TREE fs d DefaultNodes st = Ok (c, st') ->
  caller_nodes st' = caller_nodes st.
Proof.
  intros H.
  assert (F : framed DefaultNodes (from_dir TREE fs d DefaultNodes)).
  { apply framed_from_dir_body. intros p. apply framed_from_ini. }
  destruct (F st st eq_refl) as [_ K]. rewrite H in K. exact K.
Qed.

Lemma children_of_returns (TREE : Path) (fs : fsnode) (dirs : list Path) :
  forall (st st' : store) (cs : list (option Languoid)),
    children_of TREE fs dirs st = Ok (cs, st') ->
    Forall2 (loaded_from fs) dirs cs
    /\ caller_nodes st' = caller_nodes st.
Proof.
  induction dirs as [|d rest IH]; intros st st' cs H.
  - injection H as <- <-. split; [constructor|reflexivity].
  - cbn [children_of] in H. apply bind_Ok in H as ([c s1] & Hc & H).
    apply bind_Ok in H as ([cs' s2] & Hcs & H). injection H as <- <-.
    destruct (IH _ _ _ Hcs) as [Hall Hk].
    pose proof (from_dir_keeps_caller _ _ _ _ _ _ Hc) as Hk1.
    split; [|congruence]. constructor; [|exact Hall].
    apply from_dir_returns in Hc. destruct c as [l|].
    + destruct Hc as (Hdir & f & Hf & _ & _ & Hcfg & _).
      split; [exact Hdir|]. now exists f.
    + now destruct Hc.
Qed.

(** *** X11 *)

(** X11 (children).  [children] fails with the error of listing the
    node's directory when that directory cannot be listed.  When it
    returns, the list has one entry for every sub-directory, in listing
    order: the Languoid loaded from the first file of the sub-directory,
    placed in that sub-directory, or [None] for a sub-directory without a
    file, which is not skipped.  The calls omit [nodes]: a dictionary
    supplied by a caller is left as it was. *)
Theorem children_one_per_subdirectory :
  forall (TREE : Path) (fs : fsnode) (l : Languoid) (st : store),
    (forall e : exn, iterdir fs (dir l) = Raise e ->
                     children TREE fs l st = Raise e)
    /\ (forall (cs : list (option Languoid)) (st' : store),
           children TREE fs l st = Ok (cs, st') ->
           exists entries : list Path,
             iterdir fs (dir l) = Ok entries
             /\ Forall2 (loaded_from fs) (List.filter (is_dir fs) entries) cs
             /\ (forall c : Languoid,
                    In (Some c) cs -> path_parent (dir c) = dir l)
             /\ caller_nodes st' = caller_nodes st).
Proof.
  intros TREE fs l st. unfold children. split.
  - intros e He. now rewrite He.
  - intros cs st' H.
    destruct (iterdir fs (dir l)) as [e|entries] eqn:Hit; [discriminate|].
    cbn [bind Ok] in H. exists entries. split; [reflexivity|].
    destruct (children_of_returns _ _ _ _ _ _ H) as [Hall Hk].
    split; [exact Hall|]. split; [|exact Hk].
    intros c Hin.
    assert (Hd : forall dirs,
               Forall2 (loaded_from fs) dirs cs ->
               exists d, In d dirs /\ dir c = d).
    { clear -Hin. intros dirs F. induction F as [|d x dirs cs' Hx F IH];
        [destruct Hin|].
      destruct Hin as [->|Hin].
      - exists d. split; [now left|]. now destruct Hx.
      - destruct (IH Hin) as (d' & Hd' & E). exists d'. split; [now right|exact E]. }
    destruct (Hd _ Hall) as (d & Hd1 & ->).
    apply filter_In in Hd1 as [Hd1 _].
    exact (iterdir_entries fs (dir l) entries d Hit Hd1).
Qed.

Lemma children_one_per_subdirectory_witness :
  exists (c : Languoid) (st' : store),
    children sample_TREE odd_tree odd_root store0 = Ok ([None; Some c], st')
    /\ dir c = ["cccc3333"; "root"]
    /\ path_parent (dir c) = dir odd_root.
Proof.
  assert (P : match children sample_TREE odd_tree odd_root store0 with
              | inr ([None; Some c], _) => Some (dir c)
              | _ => None
              end = Some ["cccc3333"; "root"])
    by (vm_compute; reflexivity).
  destruct (children sample_TREE odd_tree odd_root store0)
    as [e|[cs st']] eqn:E; [discriminate P|].
  destruct (children_one_per_subdirectory sample_TREE odd_tree odd_root store0)
    as [_ H].
  destruct (H cs st' E) as (entries & _ & _ & Hp & _).
  destruct cs as [|[x|] [|[c|] [|y cs]]]; try discriminate P.
  injection P as P.
  exists c, st'. split; [reflexivity|]. split; [exact P|].
  apply Hp. right. now left.
Defined.

(** ** Loading whole directories of a tree that follows the layout *)

Lemma visited_nested (up : Path) (n : string) (up' : Path) :
  In (n :: up') (visited up) -> incl (visited up') (visited up).
Proof.
  induction up as [|m u IH]; cbn [visited]; [intros []|].
  destruct (id_pattern_match m); [|intros []].
  intros [E|H].
  - injection E as _ <-. now apply incl_tl.
  - apply incl_tl. now apply IH.
Qed.

Lemma visited_nonempty (up q : Path) : In q (visited up) -> q <> [].
Proof.
  induction up as [|m u IH]; cbn [visited]; [intros []|].
  destruct (id_pattern_match m); [|intros []].
  intros [<-|H]; [discriminate|now apply IH].
Qed.

Section WellFormedTree.

Variable TREE : Path.
Variable fs : fsnode.
Variable r : nodes_ref.
Variable chain : list Path.
Hypothesis chain_ok : forall p, In p chain -> languoid_dir_ok fs p = true.
Hypothesis chain_names : NoDup (map path_name chain).

(** Loading the directory [p] of the chain. *)
Lemma from_dir_chain (p : Path) (st : store) :
  In p chain ->
  incl (walked_parents p) chain ->
  (forall q, In q (asserted_parents p) -> path_name q <> path_name p) ->
  coherent fs chain (nodes_of r st) ->
  exists (st' : store) (f : Path),
    from_dir TREE fs p r st = Ok (Some (node_at fs f), st')
    /\ dir_descriptor fs p = Some f
    /\ path_parent f = p
    /\ Languoid_entry (Some (node_at fs f)) = Some (dir_entry fs p)
    /\ coherent fs chain (nodes_of r st').
Proof.
  intros Hin Hincl Hassert Hcoh.
  destruct (languoid_dir_ok_shape fs p (chain_ok p Hin))
    as (entries & f & nm & lv & Hit & Hfind & Hsuf & Ht & Hraw).
  assert (Hp : path_parent f = p).
  { apply find_some in Hfind as [Hf _].
    exact (iterdir_entries fs p entries f Hit Hf). }
  destruct (from_ini_in_chain TREE fs r chain chain_ok chain_names
              (length p) p f (le_n _) st _ Hincl Hassert Ht Hcoh)
    as (st' & c & Hcall & Hst' & Hc).
  exists st', f. split.
  - unfold from_dir, from_dir_body. rewrite Hit. cbn [bind Ok].
    rewrite Hfind, Hsuf. cbn [String.eqb Ascii.eqb Bool.eqb].
    unfold from_ini. rewrite Hp, Hcall. cbn [bind Ok].
    unfold node_at. now rewrite Hp.
  - split; [unfold dir_descriptor; now rewrite Hit|].
    split; [exact Hp|]. split.
    + unfold Languoid_entry. rewrite Languoid_triple_cfg. cbn [node_at cfg].
      rewrite Ht. unfold Ok, dir_entry. now rewrite Hraw.
    + rewrite Hst'.
      destruct (cfg_triple_Ok _ _ Ht) as [_ Hid]. cbn [fst snd] in Hid.
      rewrite <- Hid, <- Hraw. now apply coherent_insert.
Qed.

End WellFormedTree.

Lemma ancestors_walk_chain (TREE : Path) (fs : fsnode) (chain : list Path) :
  (forall p, In p chain -> languoid_dir_ok fs p = true) ->
  NoDup (map path_name chain) ->
  forall (parents : list Path) (res : list (option Languoid)) (st : store),
    (forall p,
        In p (takewhile (fun p => id_pattern_match (path_name p)) parents) ->
        In p chain
        /\ incl (walked_parents p) chain
        /\ (forall q, In q (asserted_parents p) ->
                      path_name q <> path_name p)) ->
    coherent fs chain (default_nodes st) ->
    exists st' : store,
      ancestors_walk TREE fs parents res st
      = Ok (res ++ map (dir_node fs)
                     (takewhile (fun p => id_pattern_match (path_name p)) parents),
            st')
      /\ coherent fs chain (default_nodes st').
Proof.
  intros Hok Hnames.
  induction parents as [|p rest IH]; intros res st Hp Hcoh;
    cbn [ancestors_walk takewhile map] in *.
  - exists st. now rewrite app_nil_r.
  - destruct (id_pattern_match (path_name p)) eqn:Em.
    2:{ exists st. cbn [map]. now rewrite app_nil_r. }
    destruct (Hp p (or_introl eq_refl)) as (Hin & Hincl & Hassert).
    destruct (from_dir_chain TREE fs DefaultNodes chain Hok Hnames p st
                Hin Hincl Hassert Hcoh)
      as (s1 & f & Hcall & Hf & _ & _ & Hcoh1).
    rewrite Hcall. cbn [bind Ok].
    destruct (IH (res ++ [Some (node_at fs f)]) s1
                (fun q Hq => Hp q (or_intror Hq)) Hcoh1) as (st' & Hwalk & Hcoh').
    exists st'. rewrite Hwalk. split; [|exact Hcoh'].
    cbn [map]. unfold dir_node at 2. rewrite Hf. cbn [option_map].
    now rewrite <- app_assoc.
Qed.

(** The walked parents of a directory form a chain that is closed under
    the walk. *)
Lemma walked_parents_closed (d p : Path) :
  NoDup (map path_name (walked_parents d)) ->
  In p (walked_parents d) ->
  incl (walked_parents p) (walked_parents d)
  /\ (forall q, In q (asserted_parents p) -> path_name q <> path_name p).
Proof.
  intros Hnames Hp.
  destruct d as [|n up]; [destruct Hp|].
  rewrite walked_parents_cons in *.
  pose proof (visited_nonempty up p Hp) as Hne.
  destruct p as [|m up']; [congruence|]. clear Hne.
  rewrite walked_parents_cons.
  pose proof (visited_nested up m up' Hp) as Hsub.
  split; [exact Hsub|].
  cbn [asserted_parents]. intros q Hq E.
  destruct (asserted_from_cases up' q Hq) as [Hv|Hf].
  - assert (q = m :: up').
    { apply (NoDup_names_inj (visited up)); auto. }
    apply visited_length in Hv. subst q. cbn in Hv. lia.
  - rewrite E in Hf. rewrite (visited_matches up (m :: up') Hp) in Hf.
    discriminate.
Qed.

(** *** X12 *)

(** X12 (ancestors agree with the lineage).  Let [from_ini] have returned
    a Languoid for a descriptor whose walked ancestor directories follow
    the layout and have distinct names, with dictionaries that agree with
    the tree.  Then [ancestors] returns, for every walked directory and
    root first, the node stored there, none of them [None]; the
    (name, id, level) triples of these nodes are the entries of the
    Languoid's lineage, in the same order. *)
Theorem ancestors_agree_with_lineage :
  forall (TREE : Path) (fs : fsnode) (ini : Path) (r : nodes_ref)
         (st0 st1 st : store) (l : Languoid),
    forallb (languoid_dir_ok fs) (walked_parents (path_parent ini)) = true ->
    distinct (map path_name (walked_parents (path_parent ini))) = true ->
    assertion_holds (path_parent ini) = true ->
    coherent fs (walked_parents (path_parent ini)) (nodes_of r st0) ->
    from_ini TREE fs ini r st0 = Ok (l, st1) ->
    coherent fs (walked_parents (path_parent ini)) (default_nodes st) ->
    exists (anc : list (option Languoid)) (st' : store),
      ancestors TREE fs l st = Ok (anc, st')
      /\ anc = map (dir_node fs) (rev (walked_parents (path_parent ini)))
      /\ map Languoid_entry anc = map Some (lineage l)
      /\ coherent fs (walked_parents (path_parent ini)) (default_nodes st').
Proof.
  intros TREE fs ini r st0 st1 st l Hok Hnames Hassert Hcoh0 Hcall Hcoh.
  set (W := walked_parents (path_parent ini)) in *.
  assert (Hok' : forall p, In p W -> languoid_dir_ok fs p = true)
    by (intros p Hp; exact (proj1 (forallb_forall _ _) Hok p Hp)).
  pose proof (distinct_NoDup _ Hnames) as Hnd.
  destruct (from_ini_returns _ _ _ _ _ _ _ Hcall) as (Hcfg & Hdir & _ & t & Ht & _).
  rewrite Languoid_triple_cfg, Hcfg in Ht.
  destruct (from_ini_in_chain TREE fs r W Hok' Hnd
              (length (path_parent ini)) (path_parent ini) ini (le_n _)
              st0 t (incl_refl _) (assertion_holds_spec _ Hassert) Ht Hcoh0)
    as (s & c & Hcall' & _ & _).
  unfold from_ini in Hcall. rewrite Hcall' in Hcall.
  injection Hcall as <- _. cbn [dir lineage] in *.
  destruct (ancestors_walk_chain TREE fs W Hok' Hnd
              (path_parents (path_parent ini)) [] st) as (st' & Hwalk & Hcoh').
  - intros p Hp. fold (walked_parents (path_parent ini)) in Hp. fold W in Hp.
    split; [exact Hp|]. now apply walked_parents_closed.
  - exact Hcoh.
  - fold (walked_parents (path_parent ini)) in Hwalk. fold W in Hwalk.
    cbn [app] in Hwalk.
    exists (rev (map (dir_node fs) W)), st'.
    split; [unfold ancestors; cbn [dir]; now rewrite Hwalk|].
    split; [now rewrite map_rev|]. split; [|exact Hcoh'].
    rewrite <- map_rev, !map_map. apply map_ext_in.
    intros p Hp. apply in_rev in Hp.
    destruct (walked_parents_closed _ p Hnd Hp) as [Hincl Ha].
    destruct (from_dir_chain TREE fs DefaultNodes W Hok' Hnd p st
                Hp Hincl Ha Hcoh) as (_ & f & _ & Hf & _ & He & _).
    unfold dir_node. rewrite Hf. exact He.
Qed.

Lemma ancestors_agree_with_lineage_witness :
  exists (l : Languoid) (st1 : store) (anc : list (option Languoid))
         (st' : store),
    from_ini sample_TREE valid_tree valid_tree_xyz_descriptor DefaultNodes store0
    = Ok (l, st1)
    /\ ancestors sample_TREE valid_tree l store0 = Ok (anc, st')
    /\ anc = [Some valid_tree_fam; Some valid_tree_lang]
    /\ map Languoid_entry anc = map Some (lineage l).
Proof.
  assert (P : raises (from_ini sample_TREE valid_tree valid_tree_xyz_descriptor
                        DefaultNodes store0) = false)
    by (vm_compute; reflexivity).
  destruct (from_ini sample_TREE valid_tree valid_tree_xyz_descriptor
              DefaultNodes store0) as [e|[l st1]] eqn:E; [discriminate P|].
  assert (C : coherent valid_tree
                (walked_parents (path_parent valid_tree_xyz_descriptor))
                (default_nodes store0)).
  { intros p t _ H. cbn in H. now rewrite lookup_empty in H. }
  destruct (ancestors_agree_with_lineage sample_TREE valid_tree
              valid_tree_xyz_descriptor DefaultNodes store0 st1 store0 l
              eq_refl eq_refl eq_refl C E C) as (anc & st' & Ha & Hanc & Hl & _).
  exists l, st1, anc, st'. split; [reflexivity|]. split; [exact Ha|].
  split; [|exact Hl]. rewrite Hanc. vm_compute. reflexivity.
Defined.

(** ** Walking a tree that follows the layout *)

Lemma in_list_In (p : Path) (l : list Path) : in_list p l = true -> In p l.
Proof.
  unfold in_list. intros H. apply existsb_exists in H as (q & Hq & E).
  apply bool_decide_eq_true in E. now subst q.
Qed.

Lemma walk_tree_loop_chain (TREE : Path) (fs : fsnode) (r : nodes_ref)
    (chain : list Path) :
  (forall p, In p chain -> languoid_dir_ok fs p = true) ->
  NoDup (map path_name chain) ->
  forall (files : list Path) (st : store),
    forallb (descriptor_ok fs chain) (List.filter is_ini files) = true ->
    coherent fs chain (nodes_of r st) ->
    exists st' : store,
      walk_tree_loop TREE fs files r st
      = Ok (map (node_at fs) (List.filter is_ini files), st')
      /\ coherent fs chain (nodes_of r st').
Proof.
  intros Hok Hnames.
  induction files as [|f rest IH]; intros st Hall Hcoh;
    cbn [walk_tree_loop List.filter] in *.
  - now exists st.
  - assert (Ei : is_ini f = String.eqb (path_suffix f) ".ini") by reflexivity.
    rewrite Ei in *.
    destruct (String.eqb (path_suffix f) ".ini") eqn:Es.
    2:{ now apply IH. }
    cbn [forallb map] in Hall |- *.
    apply andb_prop in Hall as [Hf Hall].
    unfold descriptor_ok in Hf.
    apply andb_prop in Hf as [Hf Hd]. apply andb_prop in Hf as [Hf Ha].
    apply andb_prop in Hf as [Hin Hw].
    apply in_list_In in Hin. apply bool_decide_eq_true in Hd.
    assert (Hincl : incl (walked_parents (path_parent f)) chain).
    { intros q Hq. apply in_list_In.
      exact (proj1 (forallb_forall _ _) Hw q Hq). }
    destruct (from_dir_chain TREE fs r chain Hok Hnames (path_parent f) st
                Hin Hincl (assertion_holds_spec _ Ha) Hcoh)
      as (s1 & f' & Hcall & Hf' & _ & _ & Hcoh1).
    assert (f' = f) by congruence. subst f'.
    apply from_dir_returns in Hcall as (_ & f'' & Hf'' & _ & _ & _ & Hcall).
    assert (f'' = f) by congruence. subst f''.
    rewrite Hcall. cbn [bind Ok].
    destruct (IH s1 Hall Hcoh1) as (st' & Hloop & Hcoh').
    exists st'. now rewrite Hloop.
Qed.

(** *** X13 *)

(** X13 (walking a tree that follows the layout).  Let every '.ini' file
    that the walk of [tree] meets be the first file of its directory, and
    let the directories of these files and the parents walked from them
    follow the layout and have distinct names.  Then [walk_tree] returns
    one Languoid for every such file, in the order of the walk, each with
    the document of its file, its directory, and as lineage the entries of
    its walked parent directories, root first, whatever entries that
    agree with the tree the dictionary held before; the dictionary agrees
    with the tree afterwards. *)
Theorem walk_tree_loads_every_descriptor :
  forall (TREE : Path) (fs : fsnode) (tree : Path) (r : nodes_ref)
         (st : store) (chain : list Path),
    forallb (languoid_dir_ok fs) chain = true ->
    distinct (map path_name chain) = true ->
    forallb (descriptor_ok fs chain)
      (List.filter is_ini (walk_tree_files fs tree)) = true ->
    coherent fs chain (nodes_of r st) ->
    exists st' : store,
      walk_tree TREE fs tree r st
      = Ok (map (node_at fs) (List.filter is_ini (walk_tree_files fs tree)), st')
      /\ coherent fs chain (nodes_of r st').
Proof.
  intros TREE fs tree r st chain Hok Hnames Hall Hcoh. unfold walk_tree.
  apply walk_tree_loop_chain; auto.
  - intros p Hp. exact (proj1 (forallb_forall _ _) Hok p Hp).
  - now apply distinct_NoDup.
Qed.

Lemma walk_tree_loads_every_descriptor_witness :
  exists st' : store,
    walk_tree sample_TREE valid_tree ["root"] DefaultNodes store0
    = Ok ([valid_tree_fam; valid_tree_lang; valid_tree_xyz], st').
Proof.
  assert (C : coherent valid_tree valid_tree_dirs (nodes_of DefaultNodes store0)).
  { intros p t _ H. cbn in H. now rewrite lookup_empty in H. }
  destruct (walk_tree_loads_every_descriptor sample_TREE valid_tree ["root"]
              DefaultNodes store0 valid_tree_dirs eq_refl eq_refl eq_refl C)
    as (st' & H & _).
  exists st'. rewrite H. vm_compute. reflexivity.
Defined.

(** ** The dictionary only grows *)

Lemma keeps_keys_refl (c : gmap (option string) raw_triple) : keeps_keys c c.
Proof. intros k H. exact H. Qed.

Lemma keeps_keys_trans (a b c : gmap (option string) raw_triple) :
  keeps_keys a b -> keeps_keys b c -> keeps_keys a c.
Proof. intros H1 H2 k H. apply H2, H1, H. Qed.

Lemma keeps_keys_insert (c : gmap (option string) raw_triple)
    (k : option string) (v : raw_triple) :
  keeps_keys c (<[k := v]> c).
Proof.
  intros k' H. rewrite lookup_insert.
  destruct (decide (k = k')); [now eexists|exact H].
Qed.

Lemma growing_from_dir_body (fs : fsnode) (r : nodes_ref)
    (from_ini_ : Path -> nodes_ref -> store -> result (Languoid * store))
    (directory : Path) :
  (forall p, growing r (from_ini_ p r)) ->
  growing r (from_dir_body fs from_ini_ directory r).
Proof.
  intros Hf st st' a. unfold from_dir_body.
  destruct (iterdir fs directory) as [e|entries]; [discriminate|].
  cbn [bind Ok].
  destruct (List.find (is_file fs) entries) as [p|].
  - destruct (String.eqb (path_suffix p) ".ini"); [|discriminate].
    destruct (from_ini_ p r st) as [e|[l s]] eqn:E; [discriminate|].
    intros [= <- <-]. exact (Hf p st s l E).
  - intros [= <- <-]. apply keeps_keys_refl.
Qed.

Lemma growing_resolve_parent (fs : fsnode) (r : nodes_ref)
    (from_ini_at : Path -> Path -> nodes_ref -> store -> result (Languoid * store))
    (parent : Path) (st st' : store) :
  (forall ini, growing r (from_ini_at parent ini r)) ->
  resolve_parent fs from_ini_at r parent st = Ok st' ->
  keeps_keys (nodes_of r st) (nodes_of r st').
Proof.
  intros Hrec. unfold resolve_parent.
  destruct (nodes_of r st !! Some (path_name parent)).
  - intros [= <-]. apply keeps_keys_refl.
  - destruct (from_dir_body fs (from_ini_at parent) parent r st)
      as [e|[l s]] eqn:E; [discriminate|].
    cbn [bind]. destruct l as [l|]; [|discriminate].
    destruct (Languoid_triple l) as [e|t]; [discriminate|].
    cbn [bind Ok]. intros [= <-]. rewrite nodes_of_set_same.
    apply (keeps_keys_trans _ (nodes_of r s)); [|apply keeps_keys_insert].
    exact (growing_from_dir_body fs r (from_ini_at parent) parent Hrec st s _ E).
Qed.

Lemma growing_lineage_walk (fs : fsnode) (r : nodes_ref)
    (from_ini_at : Path -> Path -> nodes_ref -> store -> result (Languoid * store))
    (dname : string) (parent : Path) :
  (forall p' ini, length p' <= length parent ->
                  growing r (from_ini_at p' ini r)) ->
  forall (acc lin : list raw_triple) (st st' : store),
    lineage_walk fs from_ini_at dname r parent acc st = Ok (lin, st') ->
    keeps_keys (nodes_of r st) (nodes_of r st').
Proof.
  induction parent as [|n up IH]; intros Hrec acc lin st st';
    rewrite lineage_walk_eq.
  - destruct (String.eqb (path_name []) dname); [discriminate|].
    destruct (negb (id_pattern_match (path_name []))).
    + intros [= _ <-]. apply keeps_keys_refl.
    + destruct (resolve_parent fs from_ini_at r [] st) as [e|s] eqn:E;
        [discriminate|].
      cbn [bind]. destruct (nodes_of r s !! Some (path_name [])); [|discriminate].
      intros [= _ <-].
      apply (growing_resolve_parent fs r from_ini_at [] st s); [|exact E].
      intros ini. now apply Hrec.
  - destruct (String.eqb (path_name (n :: up)) dname); [discriminate|].
    destruct (negb (id_pattern_match (path_name (n :: up)))).
    + intros [= _ <-]. apply keeps_keys_refl.
    + destruct (resolve_parent fs from_ini_at r (n :: up) st) as [e|s] eqn:E;
        [discriminate|].
      cbn [bind].
      destruct (nodes_of r s !! Some (path_name (n :: up))) as [t|];
        [|discriminate].
      intros H.
      apply (keeps_keys_trans _ (nodes_of r s)).
      * apply (growing_resolve_parent fs r from_ini_at (n :: up) st s); [|exact E].
        intros ini. now apply Hrec.
      * apply (IH (fun p' ini Hp' => Hrec p' ini (le_S _ _ Hp')) _ _ _ _ H).
Qed.

Lemma growing_from_ini_in (TREE : Path) (fs : fsnode) (r : nodes_ref) :
  forall (n : nat) (directory : Path),
    length directory <= n ->
    forall ini, growing r (from_ini_in TREE fs directory ini r).
Proof.
  induction n as [|n IH]; intros directory Hlen ini st st' l;
    rewrite from_ini_in_eq.
  - destruct directory; [|cbn in Hlen; lia].
    cbn [bind Ok]. intros H.
    apply bind_Ok in H as (res & _ & H). apply bind_Ok in H as (t & _ & H).
    injection H as _ <-. rewrite nodes_of_set_same. apply keeps_keys_insert.
  - destruct directory as [|dname up].
    + cbn [bind Ok]. intros H.
      apply bind_Ok in H as (res & _ & H). apply bind_Ok in H as (t & _ & H).
      injection H as _ <-. rewrite nodes_of_set_same. apply keeps_keys_insert.
    + intros H. apply bind_Ok in H as ([lin s] & Hwalk & H).
      apply bind_Ok in H as (res & _ & H). apply bind_Ok in H as (t & _ & H).
      injection H as _ <-. rewrite nodes_of_set_same.
      apply (keeps_keys_trans _ (nodes_of r s)); [|apply keeps_keys_insert].
      apply (growing_lineage_walk fs r (from_ini_in TREE fs) dname up) in Hwalk;
        [exact Hwalk|].
      intros p' ini' Hp'. apply IH. cbn in Hlen. lia.
Qed.

Lemma growing_from_ini (TREE : Path) (fs : fsnode) (r : nodes_ref) (ini : Path) :
  growing r (from_ini TREE fs ini r).
Proof. apply (growing_from_ini_in TREE fs r (length (path_parent ini))). lia. Qed.

Lemma walk_files_below :
  forall (node : fsnode) (p q : Path),
    In q (walk_files p node) -> below p q.
Proof.
  fix IH 1. intros [c|entries] p q; cbn [walk_files]; [intros []|].
  rewrite in_app_iff. intros [H|H].
  - apply in_map_iff in H as (e & <- & _).
    exists [fst e]. split; [discriminate|reflexivity].
  - induction entries as [|[n child] rest IHe]; [destruct H|].
    apply in_app_iff in H as [H|H].
    + apply IH in H as (pre & Hne & ->).
      exists (pre ++ [n]). split; [now destruct pre|].
      now rewrite <- app_assoc.
    + exact (IHe H).
Qed.

Lemma walk_tree_loop_returns (TREE : Path) (fs : fsnode) (r : nodes_ref)
    (files : list Path) :
  forall (st st' : store) (ls : list Languoid),
    walk_tree_loop TREE fs files r st = Ok (ls, st') ->
    map dir ls = map path_parent (List.filter is_ini files)
    /\ map cfg ls = map (ini_read fs) (List.filter is_ini files)
    /\ keeps_keys (nodes_of r st) (nodes_of r st')
    /\ (forall l, In l ls -> is_Some (nodes_of r st' !! Languoid_id l))
    /\ nodes_of (other r) st' = nodes_of (other r) st.
Proof.
  induction files as [|f rest IH]; intros st st' ls H;
    cbn [walk_tree_loop List.filter] in *.
  - injection H as <- <-. repeat split; try apply keeps_keys_refl.
    intros l [].
  - assert (Ei : is_ini f = String.eqb (path_suffix f) ".ini") by reflexivity.
    rewrite Ei. destruct (String.eqb (path_suffix f) ".ini"); [|now apply IH].
    apply bind_Ok in H as ([l s1] & Hl & H).
    apply bind_Ok in H as ([ls' s2] & Hls & H). injection H as <- <-.
    destruct (IH _ _ _ Hls) as (Hd & Hc & Hk & Hreg & Hother).
    destruct (from_ini_returns _ _ _ _ _ _ _ Hl) as (Hcfg & Hdir & _ & t & _ & Ht).
    pose proof (growing_from_ini TREE fs r f st s1 l Hl) as Hk1.
    destruct (framed_from_ini TREE fs r f st st eq_refl) as [_ Hf].
    rewrite Hl in Hf. cbn in Hf.
    cbn [map]. rewrite Hd, Hc, Hdir, Hcfg.
    split; [reflexivity|]. split; [reflexivity|].
    split; [exact (keeps_keys_trans _ _ _ Hk1 Hk)|].
    split; [|congruence].
    intros l' [<-|Hin]; [|now apply Hreg].
    apply Hk. rewrite Ht. now eexists.
Qed.

(** *** X14 *)

(** X14 (what a walk that returns has done).  When [walk_tree] runs to its
    end it has yielded one Languoid for every file with suffix '.ini'
    below [tree], in the order of the walk, each placed in the directory
    of its file and holding the document of that file; a directory with
    several such files therefore yields several nodes.  The dictionary in
    use has lost no key and holds an entry under the id of every yielded
    node; the other dictionary is as it was. *)
Theorem walk_tree_one_per_ini_file :
  forall (TREE : Path) (fs : fsnode) (tree : Path) (r : nodes_ref)
         (st st' : store) (ls : list Languoid),
    walk_tree TREE fs tree r st = Ok (ls, st') ->
    map dir ls
    = map path_parent (List.filter is_ini (walk_tree_files fs tree))
    /\ map cfg ls
       = map (ini_read fs) (List.filter is_ini (walk_tree_files fs tree))
    /\ (forall l, In l ls -> exists pre : Path, dir l = pre ++ tree)
    /\ keeps_keys (nodes_of r st) (nodes_of r st')
    /\ (forall l, In l ls -> is_Some (nodes_of r st' !! Languoid_id l))
    /\ nodes_of (other r) st' = nodes_of (other r) st.
Proof.
  intros TREE fs tree r st st' ls H. unfold walk_tree in H.
  destruct (walk_tree_loop_returns _ _ _ _ _ _ _ H) as (Hd & Hc & Hk & Hreg & Ho).
  repeat split; auto.
  intros l Hl. apply (in_map dir) in Hl. rewrite Hd in Hl.
  apply in_map_iff in Hl as (f & <- & Hf). apply filter_In in Hf as [Hf _].
  unfold walk_tree_files in Hf.
  destruct (fs_at fs tree) as [node|]; [|destruct Hf].
  apply walk_files_below in Hf as (pre & Hne & ->).
  destruct pre as [|n pre]; [congruence|]. now exists pre.
Qed.

Lemma walk_tree_one_per_ini_file_witness :
  exists (a b : Languoid) (st' : store),
    walk_tree sample_TREE odd_tree ["root"] DefaultNodes store0
    = Ok ([a; b], st')
    /\ dir a = ["cccc3333"; "root"]
    /\ dir b = ["cccc3333"; "root"]
    /\ Languoid_name a = Some "First"
    /\ Languoid_name b = Some "Second".
Proof.
  assert (P : match walk_tree sample_TREE odd_tree ["root"] DefaultNodes
                      store0 with
              | inr ([a; b], _) => Some (Languoid_name a, Languoid_name b)
              | _ => None
              end = Some (Some "First", Some "Second"))
    by (vm_compute; reflexivity).
  destruct (walk_tree sample_TREE odd_tree ["root"] DefaultNodes store0)
    as [e|[ls st']] eqn:E; [discriminate P|].
  destruct (walk_tree_one_per_ini_file sample_TREE odd_tree ["root"]
              DefaultNodes store0 st' ls E) as (Hd & Hc & _).
  destruct ls as [|a [|b [|c ls]]]; try discriminate P.
  injection P as Pa Pb.
  exists a, b, st'. split; [reflexivity|].
  assert (F : map path_parent
                (List.filter is_ini (walk_tree_files odd_tree ["root"]))
              = [["cccc3333"; "root"]; ["cccc3333"; "root"]])
    by (vm_compute; reflexivity).
  rewrite F in Hd. injection Hd as Ha Hb.
  split; [exact Ha|]. split; [exact Hb|]. split; [exact Pa|exact Pb].
Defined.

(** ** The flat format, written and read back *)

Lemma lacks_cons (c a : ascii) (s : string) :
  lacks c (String a s) = true -> a <> c /\ lacks c s = true.
Proof.
  unfold lacks. cbn [string_forall]. intros H. apply andb_prop in H as [H1 H2].
  split; [|exact H2]. intros ->. now rewrite Ascii.eqb_refl in H1.
Qed.

Lemma lacks_app (c : ascii) (a b : string) :
  lacks c (a +:+ b) = lacks c a && lacks c b.
Proof. apply string_forall_app. Qed.

Lemma prefix_cons_ne (a c : ascii) (s t : string) :
  a <> c -> String.prefix (String a s) (String c t) = false.
Proof.
  intros H. cbn [String.prefix].
  destruct (ascii_dec a c); [contradiction|reflexivity].
Qed.

Lemma prefix_app (sep rest : string) : String.prefix sep (sep +:+ rest) = true.
Proof.
  induction sep as [|a sep IH]; [now destruct rest|].
  change (String a sep +:+ rest) with (String a (sep +:+ rest)).
  cbn [String.prefix]. destruct (ascii_dec a a); [exact IH|contradiction].
Qed.

Lemma split_go_limit0 (sep s : string) : split_go sep (Some 0) 0 s = [s].
Proof. destruct s; reflexivity. Qed.

Lemma split_go_skip (sep : string) (limit : option nat) (a rest : string) :
  split_go sep limit (String.length a) (a +:+ rest) = split_go sep limit 0 rest.
Proof.
  induction a as [|c a IH]; [reflexivity|].
  change (String c a +:+ rest) with (String c (a +:+ rest)).
  cbn [String.length split_go]. exact IH.
Qed.

(** A text without the first character of the separator is not split. *)
Lemma split_go_lacks (c0 : ascii) (sep' : string) (limit : option nat)
    (x : string) :
  lacks c0 x = true -> split_go (String c0 sep') limit 0 x = [x].
Proof.
  induction x as [|c t IH]; intros H; [reflexivity|].
  apply lacks_cons in H as [Hc Ht].
  destruct limit as [[|n]|]; [reflexivity| |]; cbn [split_go];
    (rewrite prefix_cons_ne by congruence); now rewrite IH.
Qed.

(** The first split is made at the first separator, when the text before
    it lacks the first character of the separator. *)
Lemma split_go_first (c0 : ascii) (sep' : string) (limit : option nat)
    (x rest : string) :
  limit <> Some 0 ->
  lacks c0 x = true ->
  split_go (String c0 sep') limit 0 (x +:+ String c0 sep' +:+ rest)
  = x :: split_go (String c0 sep') (Nat.pred <$> limit) 0 rest.
Proof.
  intros Hl. induction x as [|c t IH]; intros H.
  - change (EmptyString +:+ String c0 sep' +:+ rest)
      with (String c0 (sep' +:+ rest)).
    assert (P : String.prefix (String c0 sep') (String c0 (sep' +:+ rest)) = true)
      by exact (prefix_app (String c0 sep') rest).
    assert (L : String.length (String c0 sep') - 1 = String.length sep')
      by (cbn [String.length]; lia).
    destruct limit as [[|n]|]; [congruence| |]; cbn [split_go];
      rewrite P, L, split_go_skip; reflexivity.
  - apply lacks_cons in H as [Hc Ht].
    change (String c t +:+ String c0 sep' +:+ rest)
      with (String c (t +:+ String c0 sep' +:+ rest)).
    destruct limit as [[|n]|]; [congruence| |]; cbn [split_go];
      (rewrite prefix_cons_ne by congruence); now rewrite IH.
Qed.

Lemma drop_last_app (s : string) (c : ascii) :
  drop_last (s +:+ String c EmptyString) = s.
Proof.
  induction s as [|a s IH]; [reflexivity|].
  change (String a s +:+ String c EmptyString)
    with (String a (s +:+ String c EmptyString)).
  cbn [drop_last]. rewrite IH.
  destruct (s +:+ String c EmptyString) eqn:E; [|reflexivity].
  destruct s; discriminate E.
Qed.

Lemma rstrip_app_space (s : string) : rstrip (s +:+ " ") = rstrip s.
Proof.
  induction s as [|a s IH]; [reflexivity|].
  change (String a s +:+ " ") with (String a (s +:+ " ")).
  cbn [rstrip]. now rewrite IH.
Qed.

Lemma strip_padded (name : string) :
  lstrip name = name -> rstrip name = name ->
  strip ("    " +:+ name +:+ " ") = name.
Proof.
  intros Hl Hr. unfold strip.
  change (lstrip ("    " +:+ name +:+ " ")) with (lstrip (name +:+ " ")).
  destruct name as [|c t]; [reflexivity|].
  change (String c t +:+ " ") with (String c (t +:+ " ")).
  cbn [lstrip] in Hl |- *. destruct (isspace c).
  - exfalso. clear -Hl.
    assert (L : forall s, String.length (lstrip s) <= String.length s).
    { induction s as [|a s IH]; cbn [lstrip]; [lia|].
      destruct (isspace a); cbn [String.length]; lia. }
    specialize (L t). rewrite Hl in L. cbn [String.length] in L. lia.
  - change (String c (t +:+ " ")) with (String c t +:+ " ").
    now rewrite rstrip_app_space.
Qed.

(** Reading a line that [lff_language] has written. *)
Lemma from_lff_written (TREE : Path) (path : option string) (l : Languoid)
    (level : Level) :
  truthy (Languoid_classification_status l) = false ->
  lacks "[" (fmt_s (Languoid_name l)) = true ->
  lstrip (fmt_s (Languoid_name l)) = fmt_s (Languoid_name l) ->
  rstrip (fmt_s (Languoid_name l)) = fmt_s (Languoid_name l) ->
  lacks "]" (fmt_s (Languoid_id l)) = true ->
  lacks "]" (or_empty (Languoid_iso l)) = true ->
  from_lff TREE path (lff_language l) level
  = (let* lineage_ :=
       match path with
       | None | Some EmptyString => Ok []
       | Some p => lff_lineage level 0 (split "], " p)
       end in
     let* res := Languoid_init TREE
                   (ini_core (fmt_s (Languoid_name l)) (fmt_s (Languoid_id l)))
                   (Some lineage_) None in
     let* res := Languoid_set_level res (PLevel level) in
     Ok (match or_empty (Languoid_iso l) with
         | EmptyString => res
         | _ => Languoid_set_iso res (or_empty (Languoid_iso l))
         end)).
Proof.
  intros Hcs Hn Hl Hr Hid Hiso. unfold from_lff, lff_language. rewrite Hcs.
  set (name := fmt_s (Languoid_name l)) in *.
  set (id := fmt_s (Languoid_id l)) in *.
  set (iso := or_empty (Languoid_iso l)) in *.
  assert (E1 : "    " +:+ name +:+ " [" +:+ id +:+ "][" +:+ iso +:+ "]"
               = ("    " +:+ name +:+ " ") +:+ "[" +:+ (id +:+ "][" +:+ iso +:+ "]")).
  { change ("    " +:+ name +:+ " [" +:+ id +:+ "][" +:+ iso +:+ "]")
      with ("    " +:+ (name +:+ (" " +:+ ("[" +:+ (id +:+ "][" +:+ iso +:+ "]"))))).
    change (("    " +:+ name +:+ " ") +:+ "[" +:+ (id +:+ "][" +:+ iso +:+ "]"))
      with (("    " +:+ (name +:+ " ")) +:+ ("[" +:+ (id +:+ "][" +:+ iso +:+ "]"))).
    now rewrite !append_assoc. }
  rewrite E1. unfold split_max.
  rewrite split_go_first; [|discriminate|].
  2:{ rewrite !lacks_app, Hn. reflexivity. }
  cbn [fmap option_fmap option_map Nat.pred].
  rewrite split_go_limit0. cbn [unpack2 bind Ok].
  rewrite (strip_padded name Hl Hr).
  assert (E2 : id +:+ "][" +:+ iso +:+ "]" = (id +:+ "][" +:+ iso) +:+ "]")
    by now rewrite !append_assoc.
  rewrite E2, drop_last_app. unfold split.
  rewrite split_go_first; [|discriminate|exact Hid].
  rewrite (split_go_lacks "]" "[" _ iso Hiso).
  reflexivity.
Qed.

(** *** X15 *)

(** X15 (a written language line is read back).  Let a Languoid have no
    classification status, a name without '[' and without white space at
    either end, and an id and an iso code without ']'.  Then [from_lff]
    reads the line that [lff_language] wrote for it, at any level and
    without a path, into a node with the same name and id, the same iso
    code (none when there was none or an empty one), the level that was
    passed and an empty lineage; writing that node gives the same line
    again.  With a path, whatever [from_lff] returns holds the same
    document. *)
Theorem lff_language_round_trip :
  forall (TREE : Path) (l : Languoid) (level : Level),
    truthy (Languoid_classification_status l) = false ->
    lacks "[" (fmt_s (Languoid_name l)) = true ->
    lstrip (fmt_s (Languoid_name l)) = fmt_s (Languoid_name l) ->
    rstrip (fmt_s (Languoid_name l)) = fmt_s (Languoid_name l) ->
    lacks "]" (fmt_s (Languoid_id l)) = true ->
    lacks "]" (or_empty (Languoid_iso l)) = true ->
    exists res : Languoid,
      from_lff TREE None (lff_language l) level = Ok res
      /\ Languoid_name res = Some (fmt_s (Languoid_name l))
      /\ Languoid_id res = Some (fmt_s (Languoid_id l))
      /\ Languoid_iso res
         = (if truthy (Languoid_iso l) then Languoid_iso l else None)
      /\ Languoid_level res = Ok (PLevel level)
      /\ lineage res = []
      /\ lff_language res = lff_language l
      /\ (forall (path : option string) (res' : Languoid),
             from_lff TREE path (lff_language l) level = Ok res' ->
             cfg res' = cfg res).
Proof.
  intros TREE l level Hcs Hn Hl Hr Hid Hiso.
  pose proof (fun path => from_lff_written TREE path l level Hcs Hn Hl Hr Hid Hiso)
    as W.
  set (name := fmt_s (Languoid_name l)) in *.
  set (id := fmt_s (Languoid_id l)) in *.
  set (base := Languoid_set {| cfg := ini_core name id; lineage := [];
                               dir := joinpath TREE [] |}
                 "level" (Level_value level)).
  set (res := match or_empty (Languoid_iso l) with
              | EmptyString => base
              | _ => Languoid_set_iso base (or_empty (Languoid_iso l))
              end).
  assert (Hres : from_lff TREE None (lff_language l) level = Ok res).
  { rewrite W. cbn [bind Ok]. rewrite Languoid_init_valid by reflexivity.
    cbn [bind Ok default map]. unfold Languoid_set_level.
    cbn [Level_call bind Ok]. reflexivity. }
  assert (Hname : Languoid_name res = Some name).
  { unfold res. destruct (or_empty (Languoid_iso l)); reflexivity. }
  assert (Hgc : Languoid_id res = Some id).
  { unfold res. destruct (or_empty (Languoid_iso l)); reflexivity. }
  assert (Hi : Languoid_iso res
               = if truthy (Languoid_iso l) then Languoid_iso l else None).
  { unfold res. destruct (Languoid_iso l) as [[|c t]|]; reflexivity. }
  assert (Hst : Languoid_classification_status res = None).
  { unfold res. destruct (or_empty (Languoid_iso l)); reflexivity. }
  exists res. split; [exact Hres|]. split; [exact Hname|].
  split; [exact Hgc|]. split; [exact Hi|]. split.
  { unfold res. destruct (or_empty (Languoid_iso l)).
    - apply Languoid_level_set.
    - unfold Languoid_set_iso, Languoid_level.
      rewrite Languoid_get_set_other by discriminate.
      apply Languoid_level_set. }
  split.
  { unfold res. destruct (or_empty (Languoid_iso l)); reflexivity. }
  split.
  { unfold lff_language. rewrite Hst, Hname, Hgc, Hi, Hcs.
    cbn [truthy fmt_s]. fold name id.
    destruct (Languoid_iso l) as [[|c t]|]; reflexivity. }
  intros path res' H. rewrite W in H.
  apply bind_Ok in H as (lin & _ & H). apply bind_Ok in H as (r0 & H0 & H).
  apply bind_Ok in H as (r1 & H1 & H). injection H as <-.
  apply Languoid_init_Ok in H0. subst r0.
  unfold Languoid_set_level in H1. cbn [Level_call bind Ok] in H1.
  injection H1 as <-. unfold res.
  destruct (or_empty (Languoid_iso l)); reflexivity.
Qed.

Lemma lff_language_round_trip_witness :
  lff_language written_language = "    Upper Sorbian [uppe1395][hsb]"
  /\ exists res : Languoid,
       from_lff sample_TREE None "    Upper Sorbian [uppe1395][hsb]" language
       = Ok res
       /\ res = written_language
       /\ lff_language res = lff_language written_language.
Proof.
  split; [reflexivity|].
  destruct (lff_language_round_trip sample_TREE written_language language
              eq_refl eq_refl eq_refl eq_refl eq_refl eq_refl)
    as (res & H & _ & _ & _ & _ & _ & Hw & _).
  exists res. split; [exact H|]. split; [|exact Hw].
  assert (E : from_lff sample_TREE None (lff_language written_language) language
              = Ok written_language) by (vm_compute; reflexivity).
  rewrite E in H. now injection H as <-.
Defined.

(** ** The group label, written and read back *)

Lemma split_go_last (c0 d : ascii) (sep' : string) (limit : option nat)
    (x : string) :
  lacks c0 x = true ->
  split_go (String c0 (String d sep')) limit 0 (x +:+ String c0 EmptyString)
  = [x +:+ String c0 EmptyString].
Proof.
  induction x as [|c t IH]; intros H.
  - change (EmptyString +:+ String c0 EmptyString) with (String c0 EmptyString).
    destruct limit as [[|n]|]; [reflexivity| |]; cbn [split_go String.prefix];
      destruct (ascii_dec c0 c0); reflexivity.
  - apply lacks_cons in H as [Hc Ht].
    change (String c t +:+ String c0 EmptyString)
      with (String c (t +:+ String c0 EmptyString)).
    destruct limit as [[|n]|]; [reflexivity| |]; cbn [split_go];
      (rewrite prefix_cons_ne by congruence); now rewrite IH.
Qed.

Lemma prefix_second_false (a b c : ascii) (t u : string) :
  a <> b -> lacks b t = true ->
  String.prefix (String a (String b EmptyString)) (String c (t +:+ String a u))
  = false.
Proof.
  intros Hab Ht. destruct t as [|d t].
  - change (EmptyString +:+ String a u) with (String a u).
    cbn [String.prefix]. destruct (ascii_dec a c); [|reflexivity].
    destruct (ascii_dec b a); [congruence|reflexivity].
  - apply lacks_cons in Ht as [Hd _].
    change (String d t +:+ String a u) with (String d (t +:+ String a u)).
    cbn [String.prefix]. destruct (ascii_dec a c); [|reflexivity].
    destruct (ascii_dec b d); [congruence|reflexivity].
Qed.

(** The first split at a separator of two characters, when the text
    before it lacks the second of them. *)
Lemma split_go_second (a b : ascii) (limit : option nat) (x rest : string) :
  a <> b -> limit <> Some 0 -> lacks b x = true ->
  split_go (String a (String b EmptyString)) limit 0
    (x +:+ String a (String b EmptyString) +:+ rest)
  = x :: split_go (String a (String b EmptyString)) (Nat.pred <$> limit) 0 rest.
Proof.
  intros Hab Hl. induction x as [|c t IH]; intros H.
  - apply (split_go_first a (String b EmptyString) limit EmptyString rest Hl).
    reflexivity.
  - pose proof H as H'. apply lacks_cons in H' as [Hc Ht].
    change (String c t +:+ String a (String b EmptyString) +:+ rest)
      with (String c (t +:+ String a (String b rest))).
    destruct limit as [[|n]|]; [congruence| |]; cbn [split_go];
      rewrite (prefix_second_false a b c t (String b rest) Hab Ht);
      change (t +:+ String a (String b rest))
        with (t +:+ String a (String b EmptyString) +:+ rest);
      now rewrite IH.
Qed.

Lemma lff_label_body (x : triple) :
  lff_label x = lff_body x +:+ "]".
Proof.
  unfold lff_label, lff_body, entry_name, entry_id.
  now rewrite !append_assoc.
Qed.

Lemma lff_body_lacks (x : triple) :
  name_ok x = true -> lacks "]" (entry_id x) = true ->
  lacks "]" (lff_body x) = true.
Proof.
  unfold name_ok, lff_body. intros Hn Hi. apply andb_prop in Hn as [_ Hn].
  now rewrite !lacks_app, Hn, Hi.
Qed.

Lemma split_written (xs : list triple) :
  xs <> [] ->
  forallb name_ok xs = true ->
  forallb (fun x => lacks "]" (entry_id x)) xs = true ->
  split "], " (join ", " (map lff_label xs)) = written_comps xs.
Proof.
  unfold split.
  induction xs as [|x [|y rest] IH]; intros Hne Hn Hi; [congruence| |].
  - cbn [map join written_comps forallb] in *.
    apply andb_prop in Hn as [Hn _]. apply andb_prop in Hi as [Hi _].
    rewrite lff_label_body.
    exact (split_go_last "]" "," " " None _ (lff_body_lacks x Hn Hi)).
  - cbn [forallb] in Hn, Hi.
    apply andb_prop in Hn as [Hn Hn']. apply andb_prop in Hi as [Hi Hi'].
    change (written_comps (x :: y :: rest))
      with (lff_body x :: written_comps (y :: rest)).
    rewrite <- IH by (auto; discriminate).
    change (join ", " (map lff_label (x :: y :: rest)))
      with (lff_label x +:+ ", " +:+ join ", " (map lff_label (y :: rest))).
    rewrite lff_label_body, append_assoc.
    change ("]" +:+ ", " +:+ join ", " (map lff_label (y :: rest)))
      with ("], " +:+ join ", " (map lff_label (y :: rest))).
    apply (split_go_first "]" ", " None); [discriminate|].
    exact (lff_body_lacks x Hn Hi).
Qed.

Lemma lacks_endswith (s : string) (c : ascii) :
  lacks c s = true -> endswith_char s c = false.
Proof.
  intros H. apply (endswith_char_forall (fun a => negb (Ascii.eqb a c)));
    [exact H|]. now rewrite Ascii.eqb_refl.
Qed.

Lemma split_body (x : triple) :
  name_ok x = true ->
  split_max " [" 1 (lff_body x) = [entry_name x; entry_id x].
Proof.
  intros Hn. apply andb_prop in Hn as [Hn _]. unfold split_max, lff_body.
  rewrite (split_go_second " " "[" (Some 1) (entry_name x) (entry_id x));
    [|discriminate|discriminate|exact Hn].
  cbn [fmap option_fmap option_map Nat.pred]. now rewrite split_go_limit0.
Qed.

Lemma lff_lineage_written (level : Level) (xs : list triple) :
  forall i : nat,
    forallb name_ok xs = true ->
    forallb (fun x => lacks "]" (entry_id x)) xs = true ->
    lff_lineage level i (written_comps xs) = Ok (read_back level i xs).
Proof.
  induction xs as [|x [|y rest] IH]; intros i Hn Hi; [reflexivity| |].
  - cbn [written_comps lff_lineage read_back forallb] in *.
    apply andb_prop in Hn as [Hn _]. apply andb_prop in Hi as [Hi _].
    rewrite lff_label_body.
    rewrite endswith_char_app by discriminate.
    cbn [endswith_char Ascii.eqb Bool.eqb]. rewrite drop_last_app.
    rewrite (split_body x Hn). reflexivity.
  - cbn [forallb] in Hn, Hi.
    apply andb_prop in Hn as [Hn Hn']. apply andb_prop in Hi as [Hi Hi'].
    change (written_comps (x :: y :: rest))
      with (lff_body x :: written_comps (y :: rest)).
    cbn [lff_lineage read_back].
    rewrite (lacks_endswith _ _ (lff_body_lacks x Hn Hi)).
    rewrite (split_body x Hn). cbn [unpack2 bind Ok].
    rewrite (IH (S i)) by (cbn [forallb]; auto).
    reflexivity.
Qed.

Lemma valid_ids_lack_bracket (xs : list triple) :
  forallb (fun t => id_pattern_match (entry_id t)) xs = true ->
  forallb (fun x => lacks "]" (entry_id x)) xs = true.
Proof.
  intros H. apply forallb_forall. intros x Hx.
  rewrite forallb_forall in H. specialize (H x Hx).
  rewrite id_pattern_match_accepts in H.
  apply (string_forall_lacks _ "]"); [reflexivity|].
  now apply accepts_chars.
Qed.

Lemma read_back_valid (level : Level) (xs : list triple) :
  forall i : nat,
    forallb (fun t => id_pattern_match (entry_id t)) xs = true ->
    forallb valid_lineage_entry (read_back level i xs) = true.
Proof.
  induction xs as [|x xs IH]; intros i H; [reflexivity|].
  cbn [forallb read_back] in *. apply andb_prop in H as [Hx H].
  rewrite (IH (S i) H), andb_true_r.
  unfold valid_lineage_entry. cbn [fst snd valid_lineage_id valid_level_value].
  now rewrite Hx.
Qed.

Lemma read_back_stored (level : Level) (xs : list triple) :
  forall i : nat,
    map (fun x : triple => (fst (fst x), entry_id x))
      (map stored_entry (read_back level i xs))
    = map (fun x => (Some (entry_name x), entry_id x)) xs
    /\ map (fun t : triple => snd (fst t)) (map stored_entry (read_back level i xs))
       = map entry_id xs.
Proof.
  induction xs as [|x xs IH]; intros i; [now split|].
  cbn [read_back map]. destruct (IH (S i)) as [E1 E2].
  rewrite E1, E2. now split.
Qed.

(** *** X16 *)

(** X16 (a written group label is read back).  Let a Languoid that is not
    a dialect have a non-empty lineage whose names hold no bracket and
    whose ids the identifier pattern accepts, as the ids of every
    constructed Languoid are.  Then the text that [lff_group] returns is
    not empty and, passed to [from_lff] as the path, is split into one
    entry per lineage entry, with the same names and ids in the same
    order; a line that [from_lff] reads without a path is read with this
    path too, into the same document, and the node is placed at the tree
    root followed by the ids of the lineage. *)
Theorem lff_group_round_trip :
  forall (TREE : Path) (l : Languoid) (lv : pylevel) (level : Level),
    Languoid_level l = Ok lv ->
    lv <> PLevel dialect ->
    lineage l <> [] ->
    forallb name_ok (lineage l) = true ->
    lineage_ids_valid l = true ->
    exists path : string,
      lff_group l = Ok path
      /\ path <> EmptyString
      /\ lff_lineage level 0 (split "], " path)
         = Ok (read_back level 0 (lineage l))
      /\ (forall (name_and_codes : string) (res0 : Languoid),
             from_lff TREE None name_and_codes level = Ok res0 ->
             exists res : Languoid,
               from_lff TREE (Some path) name_and_codes level = Ok res
               /\ cfg res = cfg res0
               /\ map (fun x : triple => (fst (fst x), entry_id x)) (lineage res)
                  = map (fun x => (Some (entry_name x), entry_id x)) (lineage l)
               /\ dir res = joinpath TREE (map entry_id (lineage l))).
Proof.
  intros TREE l lv level Hlv Hnd Hne Hnames Hids.
  unfold lineage_ids_valid in Hids.
  pose proof (valid_ids_lack_bracket _ Hids) as Hbr.
  exists (join ", " (map lff_label (lineage l))).
  assert (Hg : lff_group l = Ok (join ", " (map lff_label (lineage l)))).
  { rewrite (lff_group_unfold _ _ Hlv).
    assert (E : lff_group_entries lv l = lineage l)
      by (destruct lv as [| |[]]; try reflexivity; congruence).
    rewrite E. destruct (lineage l) as [|x xs] eqn:El; [congruence|].
    pose proof (join_labels_nonempty (x :: xs) ltac:(discriminate)) as N.
    destruct (join ", " (map lff_label (x :: xs))); [congruence|reflexivity]. }
  pose proof (join_labels_nonempty (lineage l) Hne) as Hpath.
  assert (Hlin : lff_lineage level 0
                   (split "], " (join ", " (map lff_label (lineage l))))
                 = Ok (read_back level 0 (lineage l))).
  { rewrite (split_written _ Hne Hnames Hbr).
    now apply lff_lineage_written. }
  split; [exact Hg|]. split; [exact Hpath|]. split; [exact Hlin|].
  intros nac res0 H0. unfold from_lff in H0 |- *.
  destruct (unpack2 (split_max "[" 1 nac)) as [e|[lname codes]];
    [discriminate|].
  cbn [bind] in H0 |- *.
  destruct (unpack2 (split "][" (drop_last codes))) as [e|[glottocode isocode]];
    [discriminate|].
  cbn [bind Ok] in H0 |- *.
  rewrite Languoid_init_valid in H0 by reflexivity.
  cbn [bind Ok default map] in H0. unfold Languoid_set_level in H0 |- *.
  cbn [Level_call bind Ok] in H0. injection H0 as <-.
  destruct (join ", " (map lff_label (lineage l))) as [|c p] eqn:Ep;
    [congruence|].
  rewrite Hlin. cbn [bind Ok].
  rewrite Languoid_init_valid by (now apply read_back_valid).
  cbn [bind Ok default Level_call]. unfold id.
  destruct (read_back_stored level (lineage l) 0) as [E1 E2].
  eexists. split; [reflexivity|].
  destruct isocode; cbn [cfg lineage dir Languoid_set Languoid_set_iso];
    (split; [reflexivity|]); (split; [exact E1|]); now rewrite E2.
Qed.

Lemma lff_group_round_trip_witness :
  lff_group grouped_language
  = Ok "Indo-European [indo1319], West Slavic [west3000]"
  /\ exists res : Languoid,
       from_lff sample_TREE
         (Some "Indo-European [indo1319], West Slavic [west3000]")
         "    Upper Sorbian [uppe1395][hsb]" language = Ok res
       /\ lineage res = lineage grouped_language
       /\ dir res = ["west3000"; "indo1319"; "tree"; "languoids"].
Proof.
  destruct (lff_group_round_trip sample_TREE grouped_language
              (PLevel language) language eq_refl ltac:(discriminate)
              ltac:(discriminate) eq_refl eq_refl)
    as (path & Hg & _ & _ & H).
  assert (Ep : path = "Indo-European [indo1319], West Slavic [west3000]").
  { assert (G : lff_group grouped_language
                = Ok "Indo-European [indo1319], West Slavic [west3000]")
      by (vm_compute; reflexivity).
    rewrite G in Hg. now injection Hg as <-. }
  subst path. split; [exact Hg|].
  destruct (H "    Upper Sorbian [uppe1395][hsb]" written_language)
    as (res & Hres & _ & _ & Hdir).
  - vm_compute. reflexivity.
  - exists res. split; [exact Hres|]. split; [|exact Hdir].
    assert (L : match from_lff sample_TREE
                        (Some "Indo-European [indo1319], West Slavic [west3000]")
                        "    Upper Sorbian [uppe1395][hsb]" language with
                | inr r => Some (lineage r)
                | inl _ => None
                end = Some (lineage grouped_language))
      by (vm_compute; reflexivity).
    rewrite Hres in L. now injection L as L.
Defined.

(** *** X17 *)

(** X17 (lines that cannot be read).  [from_lff] raises ValueError, with
    any path and level, for a line that holds no '[', and for a line
    whose text after the first '[' holds no ']' before its last
    character, such as a line with one bracket pair only. *)
Theorem from_lff_malformed_line :
  forall (TREE : Path) (path : option string) (name_and_codes : string)
         (level : Level),
    (lacks "[" name_and_codes = true ->
     from_lff TREE path name_and_codes level = Raise ValueError)
    /\ (forall name codes : string,
           name_and_codes = name +:+ "[" +:+ codes ->
           lacks "[" name = true ->
           lacks "]" (drop_last codes) = true ->
           from_lff TREE path name_and_codes level = Raise ValueError).
Proof.
  intros TREE path nac level. unfold from_lff, split_max, split. split.
  - intros H. now rewrite (split_go_lacks "[" EmptyString _ nac H).
  - intros name codes -> Hn Hc.
    rewrite (split_go_first "[" EmptyString (Some 1) name codes);
      [|discriminate|exact Hn].
    cbn [fmap option_fmap option_map Nat.pred].
    rewrite split_go_limit0. cbn [unpack2 bind Ok].
    now rewrite (split_go_lacks "]" "[" None _ Hc).
Qed.

Lemma from_lff_malformed_line_witness :
  from_lff sample_TREE None "Bar" language = Raise ValueError
  /\ from_lff sample_TREE None "Bar [wxyz5678]" language = Raise ValueError.
Proof.
  split.
  - apply (from_lff_malformed_line sample_TREE None "Bar" language).
    reflexivity.
  - apply (proj2 (from_lff_malformed_line sample_TREE None "Bar [wxyz5678]"
                    language) "Bar " "wxyz5678]"); reflexivity.
Defined.

(** ** Ancestors in any tree *)

Lemma ancestors_walk_returns (TREE : Path) (fs : fsnode) (parents : list Path) :
  forall (res out : list (option Languoid)) (st st' : store),
    ancestors_walk TREE fs parents res st = Ok (out, st') ->
    exists new : list (option Languoid),
      out = res ++ new
      /\ Forall2 (loaded_from fs)
           (takewhile (fun p => id_pattern_match (path_name p)) parents) new
      /\ caller_nodes st' = caller_nodes st.
Proof.
  induction parents as [|p rest IH]; intros res out st st' H;
    cbn [ancestors_walk takewhile] in *.
  - injection H as <- <-. exists []. rewrite app_nil_r.
    split; [reflexivity|]. split; [constructor|reflexivity].
  - destruct (id_pattern_match (path_name p)).
    2:{ injection H as <- <-. exists []. rewrite app_nil_r.
        split; [reflexivity|]. split; [constructor|reflexivity]. }
    apply bind_Ok in H as ([a s1] & Ha & H).
    destruct (IH _ _ _ _ H) as (new & -> & Hall & Hk).
    pose proof (from_dir_keeps_caller _ _ _ _ _ _ Ha) as Hk1.
    exists (a :: new). rewrite <- app_assoc. split; [reflexivity|].
    split; [|congruence]. constructor; [|exact Hall].
    apply from_dir_returns in Ha. destruct a as [l|].
    + destruct Ha as (Hdir & f & Hf & _ & _ & Hcfg & _).
      split; [exact Hdir|]. now exists f.
    + now destruct Ha.
Qed.

Lemma Forall2_rev {A B} (R : A -> B -> Prop) (l : list A) (k : list B) :
  Forall2 R l k -> Forall2 R (rev l) (rev k).
Proof.
  induction 1 as [|a b l k Hab H IH]; [constructor|].
  cbn [rev]. apply Forall2_app; [exact IH|]. now repeat constructor.
Qed.

(** *** X18 *)

(** X18 (ancestors in any tree).  When [ancestors] returns, its list has
    one entry for every parent directory of the walk, root first: the
    Languoid loaded from the first file of that directory and placed in
    it, or [None] for a directory without a file.  The calls omit
    [nodes]: a dictionary supplied by a caller is left as it was. *)
Theorem ancestors_one_per_walked_parent :
  forall (TREE : Path) (fs : fsnode) (l : Languoid) (st st' : store)
         (anc : list (option Languoid)),
    ancestors TREE fs l st = Ok (anc, st') ->
    Forall2 (loaded_from fs) (rev (walked_parents (dir l))) anc
    /\ length anc = length (walked_parents (dir l))
    /\ caller_nodes st' = caller_nodes st.
Proof.
  intros TREE fs l st st' anc H. unfold ancestors in H.
  apply bind_Ok in H as ([res s] & Hw & H). injection H as <- <-.
  destruct (ancestors_walk_returns _ _ _ _ _ _ _ Hw) as (new & -> & Hall & Hk).
  cbn [app]. split; [|split; [|exact Hk]].
  - now apply Forall2_rev.
  - rewrite length_rev. symmetry. exact (Forall2_length _ _ _ Hall).
Qed.

Lemma ancestors_one_per_walked_parent_witness :
  exists st' : store,
    ancestors sample_TREE odd_tree orphan_node store0 = Ok ([None], st')
    /\ from_ini sample_TREE odd_tree orphan_descriptor DefaultNodes store0
       = Raise AttributeError
    /\ dir orphan_node = path_parent orphan_descriptor.
Proof.
  assert (P : match ancestors sample_TREE odd_tree orphan_node store0 with
              | inr (anc, _) => Some anc
              | inl _ => None
              end = Some [None])
    by (vm_compute; reflexivity).
  destruct (ancestors sample_TREE odd_tree orphan_node store0)
    as [e|[anc st']] eqn:E; [discriminate P|].
  destruct (ancestors_one_per_walked_parent sample_TREE odd_tree orphan_node
              store0 st' anc E) as (_ & Hlen & _).
  injection P as ->.
  exists st'. split; [reflexivity|]. split; reflexivity.
Defined.
